(** * The document server of em (server/index.ts)

    A shallow embedding of the hooks that the server hands to Hocuspocus
    ([onAuthenticate], [onLoadDocument], [onDisconnect]), of [bindState],
    of the permission observer and of the delete handler given to the
    replication controller, together with the state they act on.

    The external libraries are represented by the part of their behaviour
    that the server relies on:
    - a [Y.Doc] is its store (what [Y.encodeStateAsUpdate] returns and
      [Y.applyUpdate] merges by union), its client id, the handlers
      registered with [doc.on('update', ...)], the observers of its root
      map, and a destroyed flag.  The store holds the items of the
      top-level maps and their deletions, and the structs whose content the
      server never reads; the maps of a document are read off its store;
    - a [LeveldbPersistence] or [level] instance is a handle on a directory
      of the disk; the disk survives the handle; [getYDoc] of y-leveldb
      rewrites a name that holds more than 500 updates into one;
    - the wall clock is an oracle read one value at a time.

    The module [documentNameEncoder], [replicationController] and
    [timestamp] are imported by the server but are not part of the sources
    at hand: the codec functions are parameters of the development, the
    controller is the record of its construction, and [timestamp] reads the
    clock oracle. *)

From Stdlib Require Import ZArith.
From stdpp Require Import gmap strings list fin_maps lexico.

Open Scope string_scope.
Open Scope list_scope.

(** ** Data *)

Definition Timestamp : Type := Z.

(** [Share] (src/@types/Share): the permission record of one access token. *)
Record Share := mkShare {
  accessed : Timestamp;
  created : Timestamp;
  name : string;
  role : string;
}.

#[global] Instance Share_eq_dec : EqDecision Share.
Proof. solve_decision. Defined.

#[global] Instance Share_countable : Countable Share :=
  inj_countable' (λ s, (accessed s, created s, name s, role s))
                 (λ t, mkShare t.1.1.1 t.1.1.2 t.1.2 t.2)
                 (λ s, match s with mkShare _ _ _ _ => eq_refl end).

(** A struct of a Yjs document is identified by (client, clock). *)
Definition StructId : Type := nat * nat.

(** What a store holds.
    - [struct]: a struct whose content the server never reads (the content
      of thoughts, lexemes and doclogs);
    - [mapItem parent key pos v]: the item that a [set] of [key] to [v]
      adds to the top-level map [parent].  Yjs keeps the items of a key in
      a sequence, each new item to the right of the item it was written
      after, items written after the same item ordered by client id; the
      rightmost item is the value of the key.  [pos] is the place of the
      item in that sequence: the client ids along the chain of items from
      the first write of the key to this one, so that an item is to the
      right of another when its [pos] is the greater one in the
      lexicographic order;
    - [mapTombstone parent key pos]: the deletion of the item at [pos]. *)
Inductive Entry :=
| struct (id : StructId)
| mapItem (parent key : string) (pos : list nat) (v : Share)
| mapTombstone (parent key : string) (pos : list nat).

#[global] Instance Entry_eq_dec : EqDecision Entry.
Proof. solve_decision. Defined.

#[global] Instance Entry_countable : Countable Entry :=
  inj_countable'
    (λ e, match e with
          | struct i => inl i
          | mapItem n k p v => inr (inl (n, k, p, v))
          | mapTombstone n k p => inr (inr (n, k, p))
          end)
    (λ x, match x with
          | inl i => struct i
          | inr (inl t) => mapItem t.1.1.1 t.1.1.2 t.1.2 t.2
          | inr (inr t) => mapTombstone t.1.1 t.1.2 t.2
          end)
    (λ e, match e with
          | struct _ | mapItem _ _ _ _ | mapTombstone _ _ _ => eq_refl
          end).

(** An update, and the state of a document encoded as an update. *)
Definition Update : Type := gset Entry.

Inductive ConsoleMethod := log_ | info | warn | error.

Record ConsoleLine := mkLine {
  method : ConsoleMethod;
  args : list string;
}.

(** What [parseDocumentName] returns. *)
Record DocumentNameParts := mkParts {
  tsid : string;
  type : string;
  id : option string;
}.

Inductive DocLogAction := Create | Update_ | Delete.

(** The argument of the controller's [next] callback. *)
Record DocLogEntry := mkEntry {
  entryAction : DocLogAction;
  entryId : string;
  entryType : string;
}.

(** The keys of a [Y.YMapEvent]: each changed key with its action. *)
Inductive ChangeAction := add | update | delete_.

(** A live [Y.Doc]. *)
Record YDoc := mkYDoc {
  store : gset Entry;
  clientID : nat;
  updateHandlers : list (nat * string);
  observers : list string;
  isDestroyed : bool;
}.

(** [new Y.Doc()]; the client id, which Yjs draws at random, is 0. *)
Definition newYDoc : YDoc := mkYDoc ∅ 0 [] [] false.

(** An open or closed store over a directory. *)
Record HandleState := mkHandle {
  dir : string;
  isOpen : bool;
}.

(** The closure built by the call of [replicationController] in
    [onLoadDocument]: the document it is bound to, and the variables that
    [next] and [storage] capture. *)
Record Controller := mkController {
  ctlDoc : nat;
  ctlTsid : string;
  ctlDocumentName : string;
  ctlReplicationCursorDb : nat;
}.

Inductive Error := DecodeError | Err (msg : string).

Inductive Result (A : Type) :=
| Resolved (a : A)
| Rejected (e : Error).
Arguments Resolved {A} a.
Arguments Rejected {A} e.

(** The state of the server process. *)
Record World := mkWorld {
  clock : nat → Timestamp;
  ticks : nat;
  console : list ConsoleLine;
  permissionsServerDoc : YDoc;
  heap : gmap nat YDoc;
  documents : gmap string nat;
  handles : gmap nat HandleState;
  nextHandle : nat;
  disk : gmap string (gmap string (list Update));
  ldbThoughtspaces : gmap string nat;
  ldbDoclogs : gmap string nat;
  ldbReplicationCursors : gmap string nat;
  controllers : list Controller;
  listening : bool;
}.

(** Field updates. *)
Definition set_ticks (n : nat) (w : World) : World :=
  mkWorld (clock w) n (console w) (permissionsServerDoc w) (heap w) (documents w)
    (handles w) (nextHandle w) (disk w) (ldbThoughtspaces w) (ldbDoclogs w)
    (ldbReplicationCursors w) (controllers w) (listening w).
Definition set_console (c : list ConsoleLine) (w : World) : World :=
  mkWorld (clock w) (ticks w) c (permissionsServerDoc w) (heap w) (documents w)
    (handles w) (nextHandle w) (disk w) (ldbThoughtspaces w) (ldbDoclogs w)
    (ldbReplicationCursors w) (controllers w) (listening w).
Definition set_permissionsServerDoc (d : YDoc) (w : World) : World :=
  mkWorld (clock w) (ticks w) (console w) d (heap w) (documents w)
    (handles w) (nextHandle w) (disk w) (ldbThoughtspaces w) (ldbDoclogs w)
    (ldbReplicationCursors w) (controllers w) (listening w).
Definition set_heap (h : gmap nat YDoc) (w : World) : World :=
  mkWorld (clock w) (ticks w) (console w) (permissionsServerDoc w) h (documents w)
    (handles w) (nextHandle w) (disk w) (ldbThoughtspaces w) (ldbDoclogs w)
    (ldbReplicationCursors w) (controllers w) (listening w).
Definition set_handles (h : gmap nat HandleState) (n : nat) (w : World) : World :=
  mkWorld (clock w) (ticks w) (console w) (permissionsServerDoc w) (heap w) (documents w)
    h n (disk w) (ldbThoughtspaces w) (ldbDoclogs w)
    (ldbReplicationCursors w) (controllers w) (listening w).
Definition set_disk (d : gmap string (gmap string (list Update))) (w : World) : World :=
  mkWorld (clock w) (ticks w) (console w) (permissionsServerDoc w) (heap w) (documents w)
    (handles w) (nextHandle w) d (ldbThoughtspaces w) (ldbDoclogs w)
    (ldbReplicationCursors w) (controllers w) (listening w).
Definition set_ldbThoughtspaces (r : gmap string nat) (w : World) : World :=
  mkWorld (clock w) (ticks w) (console w) (permissionsServerDoc w) (heap w) (documents w)
    (handles w) (nextHandle w) (disk w) r (ldbDoclogs w)
    (ldbReplicationCursors w) (controllers w) (listening w).
Definition set_ldbDoclogs (r : gmap string nat) (w : World) : World :=
  mkWorld (clock w) (ticks w) (console w) (permissionsServerDoc w) (heap w) (documents w)
    (handles w) (nextHandle w) (disk w) (ldbThoughtspaces w) r
    (ldbReplicationCursors w) (controllers w) (listening w).
Definition set_ldbReplicationCursors (r : gmap string nat) (w : World) : World :=
  mkWorld (clock w) (ticks w) (console w) (permissionsServerDoc w) (heap w) (documents w)
    (handles w) (nextHandle w) (disk w) (ldbThoughtspaces w) (ldbDoclogs w)
    r (controllers w) (listening w).
Definition set_controllers (c : list Controller) (w : World) : World :=
  mkWorld (clock w) (ticks w) (console w) (permissionsServerDoc w) (heap w) (documents w)
    (handles w) (nextHandle w) (disk w) (ldbThoughtspaces w) (ldbDoclogs w)
    (ldbReplicationCursors w) c (listening w).
Definition set_listening (b : bool) (w : World) : World :=
  mkWorld (clock w) (ticks w) (console w) (permissionsServerDoc w) (heap w) (documents w)
    (handles w) (nextHandle w) (disk w) (ldbThoughtspaces w) (ldbDoclogs w)
    (ldbReplicationCursors w) (controllers w) b.

(** ** The libraries *)

Definition with_store (s : gset Entry) (d : YDoc) : YDoc :=
  mkYDoc s (clientID d) (updateHandlers d) (observers d) (isDestroyed d).
Definition with_updateHandlers (h : list (nat * string)) (d : YDoc) : YDoc :=
  mkYDoc (store d) (clientID d) h (observers d) (isDestroyed d).
Definition with_observers (o : list string) (d : YDoc) : YDoc :=
  mkYDoc (store d) (clientID d) (updateHandlers d) o (isDestroyed d).

(** The name of the map that [doc.getMap()] returns when called without a
    name. *)
Definition rootMap : string := EmptyString.

(** Two items of a key never share a place in a store that was built by
    writes; for the order to be total on any store, items at the same
    place are ordered by their values (by encoding). *)
#[global] Instance Share_lexico : Lexico Share :=
  λ a b, (encode a < encode b)%positive.

#[global] Instance Share_lexico_po : StrictOrder (@lexico Share _).
Proof.
  split.
  - intros a. apply Pos.lt_irrefl.
  - intros a b c. apply Pos.lt_trans.
Qed.

#[global] Instance Share_lexico_trichotomy : TrichotomyT (@lexico Share _).
Proof.
  refine (λ a b,
    match Pos.compare (encode a) (encode b) as c
          return Pos.compare (encode a) (encode b) = c → _ with
    | Lt => λ H, inleft (left (proj1 (Pos.compare_lt_iff _ _) H))
    | Eq => λ H, inleft (right (encode_inj _ _ (Pos.compare_eq _ _ H)))
    | Gt => λ H, inright (proj1 (Pos.compare_gt_iff _ _) H)
    end eq_refl).
Defined.

(** The greatest element of a list. *)
Definition maximum {A : Type} `{Lexico A} `{∀ x y : A, Decision (lexico x y)}
    (l : list A) : option A :=
  foldr (λ x best,
           match best with
           | Some b => if decide (lexico b x) then Some x else Some b
           | None => Some x
           end) None l.

(** The items of the key [k] of the map [n], and the places taken by the
    items and the deletions of the key. *)
Definition mapItems (s : gset Entry) (n k : string) : list (list nat * Share) :=
  omap (λ e, match e with
             | mapItem n' k' p v =>
                 if decide (n' = n ∧ k' = k) then Some (p, v) else None
             | _ => None
             end) (elements s).

Definition mapPositions (s : gset Entry) (n k : string) : list (list nat) :=
  omap (λ e, match e with
             | mapItem n' k' p _ | mapTombstone n' k' p =>
                 if decide (n' = n ∧ k' = k) then Some p else None
             | _ => None
             end) (elements s).

Definition mapKeys (s : gset Entry) (n : string) : gset string :=
  list_to_set
    (omap (λ e, match e with
                | mapItem n' k _ _ => if decide (n' = n) then Some k else None
                | _ => None
                end) (elements s)).

(** [map.get(key)]: the value of the rightmost item of the key, unless
    that item is deleted. *)
Definition lookupMap (s : gset Entry) (n k : string) : option Share :=
  match maximum (mapItems s n k) with
  | Some c => if decide (mapTombstone n k c.1 ∈ s) then None else Some c.2
  | None => None
  end.

(** [doc.getMap(name)], as the finite map of its entries. *)
Definition getMap (d : YDoc) (n : string) : gmap string Share :=
  map_imap (λ k _, lookupMap (store d) n k) (gset_to_gmap () (mapKeys (store d) n)).

(** What the transaction of [map.set(key, value)] adds to the store: an
    item to the right of everything the document has for the key. *)
Definition mapSet_update (d : YDoc) (n k : string) (v : Share) : Update :=
  {[ mapItem n k (default [] (maximum (mapPositions (store d) n k)) ++ [clientID d]) v ]}.

(** What the transaction of [map.delete(key)] adds: the deletion of the
    item that holds the value; nothing when the key has no value. *)
Definition mapDelete_update (d : YDoc) (n k : string) : Update :=
  match maximum (mapItems (store d) n k) with
  | Some c =>
      if decide (mapTombstone n k c.1 ∈ store d) then ∅
      else {[ mapTombstone n k c.1 ]}
  | None => ∅
  end.

(** The keys of the event that a map observer receives when the store of
    its document goes from [before] to [after]. *)
Definition changedKeys (before after : gset Entry) (n : string)
  : list (string * ChangeAction) :=
  omap (λ k,
          match lookupMap after n k, lookupMap before n k with
          | Some _, Some _ =>
              if decide (maximum (mapItems before n k) = maximum (mapItems after n k))
              then None else Some (k, update)
          | Some _, None => Some (k, add)
          | None, Some _ => Some (k, delete_)
          | None, None => None
          end) (elements (mapKeys after n)).

(** The documents the server code holds a reference to: the process-wide
    [permissionsServerDoc], and the documents hosted by Hocuspocus, which
    are named by their identity. *)
Inductive DocRef := serverDoc | hosted (n : nat).

#[global] Instance DocRef_eq_dec : EqDecision DocRef.
Proof. solve_decision. Defined.

Definition getDoc (r : DocRef) (w : World) : YDoc :=
  match r with
  | serverDoc => permissionsServerDoc w
  | hosted n => default newYDoc (heap w !! n)
  end.

Definition setDoc (r : DocRef) (d : YDoc) (w : World) : World :=
  match r with
  | serverDoc => set_permissionsServerDoc d w
  | hosted n => set_heap (<[n := d]> (heap w)) w
  end.

(** [new Date()] and [timestamp()]: the next reading of the clock. *)
Definition readClock (w : World) : Timestamp * World :=
  (clock w (ticks w), set_ticks (S (ticks w)) w).

Definition timestamp : World → Timestamp * World := readClock.

(** The directory of an open handle; [None] once it is closed. *)
Definition openDir (db : nat) (w : World) : option string :=
  match handles w !! db with
  | Some h => if isOpen h then Some (dir h) else None
  | None => None
  end.

Definition storedUpdates (d docName : string) (w : World) : list Update :=
  default [] (default ∅ (disk w !! d) !! docName).

(** PREFERRED_TRIM_SIZE of y-leveldb. *)
Definition PREFERRED_TRIM_SIZE : nat := 500.

(** [flushDocument] of y-leveldb: the state of the document replaces the
    stored updates of its name. *)
Definition flushDocument (d docName : string) (stateAsUpdate : Update) (w : World)
  : World :=
  set_disk (<[d := <[docName := [stateAsUpdate]]> (default ∅ (disk w !! d))]> (disk w)) w.

(** [db.getYDoc(docName)]: the document made of all the stored updates;
    when there are more than PREFERRED_TRIM_SIZE of them, the name is
    flushed. *)
Definition getYDoc_db (db : nat) (docName : string) (w : World)
  : option (Update * World) :=
  match openDir db w with
  | Some d =>
      let updates := storedUpdates d docName w in
      let ydoc : Update := ⋃ updates in
      Some (ydoc,
            if decide (PREFERRED_TRIM_SIZE < length updates)
            then flushDocument d docName ydoc w
            else w)
  | None => None
  end.

(** [db.storeUpdate(docName, update)] *)
Definition storeUpdate (db : nat) (docName : string) (u : Update) (w : World)
  : option World :=
  match openDir db w with
  | Some d =>
      Some (set_disk (<[d := <[docName := storedUpdates d docName w ++ [u]]>
                             (default ∅ (disk w !! d))]> (disk w)) w)
  | None => None
  end.

(** [db.clearDocument(docName)] *)
Definition clearDocument (db : nat) (docName : string) (w : World) : option World :=
  match openDir db w with
  | Some d =>
      Some (set_disk (<[d := base.delete docName (default ∅ (disk w !! d))]> (disk w)) w)
  | None => None
  end.

(** [new LeveldbPersistence(dir)] and [level(dir, ...)] *)
Definition openStore (d : string) (w : World) : nat * World :=
  (nextHandle w,
   set_handles (<[nextHandle w := mkHandle d true]> (handles w)) (S (nextHandle w)) w).

(** [db.destroy()] of y-leveldb and [db.close()] of level: both close the
    store and leave its directory in place. *)
Definition closeStore (db : nat) (w : World) : World :=
  set_handles (alter (λ h, mkHandle (dir h) false) db (handles w)) (nextHandle w) w.

(** An 'update' event of a document: every registered handler is
    [update => { db.storeUpdate(docName, update) }], whose promise is
    dropped. *)
Definition emitUpdate (hs : list (nat * string)) (u : Update) (w : World) : World :=
  foldl (λ w h, default w (storeUpdate h.1 h.2 u w)) w hs.

(** The two writes to a map of [permissionsServerDoc]: the transaction
    adds to the store and the 'update' event carries what it added. *)
Definition serverMap_set (ts key : string) (v : Share) (w : World) : World :=
  let d := permissionsServerDoc w in
  let u := mapSet_update d ts key v in
  emitUpdate (updateHandlers d) u
    (set_permissionsServerDoc (with_store (store d ∪ u) d) w).

Definition serverMap_delete (ts key : string) (w : World) : World :=
  let d := permissionsServerDoc w in
  let u := mapDelete_update d ts key in
  if decide (u = ∅) then w
  else emitUpdate (updateHandlers d) u
         (set_permissionsServerDoc (with_store (store d ∪ u) d) w).

(** The callback given to [permissionsClientMap.observe] (lines 147-166),
    for one changed key: [w] is the state at the time of the event, the
    client map is the root map of the document [permissionsClientDoc]. *)
Definition observeChange (ts : string) (permissionsClientDoc : nat) (w : World)
    (kc : string * ChangeAction) : World :=
  match kc.2 with
  | delete_ => serverMap_delete ts kc.1 w
  | _ =>
      let clientShare := getMap (getDoc (hosted permissionsClientDoc) w) rootMap !! kc.1 in
      let serverShare := getMap (permissionsServerDoc w) ts !! kc.1 in
      match clientShare with
      | None => w
      | Some c =>
          if decide (Some (name c) ≠ name <$> serverShare
                     ∨ Some (role c) ≠ role <$> serverShare)
          then serverMap_set ts kc.1 c w
          else w
      end
  end.

(** The whole callback: [e.changes.keys.forEach(...)]. *)
Definition observeCallback (ts : string) (permissionsClientDoc : nat)
    (keys : list (string * ChangeAction)) (w : World) : World :=
  foldl (observeChange ts permissionsClientDoc) w keys.

(** A change of the root map of a hosted document calls the observers
    installed on it, each with the server map it captured. *)
Definition notifyObservers (doc : nat) (keys : list (string * ChangeAction))
    (w : World) : World :=
  foldl (λ w ts, observeCallback ts doc keys w) w
        (observers (getDoc (hosted doc) w)).

(** [Y.applyUpdate(doc, update)]: merges the update; when it brings
    something new, the observers of the root map are called with the keys
    it changed, and the 'update' event carries what was new. *)
Definition applyUpdate (doc : DocRef) (u : Update) (w : World) : World :=
  let d := getDoc doc w in
  let news := u ∖ store d in
  let w1 := setDoc doc (with_store (store d ∪ u) d) w in
  if decide (news = ∅) then w1
  else
    let w2 :=
      match doc with
      | hosted n => notifyObservers n (changedKeys (store d) (store d ∪ u) rootMap) w1
      | serverDoc => w1
      end in
    emitUpdate (updateHandlers d) news w2.

(** [doc.on('update', update => { db.storeUpdate(docName, update) })] *)
Definition onUpdate (doc : DocRef) (db : nat) (docName : string) (w : World) : World :=
  let d := getDoc doc w in
  setDoc doc (with_updateHandlers (updateHandlers d ++ [(db, docName)]) d) w.

(** [doc.destroy()]: the document is marked destroyed and loses its event
    handlers. *)
Definition destroyDoc (doc : DocRef) (w : World) : World :=
  let d := getDoc doc w in
  setDoc doc (mkYDoc (store d) (clientID d) [] (observers d) true) w.

(** ** server/index.ts *)

(** [mask]: the first n characters of a string, then an ellipsis. *)
Definition mask (s : string) (n : nat) : string := String.substring 0 n s +:+ "...".

Definition esc : string := String (Ascii.ascii_of_nat 27) EmptyString.

(** [gray] *)
Definition gray (s : string) : string := esc +:+ "[90m" +:+ s +:+ esc +:+ "[0m".

Definition console_error (a : list string) (w : World) : World :=
  set_console (console w ++ [mkLine error a]) w.

Definition console_info (a : list string) (w : World) : World :=
  set_console (console w ++ [mkLine info a]) w.

(** src/data-providers/yjs/documentNameEncoder, of which the server uses
    the signatures only; [None] stands for a thrown error. *)
Class DocumentNameEncoder := {
  parseDocumentName : string → option DocumentNameParts;
  encodeThoughtDocumentName : string → string → string;
  encodeLexemeDocumentName : string → string → string;
  encodePermissionsDocumentName : string → string;
  encodeDocLogDocumentName : string → string → string;
}.

(** [Date.prototype.toISOString], [path.join] and the environment variable
    DB_DIR (or its default). *)
Class Platform := {
  toISOString : Timestamp → string;
  path_join : string → string → string;
  dbDir : string;
}.

Section Server.

Context {enc : DocumentNameEncoder} {plat : Platform}.

Definition thoughtsDbBasePath : string := dbDir +:+ "/thoughts".
Definition doclogDbBasePath : string := dbDir +:+ "/doclogs".
Definition replicationCursorDbBasePath : string := dbDir +:+ "/replicationCursor".

(** The handle [ldbPermissions] is the first store the process opens. *)
Definition ldbPermissions : nat := 0.

(** [log], called with strings only in this file: the line is printed
    with [console.info], after the date. *)
Definition log (a : list string) (w : World) : World :=
  let '(now, w1) := readClock w in
  console_info (gray (toISOString now) :: a) w1.

(** [bindState], cut at its two [await]s: the read of the persisted
    document (line 75), the write of the current state (lines 76-77), and
    the merge with the subscription (lines 78-81). *)
Definition bindState_read (db : nat) (docName : string) (w : World)
  : option (Update * World) :=
  getYDoc_db db docName w.

Definition bindState_write (db : nat) (docName : string) (doc : DocRef) (w : World)
  : option World :=
  let updates := store (getDoc doc w) in
  storeUpdate db docName updates w.

Definition bindState_merge (db : nat) (docName : string) (doc : DocRef)
    (docPersisted : Update) (w : World) : World :=
  onUpdate doc db docName (applyUpdate doc docPersisted w).

Definition bindState (db : nat) (docName : string) (doc : DocRef) (w : World)
  : Result unit * World :=
  match bindState_read db docName w with
  | None => (Rejected (Err "Database is not open"), w)
  | Some (docPersisted, w0) =>
      match bindState_write db docName doc w0 with
      | None => (Rejected (Err "Database is not open"), w0)
      | Some w1 => (Resolved (), bindState_merge db docName doc docPersisted w1)
      end
  end.

(** [onAuthenticate] *)
Definition onAuthenticate (token documentName : string) (w : World)
  : Result string * World :=
  match parseDocumentName documentName with
  | None => (Rejected DecodeError, w)
  | Some p =>
      let permissionsServerMap := getMap (permissionsServerDoc w) (tsid p) in
      let w1 :=
        if decide (size permissionsServerMap = 0) then
          let w_log :=
            log ["assigning owner " +:+ mask token 4 +:+ " to new thoughtspace "
                   +:+ tsid p] w in
          let '(t_accessed, w_a) := timestamp w_log in
          let '(t_created, w_c) := timestamp w_a in
          serverMap_set (tsid p) token (mkShare t_accessed t_created "Owner" "owner") w_c
        else w in
      if decide (role <$> (getMap (permissionsServerDoc w1) (tsid p) !! token)
                 ≠ Some "owner")
      then (Rejected (Err "Not authorized"), w1)
      else (Resolved token, w1)
  end.

(** [permissionsClientMap.set(key, value)] (line 142): the transaction
    adds the item, calls the observers of the map, then emits 'update'. *)
Definition clientMap_set (doc : nat) (key : string) (v : Share) (w : World) : World :=
  let d := getDoc (hosted doc) w in
  let change := match getMap d rootMap !! key with Some _ => update | None => add end in
  let u := mapSet_update d rootMap key v in
  let w1 := setDoc (hosted doc) (with_store (store d ∪ u) d) w in
  emitUpdate (updateHandlers d) u (notifyObservers doc [(key, change)] w1).

(** The removal of a key of the root map. *)
Definition clientMap_delete (doc : nat) (key : string) (w : World) : World :=
  let d := getDoc (hosted doc) w in
  match getMap d rootMap !! key with
  | None => w
  | Some _ =>
      let u := mapDelete_update d rootMap key in
      let w1 := setDoc (hosted doc) (with_store (store d ∪ u) d) w in
      emitUpdate (updateHandlers d) u (notifyObservers doc [(key, delete_)] w1)
  end.

(** [permissionsClientMap.observe(callback)] *)
Definition observe (doc : nat) (ts : string) (w : World) : World :=
  let d := getDoc (hosted doc) w in
  setDoc (hosted doc) (with_observers (observers d ++ [ts]) d) w.

(** [getYDoc]: [server.documents.get(name)] *)
Definition getYDoc (n : string) (w : World) : option nat := documents w !! n.

(** [registry.get(tsid)], and on a miss the construction and
    registration of a store: lines 168-172, 175-179 and 182-186. *)
Definition thoughtspaceDb (ts : string) (w : World) : nat * World :=
  match ldbThoughtspaces w !! ts with
  | Some db => (db, w)
  | None =>
      let '(db, w1) := openStore (path_join thoughtsDbBasePath ts) w in
      (db, set_ldbThoughtspaces (<[ts := db]> (ldbThoughtspaces w1)) w1)
  end.

Definition doclogDb (ts : string) (w : World) : nat * World :=
  match ldbDoclogs w !! ts with
  | Some db => (db, w)
  | None =>
      let '(db, w1) := openStore (path_join doclogDbBasePath ts) w in
      (db, set_ldbDoclogs (<[ts := db]> (ldbDoclogs w1)) w1)
  end.

Definition replicationCursorDb (ts : string) (w : World) : nat * World :=
  match ldbReplicationCursors w !! ts with
  | Some db => (db, w)
  | None =>
      let '(db, w1) := openStore (path_join replicationCursorDbBasePath ts) w in
      (db, set_ldbReplicationCursors (<[ts := db]> (ldbReplicationCursors w1)) w1)
  end.

(** [replicationController({ doc, next, storage })] *)
Definition replicationController (c : Controller) (w : World) : World :=
  set_controllers (controllers w ++ [c]) w.

(** [onLoadDocument] *)
Definition onLoadDocument (token : string) (document : nat) (documentName : string)
    (w : World) : Result unit * World :=
  match parseDocumentName documentName with
  | None => (Rejected DecodeError, w)
  | Some p =>
      let permissionsDocName := encodePermissionsDocumentName (tsid p) in
      let permissionsServerMap := getMap (permissionsServerDoc w) (tsid p) in
      match permissionsServerMap !! token with
      | None => (Resolved (), w)
      | Some permission =>
          if decide (role permission ≠ "owner") then (Resolved (), w)
          else if decide (type p = "permissions") then
            match getYDoc permissionsDocName w with
            | None => (Resolved (), w)
            | Some permissionsClientDoc =>
                let w1 :=
                  foldl (λ w kv, clientMap_set permissionsClientDoc kv.1 kv.2 w) w
                        (map_to_list permissionsServerMap) in
                (Resolved (), observe permissionsClientDoc (tsid p) w1)
            end
          else if decide (type p = "thought" ∨ type p = "lexeme") then
            let '(db, w1) := thoughtspaceDb (tsid p) w in
            bindState db documentName (hosted document) w1
          else if decide (type p = "doclog") then
            let '(db, w1) := doclogDb (tsid p) w in
            let '(cursorDb, w2) := replicationCursorDb (tsid p) w1 in
            match bindState db documentName (hosted document) w2 with
            | (Rejected e, w3) => (Rejected e, w3)
            | (Resolved _, w3) =>
                (Resolved (),
                 replicationController
                   (mkController document (tsid p) documentName cursorDb) w3)
            end
          else (Resolved (), console_error ["Unrecognized doc type"; type p] w)
      end
  end.

(** The callback [next] of the controller built by [onLoadDocument]. *)
Definition next (c : Controller) (e : DocLogEntry) (w : World) : Result unit * World :=
  match entryAction e with
  | Delete =>
      let name_ :=
        if decide (entryType e = "thought")
        then encodeThoughtDocumentName (ctlTsid c) (entryId e)
        else encodeLexemeDocumentName (ctlTsid c) (entryId e) in
      let w1 := destroyDoc (hosted (ctlDoc c)) w in
      match ldbThoughtspaces w1 !! ctlTsid c with
      | None =>
          (Resolved (),
           console_error ["LeveldbPersistence instance missing"; ctlDocumentName c] w1)
      | Some db =>
          match clearDocument db name_ w1 with
          | Some w2 => (Resolved (), w2)
          | None => (Rejected (Err "Database is not open"), w1)
          end
      end
  | _ => (Resolved (), w)
  end.

(** [onDisconnect] *)
Definition onDisconnect (documentName : string) (w : World) : Result unit * World :=
  match parseDocumentName documentName with
  | None => (Rejected DecodeError, w)
  | Some p =>
      if decide (type p = "doclog") then
        let w1 :=
          match ldbThoughtspaces w !! tsid p with
          | Some thoughtsDb =>
              let w' := closeStore thoughtsDb w in
              set_ldbThoughtspaces (base.delete (tsid p) (ldbThoughtspaces w')) w'
          | None => w
          end in
        let w2 :=
          match ldbDoclogs w1 !! tsid p with
          | Some doclogDb =>
              let w' := closeStore doclogDb w1 in
              set_ldbDoclogs (base.delete (tsid p) (ldbDoclogs w')) w'
          | None => w1
          end in
        let w3 :=
          match ldbReplicationCursors w2 !! tsid p with
          | Some cursorDb =>
              let w' := closeStore cursorDb w2 in
              set_ldbReplicationCursors
                (base.delete (tsid p) (ldbReplicationCursors w')) w'
          | None => w2
          end in
        (Resolved (), w3)
      else (Resolved (), w)
  end.

(** The handler of SIGINT. *)
Definition onSIGINT (w : World) : World :=
  let w1 := foldl (λ w kv, closeStore kv.2 w) w (map_to_list (ldbThoughtspaces w)) in
  let w2 := foldl (λ w kv, closeStore kv.2 w) w1 (map_to_list (ldbDoclogs w1)) in
  foldl (λ w kv, closeStore kv.2 w) w2 (map_to_list (ldbReplicationCursors w2)).

(** ** The process

    The module body runs to its end with [bindState] suspended at its
    first [await]; what happens afterwards is a sequence of events. *)

(** How far the promise [permissionsServerSynced] has got. *)
Inductive Phase :=
| AwaitGetYDoc
| AwaitStoreUpdate (docPersisted : Update)
| Synced
| Serving
| Unsynced (e : Error).

Record Process := mkProcess {
  phase : Phase;
  world : World;
}.

(** Lines 22-71: the state built by the module body before line 232. *)
Definition initialWorld (clk : nat → Timestamp)
    (dsk : gmap string (gmap string (list Update))) : World :=
  mkWorld clk 0 [] newYDoc ∅ ∅
    {[ ldbPermissions := mkHandle (dbDir +:+ "/permissions") true ]} 1
    dsk ∅ ∅ ∅ [] false.

(** Lines 232-285, up to the end of the module body. *)
Definition main (clk : nat → Timestamp)
    (dsk : gmap string (gmap string (list Update))) : Process :=
  mkProcess AwaitGetYDoc (console_info ["Loading permissions..."] (initialWorld clk dsk)).

(** [server.listen()], in the callback of [permissionsServerSynced.then]. *)
Definition listen (w : World) : World :=
  set_listening true (console_info ["Permissions loaded"] w).

Inductive Event :=
| EvPersistedRead
| EvSynced
| EvSyncFailed
| EvListen
| EvAuthenticate (token documentName : string)
| EvLoadDocument (token : string) (document : nat) (documentName : string)
| EvDisconnect (documentName : string)
| EvHost (documentName : string) (document : nat)
| EvUnhost (documentName : string)
| EvUpdate (document : nat) (u : Update)
| EvMapSet (document : nat) (key : string) (v : Share)
| EvMapDelete (document : nat) (key : string)
| EvNext (c : Controller) (e : DocLogEntry)
| EvSIGINT.

(** The steps of the process. [bindState] of [permissionsServerDoc] resumes
    twice: when the persisted document arrives it issues the write of line
    77, and when the write is done it merges, subscribes and resolves
    [permissionsServerSynced], whose callback listens. The hooks run for
    client sessions, which exist once the server listens; the controller
    and the observers run on the documents of these sessions. SIGINT may
    arrive at any time. *)
Inductive step : Process → Event → Process → Prop :=
| step_read w docPersisted w0 w1 :
    bindState_read ldbPermissions "permissions" w = Some (docPersisted, w0) →
    bindState_write ldbPermissions "permissions" serverDoc w0 = Some w1 →
    step (mkProcess AwaitGetYDoc w) EvPersistedRead
         (mkProcess (AwaitStoreUpdate docPersisted) w1)
| step_read_failed w :
    bindState_read ldbPermissions "permissions" w = None
    ∨ (∃ docPersisted w0,
         bindState_read ldbPermissions "permissions" w = Some (docPersisted, w0)
         ∧ bindState_write ldbPermissions "permissions" serverDoc w0 = None) →
    step (mkProcess AwaitGetYDoc w) EvSyncFailed
         (mkProcess (Unsynced (Err "Database is not open")) w)
| step_synced w docPersisted :
    step (mkProcess (AwaitStoreUpdate docPersisted) w) EvSynced
         (mkProcess Synced
            (bindState_merge ldbPermissions "permissions" serverDoc docPersisted w))
| step_listen w :
    step (mkProcess Synced w) EvListen (mkProcess Serving (listen w))
| step_authenticate ph w token documentName :
    listening w = true →
    step (mkProcess ph w) (EvAuthenticate token documentName)
         (mkProcess ph (onAuthenticate token documentName w).2)
| step_load ph w token document documentName :
    listening w = true →
    step (mkProcess ph w) (EvLoadDocument token document documentName)
         (mkProcess ph (onLoadDocument token document documentName w).2)
| step_disconnect ph w documentName :
    listening w = true →
    step (mkProcess ph w) (EvDisconnect documentName)
         (mkProcess ph (onDisconnect documentName w).2)
| step_host ph w documentName document :
    listening w = true →
    step (mkProcess ph w) (EvHost documentName document)
         (mkProcess ph
            (mkWorld (clock w) (ticks w) (console w) (permissionsServerDoc w) (heap w)
               (<[documentName := document]> (documents w))
               (handles w) (nextHandle w) (disk w) (ldbThoughtspaces w) (ldbDoclogs w)
               (ldbReplicationCursors w) (controllers w) (listening w)))
| step_unhost ph w documentName :
    listening w = true →
    step (mkProcess ph w) (EvUnhost documentName)
         (mkProcess ph
            (mkWorld (clock w) (ticks w) (console w) (permissionsServerDoc w) (heap w)
               (base.delete documentName (documents w))
               (handles w) (nextHandle w) (disk w) (ldbThoughtspaces w) (ldbDoclogs w)
               (ldbReplicationCursors w) (controllers w) (listening w)))
| step_update ph w document u :
    listening w = true →
    step (mkProcess ph w) (EvUpdate document u)
         (mkProcess ph (applyUpdate (hosted document) u w))
| step_map_set ph w document key v :
    listening w = true →
    step (mkProcess ph w) (EvMapSet document key v)
         (mkProcess ph (clientMap_set document key v w))
| step_map_delete ph w document key :
    listening w = true →
    step (mkProcess ph w) (EvMapDelete document key)
         (mkProcess ph (clientMap_delete document key w))
| step_next ph w c e :
    listening w = true →
    c ∈ controllers w →
    step (mkProcess ph w) (EvNext c e) (mkProcess ph (next c e w).2)
| step_sigint ph w :
    step (mkProcess ph w) EvSIGINT (mkProcess ph (onSIGINT w)).

(** A run of the process and its trace. *)
Inductive steps : Process → list Event → Process → Prop :=
| steps_nil p : steps p [] p
| steps_cons p e q tr r : step p e q → steps q tr r → steps p (e :: tr) r.

(** The events that serve a client session. *)
Definition isSessionEvent (e : Event) : bool :=
  match e with
  | EvAuthenticate _ _ | EvLoadDocument _ _ _ | EvDisconnect _
  | EvHost _ _ | EvUnhost _ | EvUpdate _ _ | EvMapSet _ _ _ | EvMapDelete _ _
  | EvNext _ _ => true
  | _ => false
  end.

(** The registries of open stores. *)
Inductive StoreKind := contentStore | doclogStore | cursorStore.

#[global] Instance StoreKind_eq_dec : EqDecision StoreKind.
Proof. solve_decision. Defined.

Definition registry (k : StoreKind) (w : World) : gmap string nat :=
  match k with
  | contentStore => ldbThoughtspaces w
  | doclogStore => ldbDoclogs w
  | cursorStore => ldbReplicationCursors w
  end.

Definition basePath (k : StoreKind) : string :=
  match k with
  | contentStore => thoughtsDbBasePath
  | doclogStore => doclogDbBasePath
  | cursorStore => replicationCursorDbBasePath
  end.

Definition set_registry (k : StoreKind) (r : gmap string nat) (w : World) : World :=
  match k with
  | contentStore => set_ldbThoughtspaces r w
  | doclogStore => set_ldbDoclogs r w
  | cursorStore => set_ldbReplicationCursors r w
  end.

(** The shape shared by the three blocks of [onDisconnect]. *)
Definition closeAndForget (k : StoreKind) (ts : string) (w : World) : World :=
  match registry k w !! ts with
  | Some db =>
      let w' := closeStore db w in
      set_registry k (base.delete ts (registry k w')) w'
  | None => w
  end.

(** The shape shared by the three lookups of [onLoadDocument]. *)
Definition openOrReuse (k : StoreKind) (ts : string) (w : World) : nat * World :=
  match registry k w !! ts with
  | Some db => (db, w)
  | None =>
      let '(db, w1) := openStore (path_join (basePath k) ts) w in
      (db, set_registry k (<[ts := db]> (registry k w1)) w1)
  end.

(** Two states with the same stores, registries and listening flag. *)
Definition sameStores (w w' : World) : Prop :=
  handles w' = handles w
  ∧ nextHandle w' = nextHandle w
  ∧ ldbThoughtspaces w' = ldbThoughtspaces w
  ∧ ldbDoclogs w' = ldbDoclogs w
  ∧ ldbReplicationCursors w' = ldbReplicationCursors w
  ∧ listening w' = listening w.

(** Two states in which [permissionsServerDoc] has the same update
    handlers, and in the second at least the store of the first. *)
Definition sameServerDoc (w w' : World) : Prop :=
  store (permissionsServerDoc w) ⊆ store (permissionsServerDoc w')
  ∧ updateHandlers (permissionsServerDoc w') = updateHandlers (permissionsServerDoc w).

(** What writes to the server maps do to a state: the store of
    [permissionsServerDoc] grows, and the disk gets the updates that its
    handlers store; nothing else changes. *)
Definition serverWrites (w w' : World) : Prop :=
  ∃ dsk s,
    w' = set_disk dsk
           (set_permissionsServerDoc (with_store s (permissionsServerDoc w)) w)
    ∧ store (permissionsServerDoc w) ⊆ s
    ∧ ∀ d n, storedUpdates d n w `prefix_of` storedUpdates d n w'.

(** The directory of [ldbPermissions] (line 65). *)
Definition permissionsDir : string := dbDir +:+ "/permissions".

(** What a disk holds for [permissionsServerDoc]. *)
Definition persistedPermissions (dsk : gmap string (gmap string (list Update)))
  : Update :=
  ⋃ default [] (default ∅ (dsk !! permissionsDir) !! "permissions").

(** What the start of the server has achieved in each phase, for a process
    started on the disk [dsk]: while [bindState] is suspended nothing
    listens and [permissionsServerDoc] is empty; when it has resolved,
    [permissionsServerDoc] holds exactly what the disk had for it and is
    subscribed to its store; while the server serves it holds at least
    that. *)
Definition startInvariant (dsk : gmap string (gmap string (list Update)))
    (p : Process) : Prop :=
  let persisted : Update := persistedPermissions dsk in
  let synced :=
    persisted ⊆ store (permissionsServerDoc (world p))
    ∧ (ldbPermissions, "permissions")
        ∈ updateHandlers (permissionsServerDoc (world p)) in
  match phase p with
  | AwaitGetYDoc =>
      listening (world p) = false
      ∧ disk (world p) = dsk
      ∧ dir <$> handles (world p) !! ldbPermissions = Some permissionsDir
      ∧ store (permissionsServerDoc (world p)) = ∅
  | AwaitStoreUpdate docPersisted =>
      listening (world p) = false ∧ docPersisted = persisted
      ∧ store (permissionsServerDoc (world p)) = ∅
  | Synced =>
      listening (world p) = false ∧ synced
      ∧ store (permissionsServerDoc (world p)) = persisted
  | Serving => synced
  | Unsynced _ => listening (world p) = false
  end.

(** The registries are well formed: the stores are numbered below the
    counter and [ldbPermissions] is one of them; an entry for a tenant holds
    a store over the directory of the tenant, which is not
    [ldbPermissions]; no store is held by two entries; an open store other
    than [ldbPermissions] is held by an entry. *)
Definition registries_wf (w : World) : Prop :=
  (∀ db st, handles w !! db = Some st → db < nextHandle w)
  ∧ is_Some (handles w !! ldbPermissions)
  ∧ (∀ k ts db, registry k w !! ts = Some db →
       db ≠ ldbPermissions
       ∧ ∃ st, handles w !! db = Some st ∧ dir st = path_join (basePath k) ts)
  ∧ (∀ k1 ts1 k2 ts2 db,
       registry k1 w !! ts1 = Some db → registry k2 w !! ts2 = Some db →
       k1 = k2 ∧ ts1 = ts2)
  ∧ (∀ db, is_Some (openDir db w) →
       db = ldbPermissions ∨ ∃ k ts, registry k w !! ts = Some db).

(** Two states that differ in the documents only: the hosted documents
    and [permissionsServerDoc]. *)
Definition onlyDocs (w w' : World) : Prop :=
  sameStores w w'
  ∧ disk w' = disk w
  ∧ controllers w' = controllers w
  ∧ console w' = console w
  ∧ documents w' = documents w
  ∧ ticks w' = ticks w.


(** The update handlers of a document are kept. *)
Definition keepsHandlers (doc : DocRef) (w w' : World) : Prop :=
  ∀ h, h ∈ updateHandlers (getDoc doc w) → h ∈ updateHandlers (getDoc doc w').

(** Two states that differ in the documents and in updates appended to
    the disk. *)
Definition onlyDocsDisk (w w' : World) : Prop :=
  sameStores w w'
  ∧ controllers w' = controllers w
  ∧ console w' = console w
  ∧ documents w' = documents w
  ∧ ticks w' = ticks w
  ∧ ∀ d n, storedUpdates d n w `prefix_of` storedUpdates d n w'.

(** Two states that differ in the stores only. *)
Definition onlyDocsStores (w w' : World) : Prop :=
  disk w' = disk w
  ∧ heap w' = heap w
  ∧ permissionsServerDoc w' = permissionsServerDoc w
  ∧ controllers w' = controllers w
  ∧ documents w' = documents w
  ∧ console w' = console w
  ∧ nextHandle w' = nextHandle w.



(** Nothing that is stored is lost: what the stored updates of a name
    hold together only grows. *)
Definition diskGrows (w w' : World) : Prop :=
  ∀ d n, ⋃ storedUpdates d n w ⊆ ⋃ storedUpdates d n w'.


End Server.

(** ** A codec and a platform to run the definitions on *)

Definition sampleParse (s : string) : option DocumentNameParts :=
  if decide (s = "ts1/permissions") then Some (mkParts "ts1" "permissions" None)
  else if decide (s = "ts1/doclog") then Some (mkParts "ts1" "doclog" None)
  else if decide (s = "ts1/thought/T1") then Some (mkParts "ts1" "thought" (Some "T1"))
  else if decide (s = "ts1/lexeme/L1") then Some (mkParts "ts1" "lexeme" (Some "L1"))
  else if decide (s = "ts1/sketch") then Some (mkParts "ts1" "sketch" None)
  else None.

Definition sampleEncoder : DocumentNameEncoder := {|
  parseDocumentName := sampleParse;
  encodeThoughtDocumentName ts i := ts +:+ "/thought/" +:+ i;
  encodeLexemeDocumentName ts k := ts +:+ "/lexeme/" +:+ k;
  encodePermissionsDocumentName ts := ts +:+ "/permissions";
  encodeDocLogDocumentName ts k := ts +:+ "/doclog/" +:+ k;
|}.

Definition samplePlatform : Platform := {|
  toISOString := λ _, "2023-06-01T00:00:00.000Z";
  path_join a b := a +:+ "/" +:+ b;
  dbDir := "db";
|}.

Definition sampleClock (n : nat) : Timestamp := Z.of_nat n.

Definition sampleDisk : gmap string (gmap string (list Update)) :=
  {[ "db/thoughts/ts1" := {[ "ts1/thought/T1" := [ ({[ struct (1, 0) ]} : Update) ] ]} ]}.

Definition sampleWorld : World :=
  initialWorld (plat := samplePlatform) sampleClock sampleDisk.

(** The tenant ts1 once the token abc123 owns it, once its thought T1 is
    loaded as the document 5, and once its doclog is loaded as the
    document 6. *)
Definition sampleOwned : World :=
  (onAuthenticate (enc := sampleEncoder) (plat := samplePlatform)
     "abc123" "ts1/permissions" sampleWorld).2.

Definition sampleLoaded : World :=
  (onLoadDocument (enc := sampleEncoder) (plat := samplePlatform)
     "abc123" 5 "ts1/thought/T1" sampleOwned).2.

Definition sampleLogged : World :=
  (onLoadDocument (enc := sampleEncoder) (plat := samplePlatform)
     "abc123" 6 "ts1/doclog" sampleLoaded).2.

Definition sampleController : Controller := mkController 6 "ts1" "ts1/doclog" 3.

(** A client permission document, hosted as the document 9, in which the
    share of tokA was renamed. *)
Definition sampleClientWorld : World :=
  setDoc (hosted 9)
    (with_store {[ mapItem rootMap "tokA" [7] (mkShare 1%Z 1%Z "Renamed" "owner") ]}
       newYDoc)
    (serverMap_set "ts1" "tokB" (mkShare 2%Z 2%Z "Guest" "owner")
       (serverMap_set "ts1" "tokA" (mkShare 1%Z 1%Z "Owner" "owner") sampleWorld)).

(** The tenant ts1 owned by abc123, with its client permission document
    hosted as the document 9. *)
Definition sampleHosted : World :=
  mkWorld (clock sampleOwned) (ticks sampleOwned) (console sampleOwned)
    (permissionsServerDoc sampleOwned) (heap sampleOwned)
    (<["ts1/permissions" := 9]> (documents sampleOwned))
    (handles sampleOwned) (nextHandle sampleOwned) (disk sampleOwned)
    (ldbThoughtspaces sampleOwned) (ldbDoclogs sampleOwned)
    (ldbReplicationCursors sampleOwned) (controllers sampleOwned)
    (listening sampleOwned).

(** The first events of a server, up to the authentication of abc123. *)
Definition sampleTrace : list Event :=
  [EvPersistedRead; EvSynced; EvListen; EvAuthenticate "abc123" "ts1/permissions"].

(** A server that has started on [sampleDisk] and listens, and the disk
    that it leaves once abc123 has authenticated on ts1: the disk of a
    restart. *)
Definition sampleServing : World :=
  listen
    (bindState ldbPermissions "permissions" serverDoc
       (world (main (plat := samplePlatform) sampleClock sampleDisk))).2.

Definition sampleRestartDisk : gmap string (gmap string (list Update)) :=
  disk (onAuthenticate (enc := sampleEncoder) (plat := samplePlatform)
          "abc123" "ts1/permissions" sampleServing).2.

(** The doclog of ts1 about to be bound, as the document 6, to the doclog
    store of ts1; the state once it is bound; and the state once the
    delete handler of its controller has received a Delete entry. *)
Definition sampleDoclogOpen : World :=
  (replicationCursorDb (plat := samplePlatform) "ts1"
     (doclogDb (plat := samplePlatform) "ts1" sampleLoaded).2).2.

Definition sampleDoclogBound : World :=
  (bindState 2 "ts1/doclog" (hosted 6) sampleDoclogOpen).2.

Definition sampleDoclogDeleted : World :=
  (next (enc := sampleEncoder) sampleController (mkEntry Delete "T1" "thought")
     sampleDoclogBound).2.

(** ** Properties *)

Section Properties.

Context {enc : DocumentNameEncoder} {plat : Platform}.

(** *** The maps of a document *)

Section Maximum.

Context {A : Type} `{Lexico A} `{!StrictOrder (@lexico A _)}
  `{!TrichotomyT (@lexico A _)} `{∀ x y : A, Decision (lexico x y)}.

Lemma maximum_None (l : list A) : maximum l = None ↔ l = [].
Proof.
  split; [|by intros ->].
  destruct l as [|x l]; [done|]. simpl.
  destruct (maximum l) as [b|]; [|done]. by case_decide.
Qed.

Lemma maximum_Some (l : list A) (b : A) :
  maximum l = Some b → b ∈ l ∧ ∀ y, y ∈ l → ¬ lexico b y.
Proof.
  revert b. induction l as [|x l IH]; intros b Hb; [done|].
  simpl in Hb. destruct (maximum l) as [b'|] eqn:Hmax.
  - destruct (IH b' eq_refl) as [Hin Hle]. case_decide as Hlt; simplify_eq.
    + split; [apply list_elem_of_here|].
      intros y [->|Hy]%elem_of_cons.
      * apply (irreflexivity lexico).
      * intros Hby. apply (Hle y Hy). by trans b.
    + split; [by apply list_elem_of_further|].
      intros y [->|Hy]%elem_of_cons; [done|by apply Hle].
  - simplify_eq. apply maximum_None in Hmax as ->.
    split; [apply list_elem_of_here|].
    intros y [->|Hy]%elem_of_cons; [apply (irreflexivity lexico)|].
    by apply elem_of_nil in Hy.
Qed.

Lemma maximum_greatest (l : list A) (x : A) :
  x ∈ l → (∀ y, y ∈ l → y ≠ x → lexico y x) → maximum l = Some x.
Proof.
  intros Hx Hall. destruct (maximum l) as [b|] eqn:Hmax.
  - destruct (maximum_Some _ _ Hmax) as [Hb Hle].
    destruct (trichotomy lexico b x) as [Hlt|[->|Hlt]];
      [by destruct (Hle x Hx)|done|].
    destruct (Hle x Hx). apply Hall; [done|].
    intros ->. by apply (irreflexivity lexico x).
  - apply maximum_None in Hmax as ->. by apply elem_of_nil in Hx.
Qed.

Lemma maximum_ext (l l' : list A) :
  (∀ x, x ∈ l ↔ x ∈ l') → maximum l = maximum l'.
Proof.
  intros Hext. destruct (maximum l) as [b|] eqn:Hmax.
  - destruct (maximum_Some _ _ Hmax) as [Hb Hle].
    destruct (maximum l') as [b'|] eqn:Hmax'.
    + destruct (maximum_Some _ _ Hmax') as [Hb' Hle'].
      destruct (trichotomy lexico b b') as [Hlt|[->|Hlt]]; [|done|].
      * destruct (Hle b'); [by apply Hext|done].
      * destruct (Hle' b); [by apply Hext|done].
    + apply maximum_None in Hmax' as ->.
      apply Hext in Hb. by apply elem_of_nil in Hb.
  - apply maximum_None in Hmax as ->. symmetry. apply maximum_None.
    destruct l' as [|x l']; [done|].
    assert (x ∈ @nil A) as Hx by apply Hext, list_elem_of_here.
    by apply elem_of_nil in Hx.
Qed.

End Maximum.

Lemma lexico_snoc (l : list nat) (c : nat) : lexico l (l ++ [c]).
Proof.
  induction l as [|x l IH]; [done|].
  simpl. right. by split.
Qed.

Lemma elem_of_mapItems (s : gset Entry) (n k : string) (p : list nat) (v : Share) :
  (p, v) ∈ mapItems s n k ↔ mapItem n k p v ∈ s.
Proof.
  unfold mapItems. rewrite list_elem_of_omap. split.
  - intros (e & He & Hf). apply elem_of_elements in He.
    destruct e as [|n' k' p' v'|]; try done.
    case_decide as Heq; [|done]. destruct Heq as [-> ->]. by simplify_eq.
  - intros He. exists (mapItem n k p v). split; [by apply elem_of_elements|].
    by rewrite decide_True.
Qed.

Lemma elem_of_mapPositions (s : gset Entry) (n k : string) (p : list nat) :
  p ∈ mapPositions s n k
  ↔ (∃ v, mapItem n k p v ∈ s) ∨ mapTombstone n k p ∈ s.
Proof.
  unfold mapPositions. rewrite list_elem_of_omap. split.
  - intros (e & He & Hf). apply elem_of_elements in He.
    destruct e as [|n' k' p' v'|n' k' p']; try done;
      (case_decide as Heq; [|done]); destruct Heq as [-> ->]; simplify_eq.
    + left. by exists v'.
    + by right.
  - intros [[v He]|He].
    + exists (mapItem n k p v). split; [by apply elem_of_elements|].
      by rewrite decide_True.
    + exists (mapTombstone n k p). split; [by apply elem_of_elements|].
      by rewrite decide_True.
Qed.

Lemma elem_of_mapKeys (s : gset Entry) (n k : string) :
  k ∈ mapKeys s n ↔ ∃ p v, mapItem n k p v ∈ s.
Proof.
  unfold mapKeys. rewrite elem_of_list_to_set, list_elem_of_omap. split.
  - intros (e & He & Hf). apply elem_of_elements in He.
    destruct e as [|n' k' p' v'|]; try done.
    case_decide as Heq; [|done]. subst. simplify_eq. by exists p', v'.
  - intros (p & v & He). exists (mapItem n k p v).
    split; [by apply elem_of_elements|]. by rewrite decide_True.
Qed.

(** A key of a map has the value that [lookupMap] reads off the store. *)
Lemma getMap_lookup (d : YDoc) (n k : string) :
  getMap d n !! k = lookupMap (store d) n k.
Proof.
  unfold getMap. rewrite map_lookup_imap, lookup_gset_to_gmap.
  destruct (decide (k ∈ mapKeys (store d) n)) as [Hin|Hout].
  - by rewrite option_guard_True.
  - rewrite option_guard_False by done. simpl.
    unfold lookupMap. destruct (maximum (mapItems (store d) n k)) as [[p v]|] eqn:Hmax;
      [|done].
    destruct Hout. apply elem_of_mapKeys. exists p, v.
    apply elem_of_mapItems. by apply maximum_Some in Hmax as [? _].
Qed.

Lemma getMap_store (d d' : YDoc) (n : string) :
  store d' = store d → getMap d' n = getMap d n.
Proof. unfold getMap. by intros ->. Qed.

Lemma getMap_empty_store (d : YDoc) (n : string) : store d = ∅ → getMap d n = ∅.
Proof.
  intros Hs. apply map_eq. intros k. rewrite getMap_lookup, Hs, lookup_empty.
  unfold lookupMap, mapItems. by rewrite elements_empty.
Qed.

(** The place of a new item is to the right of everything the store has
    for the key. *)
Lemma mapSet_position (s : gset Entry) (n k : string) (c : nat) (p : list nat) :
  p ∈ mapPositions s n k →
  lexico p (default [] (maximum (mapPositions s n k)) ++ [c]).
Proof.
  intros Hp. destruct (maximum (mapPositions s n k)) as [m|] eqn:Hmax.
  - simpl. destruct (maximum_Some _ _ Hmax) as [_ Hle].
    destruct (trichotomy lexico p m) as [Hlt|[->|Hlt]].
    + trans m; [done|apply lexico_snoc].
    + apply lexico_snoc.
    + by destruct (Hle p Hp).
  - apply maximum_None in Hmax. rewrite Hmax in Hp. by apply elem_of_nil in Hp.
Qed.

Lemma mapSet_update_fresh (d : YDoc) (n k : string) (v : Share) :
  mapSet_update d n k v ## store d.
Proof.
  unfold mapSet_update. apply disjoint_singleton_l. intros Hin.
  assert (default [] (maximum (mapPositions (store d) n k)) ++ [clientID d]
          ∈ mapPositions (store d) n k) as Hpos.
  { apply elem_of_mapPositions. left. by exists v. }
  apply (mapSet_position _ _ _ (clientID d)) in Hpos.
  by apply (irreflexivity lexico) in Hpos.
Qed.

Lemma lookupMap_set_eq (d : YDoc) (n k : string) (v : Share) :
  lookupMap (store d ∪ mapSet_update d n k v) n k = Some v.
Proof.
  unfold lookupMap, mapSet_update.
  set (p := default [] (maximum (mapPositions (store d) n k)) ++ [clientID d]).
  rewrite (maximum_greatest _ (p, v)).
  - cbn [fst snd]. rewrite decide_False; [done|].
    intros [Hin|Hin%elem_of_singleton]%elem_of_union; [|done].
    assert (p ∈ mapPositions (store d) n k) as Hpos.
    { apply elem_of_mapPositions. by right. }
    apply (mapSet_position _ _ _ (clientID d)) in Hpos.
    by apply (irreflexivity lexico) in Hpos.
  - apply elem_of_mapItems, elem_of_union_r. by apply elem_of_singleton.
  - intros [p' v'] Hin Hne. apply elem_of_mapItems, elem_of_union in Hin.
    destruct Hin as [Hin|Hin%elem_of_singleton]; [|by simplify_eq].
    left. cbn [fst]. apply mapSet_position, elem_of_mapPositions. left. by exists v'.
Qed.

Lemma lookupMap_set_ne (d : YDoc) (n k n' k' : string) (v : Share) :
  (n', k') ≠ (n, k) →
  lookupMap (store d ∪ mapSet_update d n k v) n' k' = lookupMap (store d) n' k'.
Proof.
  intros Hne. unfold lookupMap, mapSet_update.
  rewrite (maximum_ext (mapItems (store d ∪ _) n' k') (mapItems (store d) n' k')).
  - destruct (maximum (mapItems (store d) n' k')) as [c|]; [|done].
    apply decide_ext. rewrite elem_of_union, elem_of_singleton.
    split; [|by left]. by intros [?|?].
  - intros [p' v']. rewrite !elem_of_mapItems, elem_of_union, elem_of_singleton.
    split; [|by left]. intros [?|?]; [done|]. simplify_eq.
Qed.

Lemma lookupMap_delete_eq (d : YDoc) (n k : string) :
  lookupMap (store d ∪ mapDelete_update d n k) n k = None.
Proof.
  assert (mapItems_same : ∀ u : Update,
    (∀ p v, mapItem n k p v ∉ u) →
    maximum (mapItems (store d ∪ u) n k) = maximum (mapItems (store d) n k)).
  { intros u Hu. apply maximum_ext. intros [p v].
    rewrite !elem_of_mapItems, elem_of_union. split; [|by left].
    intros [?|?]; [done|]. by destruct (Hu p v). }
  unfold lookupMap, mapDelete_update.
  destruct (maximum (mapItems (store d) n k)) as [c|] eqn:Hmax.
  - case_decide as Hdel.
    + rewrite union_empty_r_L, Hmax. rewrite decide_True; [done|]. by apply elem_of_union_l.
    + rewrite mapItems_same by (by intros p v Hin%elem_of_singleton).
      rewrite decide_True; [done|]. apply elem_of_union_r. by apply elem_of_singleton.
  - by rewrite union_empty_r_L, Hmax.
Qed.

Lemma lookupMap_delete_ne (d : YDoc) (n k n' k' : string) :
  (n', k') ≠ (n, k) →
  lookupMap (store d ∪ mapDelete_update d n k) n' k' = lookupMap (store d) n' k'.
Proof.
  intros Hne. unfold lookupMap.
  assert (∀ e, e ∈ mapDelete_update d n k → ∃ p, e = mapTombstone n k p) as Hu.
  { intros e. unfold mapDelete_update.
    destruct (maximum (mapItems (store d) n k)) as [c|]; [|by intros ?%elem_of_empty].
    case_decide; [by intros ?%elem_of_empty|].
    intros ->%elem_of_singleton. by eexists. }
  rewrite (maximum_ext (mapItems (store d ∪ _) n' k') (mapItems (store d) n' k')).
  - destruct (maximum (mapItems (store d) n' k')) as [c|]; [|done].
    apply decide_ext. rewrite elem_of_union. split; [|by left].
    intros [?|Hin]; [done|]. apply Hu in Hin as [p Hp]. simplify_eq.
  - intros [p' v']. rewrite !elem_of_mapItems, elem_of_union.
    split; [|by left]. intros [?|Hin]; [done|]. by apply Hu in Hin as [p Hp].
Qed.

(** What [set] and [delete] do to the maps of a document. *)
Lemma getMap_set_eq (d : YDoc) (n k : string) (v : Share) :
  getMap (with_store (store d ∪ mapSet_update d n k v) d) n = <[k := v]> (getMap d n).
Proof.
  apply map_eq. intros k'. rewrite getMap_lookup. cbn [store with_store].
  destruct (decide (k' = k)) as [->|Hne].
  - by rewrite lookup_insert_eq, lookupMap_set_eq.
  - rewrite lookup_insert_ne, getMap_lookup by done.
    apply lookupMap_set_ne. congruence.
Qed.

Lemma getMap_set_ne (d : YDoc) (n k n' : string) (v : Share) :
  n' ≠ n →
  getMap (with_store (store d ∪ mapSet_update d n k v) d) n' = getMap d n'.
Proof.
  intros Hne. apply map_eq. intros k'. rewrite !getMap_lookup. cbn [store with_store].
  apply lookupMap_set_ne. congruence.
Qed.

Lemma getMap_delete_eq (d : YDoc) (n k : string) :
  getMap (with_store (store d ∪ mapDelete_update d n k) d) n
  = base.delete k (getMap d n).
Proof.
  apply map_eq. intros k'. rewrite getMap_lookup. cbn [store with_store].
  destruct (decide (k' = k)) as [->|Hne].
  - by rewrite lookup_delete_eq, lookupMap_delete_eq.
  - rewrite lookup_delete_ne, getMap_lookup by done.
    apply lookupMap_delete_ne. congruence.
Qed.

Lemma getMap_delete_ne (d : YDoc) (n k n' : string) :
  n' ≠ n →
  getMap (with_store (store d ∪ mapDelete_update d n k) d) n' = getMap d n'.
Proof.
  intros Hne. apply map_eq. intros k'. rewrite !getMap_lookup. cbn [store with_store].
  apply lookupMap_delete_ne. congruence.
Qed.

(** A deletion adds nothing exactly when the key has no value. *)
Lemma mapDelete_update_empty (d : YDoc) (n k : string) :
  mapDelete_update d n k = ∅ ↔ getMap d n !! k = None.
Proof.
  rewrite getMap_lookup. unfold mapDelete_update, lookupMap.
  destruct (maximum (mapItems (store d) n k)) as [c|]; [|done].
  case_decide; [done|]. split; [|done].
  intros Hemp. assert (mapTombstone n k c.1 ∈ (∅ : Update)) as Hin.
  { rewrite <- Hemp. by apply elem_of_singleton. }
  by apply elem_of_empty in Hin.
Qed.

(** *** The shape of the state after a write *)

Lemma getDoc_setDoc doc d w : getDoc doc (setDoc doc d w) = d.
Proof. destruct doc; simpl; [done|]. by rewrite lookup_insert_eq. Qed.

Lemma getDoc_set_disk doc dsk w : getDoc doc (set_disk dsk w) = getDoc doc w.
Proof. by destruct doc. Qed.

Lemma setDoc_set_disk doc d dsk w :
  setDoc doc d (set_disk dsk w) = set_disk dsk (setDoc doc d w).
Proof. by destruct doc. Qed.

Lemma storeUpdate_disk db docName u w w' :
  storeUpdate db docName u w = Some w' → ∃ dsk, w' = set_disk dsk w.
Proof.
  unfold storeUpdate. destruct (openDir db w); [|done]. intros [= <-]. eauto.
Qed.

Lemma storeUpdate_stored db d docName u w :
  openDir db w = Some d →
  ∃ w', storeUpdate db docName u w = Some w'
        ∧ storedUpdates d docName w' = storedUpdates d docName w ++ [u]
        ∧ ∀ d' n, (d', n) ≠ (d, docName) →
            storedUpdates d' n w' = storedUpdates d' n w.
Proof.
  intros Hd. unfold storeUpdate. rewrite Hd. eexists. split; [done|].
  unfold storedUpdates. simpl. split.
  - rewrite lookup_insert_eq. simpl. by rewrite lookup_insert_eq.
  - intros d' n Hne. destruct (decide (d' = d)) as [->|Hd'].
    + rewrite lookup_insert_eq. simpl. rewrite lookup_insert_ne; [done|congruence].
    + by rewrite lookup_insert_ne.
Qed.

Lemma storeUpdate_prefix db docName u w w' d n :
  storeUpdate db docName u w = Some w' →
  storedUpdates d n w `prefix_of` storedUpdates d n w'.
Proof.
  intros Hs. unfold storeUpdate in Hs.
  destruct (openDir db w) as [d0|] eqn:Hd; [|done].
  destruct (storeUpdate_stored db d0 docName u w Hd) as (w2 & Hs2 & Hat & Hoth).
  unfold storeUpdate in Hs2. rewrite Hd in Hs2. rewrite Hs2 in Hs.
  injection Hs as <-.
  destruct (decide ((d, n) = (d0, docName))) as [[= -> ->]|Hne].
  - rewrite Hat. by apply prefix_app_r.
  - by rewrite Hoth.
Qed.

Lemma emitUpdate_disk hs u w : ∃ dsk, emitUpdate hs u w = set_disk dsk w.
Proof.
  unfold emitUpdate. revert w.
  induction hs as [|h hs IH]; intros w; simpl.
  - exists (disk w). by destruct w.
  - destruct (storeUpdate h.1 h.2 u w) as [w1|] eqn:Hs; simpl; [|apply IH].
    apply storeUpdate_disk in Hs as [dsk ->].
    destruct (IH (set_disk dsk w)) as [dsk' ->]. by exists dsk'.
Qed.

Lemma emitUpdate_prefix hs u w d n :
  storedUpdates d n w `prefix_of` storedUpdates d n (emitUpdate hs u w).
Proof.
  unfold emitUpdate. revert w.
  induction hs as [|h hs IH]; intros w; simpl; [done|].
  destruct (storeUpdate h.1 h.2 u w) as [w1|] eqn:Hs; simpl; [|apply IH].
  etrans; [by eapply storeUpdate_prefix|apply IH].
Qed.

Lemma emitUpdate_snoc hs h u w :
  emitUpdate (hs ++ [h]) u w
  = default (emitUpdate hs u w) (storeUpdate h.1 h.2 u (emitUpdate hs u w)).
Proof. unfold emitUpdate. by rewrite foldl_snoc. Qed.

Lemma openDir_handles db w w' : handles w' = handles w → openDir db w' = openDir db w.
Proof. unfold openDir. by intros ->. Qed.

Lemma handles_setDoc doc d w : handles (setDoc doc d w) = handles w.
Proof. by destruct doc. Qed.

Lemma storedUpdates_setDoc doc d0 w d n :
  storedUpdates d n (setDoc doc d0 w) = storedUpdates d n w.
Proof. by destruct doc. Qed.

Lemma emitUpdate_handles hs u w : handles (emitUpdate hs u w) = handles w.
Proof. by destruct (emitUpdate_disk hs u w) as [dsk ->]. Qed.

(** A state in which only the documents and the disk were replaced. *)
Lemma emitUpdate_frame hs u w :
  ticks (emitUpdate hs u w) = ticks w
  ∧ console (emitUpdate hs u w) = console w
  ∧ permissionsServerDoc (emitUpdate hs u w) = permissionsServerDoc w
  ∧ heap (emitUpdate hs u w) = heap w
  ∧ documents (emitUpdate hs u w) = documents w
  ∧ controllers (emitUpdate hs u w) = controllers w
  ∧ clock (emitUpdate hs u w) = clock w.
Proof. by destruct (emitUpdate_disk hs u w) as [dsk ->]. Qed.

Lemma with_store_same (d : YDoc) : with_store (store d) d = d.
Proof. by destruct d. Qed.

Lemma set_permissionsServerDoc_same (w : World) :
  set_permissionsServerDoc (permissionsServerDoc w) w = w.
Proof. by destruct w. Qed.

Lemma set_disk_same (w : World) : set_disk (disk w) w = w.
Proof. by destruct w. Qed.

(** The two writes to a server map add the entries of their transaction
    to [permissionsServerDoc] and change nothing else but the disk. *)
Lemma serverMap_set_shape ts key v w :
  ∃ dsk, serverMap_set ts key v w
         = set_disk dsk
             (set_permissionsServerDoc
                (with_store (store (permissionsServerDoc w)
                             ∪ mapSet_update (permissionsServerDoc w) ts key v)
                   (permissionsServerDoc w)) w).
Proof. unfold serverMap_set. apply emitUpdate_disk. Qed.

Lemma serverMap_delete_shape ts key w :
  ∃ dsk, serverMap_delete ts key w
         = set_disk dsk
             (set_permissionsServerDoc
                (with_store (store (permissionsServerDoc w)
                             ∪ mapDelete_update (permissionsServerDoc w) ts key)
                   (permissionsServerDoc w)) w).
Proof.
  unfold serverMap_delete. case_decide as Hu; [|apply emitUpdate_disk].
  exists (disk w).
  by rewrite Hu, union_empty_r_L, with_store_same, set_permissionsServerDoc_same,
    set_disk_same.
Qed.

(** *** Fields that an operation leaves alone *)

Lemma getMap_empty_size (d : YDoc) (n : string) :
  size (getMap d n) = 0 ↔ getMap d n = ∅.
Proof. apply map_size_empty_iff. Qed.

Lemma getMap_serverMap_set_eq ts key v w :
  getMap (permissionsServerDoc (serverMap_set ts key v w)) ts
  = <[key := v]> (getMap (permissionsServerDoc w) ts).
Proof.
  destruct (serverMap_set_shape ts key v w) as [dsk ->]. apply getMap_set_eq.
Qed.

Lemma getMap_serverMap_set_ne ts ts' key v w :
  ts ≠ ts' →
  getMap (permissionsServerDoc (serverMap_set ts key v w)) ts'
  = getMap (permissionsServerDoc w) ts'.
Proof.
  intros. destruct (serverMap_set_shape ts key v w) as [dsk ->].
  by apply getMap_set_ne.
Qed.

Lemma getMap_serverMap_delete_eq ts key w :
  getMap (permissionsServerDoc (serverMap_delete ts key w)) ts
  = base.delete key (getMap (permissionsServerDoc w) ts).
Proof.
  destruct (serverMap_delete_shape ts key w) as [dsk ->]. apply getMap_delete_eq.
Qed.

Lemma getMap_serverMap_delete_ne ts ts' key w :
  ts ≠ ts' →
  getMap (permissionsServerDoc (serverMap_delete ts key w)) ts'
  = getMap (permissionsServerDoc w) ts'.
Proof.
  intros. destruct (serverMap_delete_shape ts key w) as [dsk ->].
  by apply getMap_delete_ne.
Qed.

Lemma heap_serverMap_set ts key v w : heap (serverMap_set ts key v w) = heap w.
Proof. by destruct (serverMap_set_shape ts key v w) as [dsk ->]. Qed.

Lemma heap_serverMap_delete ts key w : heap (serverMap_delete ts key w) = heap w.
Proof. by destruct (serverMap_delete_shape ts key w) as [dsk ->]. Qed.

(** *** The authentication gate *)

(** C1. [onAuthenticate] on a document name that decodes to the tenant
    [tsid p]: on an empty permission map it records the token as owner,
    named 'Owner', with the two clock readings taken for [accessed] and
    [created], touches no other tenant's map, and resolves with the token;
    on a non-empty map it resolves with the token if the share stored for
    the token has the role owner, and otherwise rejects with 'Not
    authorized'; in both non-empty cases the state is left as it was. *)
Theorem onAuthenticate_gate (token documentName : string) (p : DocumentNameParts)
    (w : World) :
  parseDocumentName documentName = Some p →
  let m := getMap (permissionsServerDoc w) (tsid p) in
  let r := onAuthenticate token documentName w in
  (m = ∅ →
     r.1 = Resolved token
     ∧ getMap (permissionsServerDoc r.2) (tsid p)
       = {[ token := mkShare (clock w (S (ticks w))) (clock w (S (S (ticks w))))
                       "Owner" "owner" ]}
     ∧ ∀ ts, ts ≠ tsid p →
         getMap (permissionsServerDoc r.2) ts = getMap (permissionsServerDoc w) ts)
  ∧ (m ≠ ∅ → role <$> m !! token = Some "owner" → r = (Resolved token, w))
  ∧ (m ≠ ∅ → role <$> m !! token ≠ Some "owner" →
       r = (Rejected (Err "Not authorized"), w)).
Proof.
  intros Hp m r. subst m r. unfold onAuthenticate. rewrite Hp.
  destruct (decide (size (getMap (permissionsServerDoc w) (tsid p)) = 0)) as [Hs|Hs].
  - apply getMap_empty_size in Hs.
    unfold log, timestamp, readClock. cbv beta iota zeta.
    rewrite getMap_serverMap_set_eq, lookup_insert_eq.
    rewrite decide_False by (intros Hne; by apply Hne).
    cbn [fst snd].
    split; [|done]. intros _. split; [done|].
    split.
    + rewrite getMap_serverMap_set_eq. unfold console_info. simpl.
      by rewrite Hs, insert_empty.
    + intros ts Hts. by rewrite getMap_serverMap_set_ne.
  - rewrite getMap_empty_size in Hs.
    split; [done|]. split; intros _ Hrole.
    + rewrite decide_False; [done|]. intros Hne. by apply Hne.
    + by rewrite decide_True.
Qed.

(** C10. [onLoadDocument] for a token whose share in the tenant's map is
    missing, or is not an owner's: the call resolves at once and the
    whole state of the server (documents, observers, handlers, permission
    maps, registries, stores, controllers) is the one it was called in. *)
Theorem onLoadDocument_not_owner (token : string) (document : nat)
    (documentName : string) (p : DocumentNameParts) (w : World) :
  parseDocumentName documentName = Some p →
  role <$> getMap (permissionsServerDoc w) (tsid p) !! token ≠ Some "owner" →
  onLoadDocument token document documentName w = (Resolved (), w).
Proof.
  intros Hp Hrole. unfold onLoadDocument. rewrite Hp.
  destruct (getMap (permissionsServerDoc w) (tsid p) !! token) as [permission|];
    [|done].
  simpl in Hrole. rewrite decide_True; [done|]. congruence.
Qed.

(** *** Permission reconciliation *)

Lemma observeChange_heap ts doc w kc :
  heap (observeChange ts doc w kc) = heap w.
Proof.
  unfold observeChange.
  destruct kc.2; try apply heap_serverMap_delete;
    (destruct (getMap _ rootMap !! kc.1); [|done]);
    (case_decide; [|done]); apply heap_serverMap_set.
Qed.

Lemma observeChange_other ts doc w kc k :
  k ≠ kc.1 →
  getMap (permissionsServerDoc (observeChange ts doc w kc)) ts !! k
  = getMap (permissionsServerDoc w) ts !! k.
Proof.
  intros Hk. unfold observeChange.
  assert (getMap (permissionsServerDoc (serverMap_delete ts kc.1 w)) ts !! k
          = getMap (permissionsServerDoc w) ts !! k) as Hdel.
  { rewrite getMap_serverMap_delete_eq. by rewrite lookup_delete_ne. }
  assert (∀ c, getMap (permissionsServerDoc (serverMap_set ts kc.1 c w)) ts !! k
          = getMap (permissionsServerDoc w) ts !! k) as Hset.
  { intros c. rewrite getMap_serverMap_set_eq. by rewrite lookup_insert_ne. }
  destruct kc.2; try done;
    destruct (getMap _ rootMap !! kc.1); try done; by case_decide.
Qed.

Lemma observeCallback_heap ts doc keys w :
  heap (observeCallback ts doc keys w) = heap w.
Proof.
  unfold observeCallback. revert w.
  induction keys as [|kc keys IH]; intros w; [done|].
  simpl. by rewrite IH, observeChange_heap.
Qed.

Lemma observeCallback_other ts doc keys w k :
  k ∉ keys.*1 →
  getMap (permissionsServerDoc (observeCallback ts doc keys w)) ts !! k
  = getMap (permissionsServerDoc w) ts !! k.
Proof.
  unfold observeCallback. revert w.
  induction keys as [|kc keys IH]; intros w Hk; [done|].
  simpl in *. apply not_elem_of_cons in Hk as [Hk1 Hk2].
  by rewrite IH, observeChange_other.
Qed.

(** What a change does to its key depends on the two shares of that key
    only. *)
Lemma observeChange_at_congr ts doc w w2 kc :
  heap w = heap w2 →
  getMap (permissionsServerDoc w) ts !! kc.1
  = getMap (permissionsServerDoc w2) ts !! kc.1 →
  getMap (permissionsServerDoc (observeChange ts doc w kc)) ts !! kc.1
  = getMap (permissionsServerDoc (observeChange ts doc w2 kc)) ts !! kc.1.
Proof.
  intros Hheap Hsrv. unfold observeChange.
  replace (getDoc (hosted doc) w) with (getDoc (hosted doc) w2)
    by (unfold getDoc; by rewrite Hheap).
  rewrite !Hsrv.
  destruct kc.2; try (by rewrite !getMap_serverMap_delete_eq, !lookup_delete_eq);
    (destruct (getMap (getDoc (hosted doc) w2) rootMap !! kc.1); [|done]);
    (case_decide; [|done]);
    by rewrite !getMap_serverMap_set_eq, !lookup_insert_eq.
Qed.

Lemma observeCallback_at ts doc keys w kc :
  NoDup keys.*1 →
  kc ∈ keys →
  getMap (permissionsServerDoc (observeCallback ts doc keys w)) ts !! kc.1
  = getMap (permissionsServerDoc (observeChange ts doc w kc)) ts !! kc.1.
Proof.
  unfold observeCallback. revert w.
  induction keys as [|kc' keys IH]; intros w Hnd Hin; [by apply elem_of_nil in Hin|].
  simpl in *. apply NoDup_cons in Hnd as [Hfresh Hnd].
  apply elem_of_cons in Hin as [->|Hin].
  - by apply observeCallback_other.
  - rewrite IH by done.
    assert (kc.1 ≠ kc'.1) as Hne.
    { intros Heq. apply Hfresh. rewrite <- Heq. by apply list_elem_of_fmap_2. }
    apply observeChange_at_congr.
    + apply observeChange_heap.
    + by apply observeChange_other.
Qed.

(** C4. The observer of the client permission map, on an event whose
    keys are those of a JavaScript Map (each key once): a removed key is
    removed from the server map; a key set with no share in the client map
    keeps its server entry; a key set whose client share has another name
    or role than the server share, or that has no server share, gets the
    client share; a key set whose client share has the name and the role
    of the server share keeps the server share, timestamps included; the
    keys that the event does not list, and the client document, are left
    as they were. *)
Theorem observeCallback_reconciles (ts : string) (permissionsClientDoc : nat)
    (keys : list (string * ChangeAction)) (w : World) :
  NoDup keys.*1 →
  let clientMap := getMap (getDoc (hosted permissionsClientDoc) w) rootMap in
  let serverMap := getMap (permissionsServerDoc w) ts in
  let w' := observeCallback ts permissionsClientDoc keys w in
  let serverMap' := getMap (permissionsServerDoc w') ts in
  (∀ key, (key, delete_) ∈ keys → serverMap' !! key = None)
  ∧ (∀ key change, (key, change) ∈ keys → change ≠ delete_ →
       clientMap !! key = None → serverMap' !! key = serverMap !! key)
  ∧ (∀ key change c, (key, change) ∈ keys → change ≠ delete_ →
       clientMap !! key = Some c →
       (serverMap !! key = None
        ∨ ∃ s, serverMap !! key = Some s ∧ (name c ≠ name s ∨ role c ≠ role s)) →
       serverMap' !! key = Some c)
  ∧ (∀ key change c s, (key, change) ∈ keys → change ≠ delete_ →
       clientMap !! key = Some c → serverMap !! key = Some s →
       name c = name s → role c = role s →
       serverMap' !! key = Some s)
  ∧ (∀ key, key ∉ keys.*1 → serverMap' !! key = serverMap !! key)
  ∧ heap w' = heap w.
Proof.
  intros Hnd clientMap serverMap w' serverMap'.
  subst clientMap serverMap w' serverMap'.
  repeat split.
  - intros key Hin.
    rewrite (observeCallback_at ts _ keys w (key, delete_)) by done.
    unfold observeChange. cbn [fst snd].
    by rewrite getMap_serverMap_delete_eq, lookup_delete_eq.
  - intros key change Hin Hch Hc.
    rewrite (observeCallback_at ts _ keys w (key, change)) by done.
    unfold observeChange. cbn [fst snd]. rewrite Hc. by destruct change.
  - intros key change c Hin Hch Hc Hs.
    rewrite (observeCallback_at ts _ keys w (key, change)) by done.
    unfold observeChange. cbn [fst snd]. rewrite Hc.
    assert (Some (name c) ≠ name <$> getMap (permissionsServerDoc w) ts !! key
            ∨ Some (role c) ≠ role <$> getMap (permissionsServerDoc w) ts !! key)
      as Hdiff.
    { destruct Hs as [->|(s & -> & [Hn|Hr])]; simpl;
        [by left | left; congruence | right; congruence]. }
    rewrite decide_True by done.
    destruct change; try done;
      by rewrite getMap_serverMap_set_eq, lookup_insert_eq.
  - intros key change c s Hin Hch Hc Hs Hn Hr.
    rewrite (observeCallback_at ts _ keys w (key, change)) by done.
    unfold observeChange. cbn [fst snd]. rewrite Hc, Hs. cbn [fmap option_fmap option_map].
    rewrite decide_False by (rewrite Hn, Hr; intros [?|?]; congruence).
    by destruct change.
  - intros key Hk. by apply observeCallback_other.
  - apply observeCallback_heap.
Qed.

(** *** The delete handler of the replication controller *)

Lemma storedUpdates_clearDocument db d docName w w' :
  openDir db w = Some d →
  clearDocument db docName w = Some w' →
  storedUpdates d docName w' = []
  ∧ (∀ d' n, (d', n) ≠ (d, docName) → storedUpdates d' n w' = storedUpdates d' n w)
  ∧ handles w' = handles w.
Proof.
  intros Hd Hclear. unfold clearDocument in Hclear. rewrite Hd in Hclear.
  injection Hclear as <-. unfold storedUpdates. simpl. split; [|split; [|done]].
  - by rewrite lookup_insert_eq; simpl; rewrite lookup_delete_eq.
  - intros d' n Hne. destruct (decide (d' = d)) as [->|Hd'].
    + rewrite lookup_insert_eq. simpl. rewrite lookup_delete_ne; [done|congruence].
    + by rewrite lookup_insert_ne.
Qed.

(** C2. The handler [next] on a Delete entry: the name to clear is the
    thought name of the entry for the type thought and the lexeme name
    for the type lexeme. When the tenant has a content store and the
    store is open, the handler resolves, the cleared name has no stored
    update left, so that reading it gives the empty document and leaves
    the store as it is, and every other name of every directory keeps its updates. When the tenant has
    no content store, the handler resolves as well, the disk is the one
    it found, and the console has one more line, an error that names the
    missing instance and the doclog document. *)
Theorem next_delete_clears (c : Controller) (e : DocLogEntry) (w : World) :
  entryAction e = Delete →
  let name_ :=
    if decide (entryType e = "thought")
    then encodeThoughtDocumentName (ctlTsid c) (entryId e)
    else encodeLexemeDocumentName (ctlTsid c) (entryId e) in
  (entryType e = "thought" →
     name_ = encodeThoughtDocumentName (ctlTsid c) (entryId e))
  ∧ (entryType e = "lexeme" →
     name_ = encodeLexemeDocumentName (ctlTsid c) (entryId e))
  ∧ (∀ db d, ldbThoughtspaces w !! ctlTsid c = Some db → openDir db w = Some d →
       (next c e w).1 = Resolved ()
       ∧ storedUpdates d name_ (next c e w).2 = []
       ∧ getYDoc_db db name_ (next c e w).2 = Some (∅, (next c e w).2)
       ∧ (∀ d' n, (d', n) ≠ (d, name_) →
            storedUpdates d' n (next c e w).2 = storedUpdates d' n w)
       ∧ console (next c e w).2 = console w)
  ∧ (ldbThoughtspaces w !! ctlTsid c = None →
       (next c e w).1 = Resolved ()
       ∧ disk (next c e w).2 = disk w
       ∧ console (next c e w).2
         = console w ++ [mkLine error ["LeveldbPersistence instance missing";
                                        ctlDocumentName c]]).
Proof.
  intros Hdel name_. subst name_. unfold next. rewrite Hdel.
  split; [|split; [|split]].
  - intros ->. by rewrite decide_True.
  - intros ->. by rewrite decide_False.
  - intros db d Hdb Hd.
    replace (ldbThoughtspaces (destroyDoc (hosted (ctlDoc c)) w))
      with (ldbThoughtspaces w) by done.
    rewrite Hdb.
    assert (openDir db (destroyDoc (hosted (ctlDoc c)) w) = Some d) as Hd' by done.
    destruct (clearDocument db _ (destroyDoc (hosted (ctlDoc c)) w)) as [w2|] eqn:Hc.
    + destruct (storedUpdates_clearDocument _ _ _ _ _ Hd' Hc) as (Hnil & Hoth & Hh).
      cbn [fst snd]. split; [done|]. split; [done|]. split; [|split].
      * assert (handles w2 = handles w) as Hh' by (by rewrite Hh).
        unfold getYDoc_db, openDir. rewrite Hh'.
        unfold openDir in Hd. rewrite Hd. rewrite Hnil.
        by rewrite decide_False by (unfold PREFERRED_TRIM_SIZE; simpl; lia).
      * intros d' n Hne. by rewrite Hoth.
      * unfold clearDocument in Hc. rewrite Hd' in Hc. by injection Hc as <-.
    + unfold clearDocument in Hc. by rewrite Hd' in Hc.
  - intros Hnone.
    replace (ldbThoughtspaces (destroyDoc (hosted (ctlDoc c)) w))
      with (ldbThoughtspaces w) by done.
    by rewrite Hnone.
Qed.

(** C9. The handler [next] on a Delete entry destroys the document that
    its controller is bound to, with or without a content store for the
    tenant, and whatever the store answers: afterwards the document is
    marked destroyed and has no update handler left. The controller built
    by [onLoadDocument] for a doclog document is bound to the very
    document that was loaded. *)
Theorem next_delete_destroys_doclog (c : Controller) (e : DocLogEntry) (w : World) :
  entryAction e = Delete →
  isDestroyed (getDoc (hosted (ctlDoc c)) (next c e w).2) = true
  ∧ updateHandlers (getDoc (hosted (ctlDoc c)) (next c e w).2) = []
  ∧ (ldbThoughtspaces w !! ctlTsid c = None →
       heap (next c e w).2 = heap (destroyDoc (hosted (ctlDoc c)) w))
  ∧ (∀ token document documentName p w0,
       parseDocumentName documentName = Some p →
       type p = "doclog" →
       (onLoadDocument token document documentName w0).1 = Resolved () →
       controllers (onLoadDocument token document documentName w0).2
         ≠ controllers w0 →
       ∃ cs c', controllers (onLoadDocument token document documentName w0).2
                = cs ++ [c']
                ∧ ctlDoc c' = document ∧ ctlTsid c' = tsid p).
Proof.
  intros Hdel. unfold next. rewrite Hdel.
  assert (isDestroyed (getDoc (hosted (ctlDoc c)) (destroyDoc (hosted (ctlDoc c)) w))
          = true
          ∧ updateHandlers
              (getDoc (hosted (ctlDoc c)) (destroyDoc (hosted (ctlDoc c)) w)) = [])
    as Hdestroyed.
  { unfold destroyDoc, getDoc. simpl. by rewrite lookup_insert_eq. }
  replace (ldbThoughtspaces (destroyDoc (hosted (ctlDoc c)) w))
    with (ldbThoughtspaces w) by done.
  split; [|split; [|split]].
  - destruct (ldbThoughtspaces w !! ctlTsid c) as [db|]; [|apply Hdestroyed].
    destruct (clearDocument db _ _) as [w2|] eqn:Hc; [|apply Hdestroyed].
    unfold clearDocument in Hc. destruct (openDir db _); [|done].
    injection Hc as <-. apply Hdestroyed.
  - destruct (ldbThoughtspaces w !! ctlTsid c) as [db|]; [|apply Hdestroyed].
    destruct (clearDocument db _ _) as [w2|] eqn:Hc; [|apply Hdestroyed].
    unfold clearDocument in Hc. destruct (openDir db _); [|done].
    injection Hc as <-. apply Hdestroyed.
  - by intros ->.
  - intros token document documentName p w0 Hp Hty Hres Hctl.
    unfold onLoadDocument in *. rewrite Hp in *.
    destruct (getMap (permissionsServerDoc w0) (tsid p) !! token) as [perm|]; [|done].
    case_decide; [done|].
    rewrite decide_False in * by (rewrite Hty; done).
    rewrite decide_False in * by (rewrite Hty; intros [?|?]; done).
    rewrite decide_True in * by done.
    destruct (doclogDb (tsid p) w0) as [db w1].
    destruct (replicationCursorDb (tsid p) w1) as [cdb w2].
    destruct (bindState db documentName (hosted document) w2) as [[[]|err] w3];
      [|done].
    cbn [fst snd]. unfold replicationController. simpl. eauto.
Qed.

(** *** Binding a document to its store *)

(** *** Writes to the server maps *)

#[local] Instance serverWrites_refl : Reflexive serverWrites.
Proof.
  intros w. exists (disk w), (store (permissionsServerDoc w)).
  by rewrite with_store_same, set_permissionsServerDoc_same, set_disk_same.
Qed.

#[local] Instance serverWrites_trans : Transitive serverWrites.
Proof.
  intros w1 w2 w3 (dsk & s & -> & Hs & Hpre) (dsk' & s' & -> & Hs' & Hpre').
  exists dsk', s'. split; [done|]. split.
  - etrans; [exact Hs|exact Hs'].
  - intros d n. etrans; [apply Hpre|apply Hpre'].
Qed.

Lemma serverWrites_serverMap_set ts key v w : serverWrites w (serverMap_set ts key v w).
Proof.
  unfold serverMap_set.
  set (d := permissionsServerDoc w). set (u := mapSet_update d ts key v).
  destruct (emitUpdate_disk (updateHandlers d) u
              (set_permissionsServerDoc (with_store (store d ∪ u) d) w))
    as [dsk Hdsk].
  exists dsk, (store d ∪ u). split; [by rewrite Hdsk|].
  split; [apply union_subseteq_l|].
  intros dir n.
  etrans; [|apply (emitUpdate_prefix (updateHandlers d) u)]. done.
Qed.

Lemma serverWrites_serverMap_delete ts key w :
  serverWrites w (serverMap_delete ts key w).
Proof.
  unfold serverMap_delete. case_decide; [done|].
  set (d := permissionsServerDoc w). set (u := mapDelete_update d ts key).
  destruct (emitUpdate_disk (updateHandlers d) u
              (set_permissionsServerDoc (with_store (store d ∪ u) d) w))
    as [dsk Hdsk].
  exists dsk, (store d ∪ u). split; [by rewrite Hdsk|].
  split; [apply union_subseteq_l|].
  intros dir n.
  etrans; [|apply (emitUpdate_prefix (updateHandlers d) u)]. done.
Qed.

Lemma serverWrites_observeChange ts doc w kc : serverWrites w (observeChange ts doc w kc).
Proof.
  unfold observeChange.
  destruct kc.2; try apply serverWrites_serverMap_delete;
    (destruct (getMap _ rootMap !! kc.1); [|done]);
    (case_decide; [|done]); apply serverWrites_serverMap_set.
Qed.

Lemma serverWrites_observeCallback ts doc keys w :
  serverWrites w (observeCallback ts doc keys w).
Proof.
  unfold observeCallback. revert w.
  induction keys as [|kc keys IH]; intros w; [done|].
  simpl. etrans; [apply serverWrites_observeChange|apply IH].
Qed.

Lemma serverWrites_heap w w' : serverWrites w w' → heap w' = heap w.
Proof. by intros (dsk & s & -> & _). Qed.

Lemma serverWrites_hosted w w' n :
  serverWrites w w' → getDoc (hosted n) w' = getDoc (hosted n) w.
Proof. by intros (dsk & s & -> & _). Qed.

Lemma serverWrites_handles w w' : serverWrites w w' → handles w' = handles w.
Proof. by intros (dsk & s & -> & _). Qed.

Lemma serverWrites_prefix w w' d n :
  serverWrites w w' → storedUpdates d n w `prefix_of` storedUpdates d n w'.
Proof. intros (dsk & s & _ & _ & Hpre). apply Hpre. Qed.

Lemma serverWrites_serverDoc w w' :
  serverWrites w w' →
  store (permissionsServerDoc w) ⊆ store (permissionsServerDoc w')
  ∧ updateHandlers (permissionsServerDoc w') = updateHandlers (permissionsServerDoc w)
  ∧ clientID (permissionsServerDoc w') = clientID (permissionsServerDoc w)
  ∧ observers (permissionsServerDoc w') = observers (permissionsServerDoc w)
  ∧ isDestroyed (permissionsServerDoc w') = isDestroyed (permissionsServerDoc w).
Proof. by intros (dsk & s & -> & Hs & _). Qed.

Lemma serverWrites_frame w w' :
  serverWrites w w' →
  sameStores w w'
  ∧ controllers w' = controllers w
  ∧ console w' = console w
  ∧ documents w' = documents w
  ∧ ticks w' = ticks w
  ∧ clock w' = clock w.
Proof. by intros (dsk & s & -> & _). Qed.

Lemma serverWrites_notifyObservers doc keys w :
  serverWrites w (notifyObservers doc keys w).
Proof.
  unfold notifyObservers.
  generalize (observers (getDoc (hosted doc) w)). intros obs. revert w.
  induction obs as [|ts obs IH]; intros w; [done|].
  simpl. etrans; [apply serverWrites_observeCallback|apply IH].
Qed.

Lemma applyUpdate_doc doc u w :
  getDoc doc (applyUpdate doc u w)
  = with_store (store (getDoc doc w) ∪ u) (getDoc doc w).
Proof.
  unfold applyUpdate. case_decide.
  - apply getDoc_setDoc.
  - match goal with
    | |- getDoc _ (emitUpdate ?hs ?n ?W) = _ =>
        destruct (emitUpdate_disk hs n W) as [dsk ->]
    end.
    rewrite getDoc_set_disk. destruct doc as [|n]; [apply getDoc_setDoc|].
    rewrite (serverWrites_hosted _ _ n (serverWrites_notifyObservers _ _ _)).
    apply getDoc_setDoc.
Qed.

(** The state in which the observers and the handlers of an update run. *)
Lemma applyUpdate_notified doc u w :
  let d := getDoc doc w in
  let w1 := setDoc doc (with_store (store d ∪ u) d) w in
  ∃ w2, serverWrites w1 w2
        ∧ (doc = serverDoc → w2 = w1)
        ∧ applyUpdate doc u w
          = if decide (u ∖ store d = ∅) then w1
            else emitUpdate (updateHandlers d) (u ∖ store d) w2.
Proof.
  intros d w1. unfold applyUpdate. fold d. fold w1.
  destruct doc as [|n].
  - exists w1. split; [done|]. split; [done|]. done.
  - exists (notifyObservers n (changedKeys (store d) (store d ∪ u) rootMap) w1).
    split; [apply serverWrites_notifyObservers|]. split; [done|]. done.
Qed.

Lemma applyUpdate_handles doc u w : handles (applyUpdate doc u w) = handles w.
Proof.
  destruct (applyUpdate_notified doc u w) as (w2 & Hw2 & _ & ->).
  case_decide; [apply handles_setDoc|].
  by rewrite emitUpdate_handles, (serverWrites_handles _ _ Hw2), handles_setDoc.
Qed.

Lemma applyUpdate_prefix doc u w d n :
  storedUpdates d n w `prefix_of` storedUpdates d n (applyUpdate doc u w).
Proof.
  destruct (applyUpdate_notified doc u w) as (w2 & Hw2 & _ & ->).
  case_decide; [by rewrite storedUpdates_setDoc|].
  etrans; [|apply emitUpdate_prefix].
  etrans; [|apply (serverWrites_prefix _ _ _ _ Hw2)].
  by rewrite storedUpdates_setDoc.
Qed.

Lemma bindState_merge_doc db docName doc docPersisted w :
  getDoc doc (bindState_merge db docName doc docPersisted w)
  = with_updateHandlers (updateHandlers (getDoc doc w) ++ [(db, docName)])
      (with_store (store (getDoc doc w) ∪ docPersisted) (getDoc doc w)).
Proof.
  unfold bindState_merge, onUpdate. by rewrite getDoc_setDoc, applyUpdate_doc.
Qed.

Lemma bindState_merge_handles db docName doc docPersisted w :
  handles (bindState_merge db docName doc docPersisted w) = handles w.
Proof.
  unfold bindState_merge, onUpdate. by rewrite handles_setDoc, applyUpdate_handles.
Qed.

Lemma bindState_merge_prefix db docName doc docPersisted w d n :
  storedUpdates d n w
    `prefix_of` storedUpdates d n (bindState_merge db docName doc docPersisted w).
Proof.
  unfold bindState_merge, onUpdate. rewrite storedUpdates_setDoc.
  apply applyUpdate_prefix.
Qed.

(** The read of [bindState] on an open store: the document of the stored
    updates, and the flush of a name that holds too many. *)
Lemma getYDoc_db_open db d docName w :
  openDir db w = Some d →
  ∃ w0,
    getYDoc_db db docName w = Some (⋃ storedUpdates d docName w, w0)
    ∧ storedUpdates d docName w0
      = (if decide (PREFERRED_TRIM_SIZE < length (storedUpdates d docName w))
         then [⋃ storedUpdates d docName w] else storedUpdates d docName w)
    ∧ (∀ d' n, (d', n) ≠ (d, docName) →
         storedUpdates d' n w0 = storedUpdates d' n w)
    ∧ ∃ dsk, w0 = set_disk dsk w.
Proof.
  intros Hd. unfold getYDoc_db. rewrite Hd. cbv zeta.
  case_decide as Hlen.
  - eexists. split; [done|]. unfold flushDocument, storedUpdates. simpl.
    split; [|split; [|by eexists]].
    + rewrite lookup_insert_eq. simpl. by rewrite lookup_insert_eq.
    + intros d' n Hne. destruct (decide (d' = d)) as [->|Hd'].
      * rewrite lookup_insert_eq. simpl. rewrite lookup_insert_ne; [done|congruence].
      * by rewrite lookup_insert_ne.
  - exists w. split; [done|]. split; [done|]. split; [done|].
    exists (disk w). by rewrite set_disk_same.
Qed.


(** [bindState] on an open store resolves, after the read, the write and
    the merge. *)
Lemma bindState_resolves db docName doc d w :
  openDir db w = Some d →
  ∃ w0 w1,
    bindState_read db docName w = Some (⋃ storedUpdates d docName w, w0)
    ∧ storedUpdates d docName w0
      = (if decide (PREFERRED_TRIM_SIZE < length (storedUpdates d docName w))
         then [⋃ storedUpdates d docName w] else storedUpdates d docName w)
    ∧ (∀ d' n, (d', n) ≠ (d, docName) →
         storedUpdates d' n w1 = storedUpdates d' n w)
    ∧ bindState_write db docName doc w0 = Some w1
    ∧ storedUpdates d docName w1
      = storedUpdates d docName w0 ++ [store (getDoc doc w)]
    ∧ getDoc doc w1 = getDoc doc w
    ∧ (∃ dsk, w1 = set_disk dsk w)
    ∧ bindState db docName doc w
      = (Resolved (), bindState_merge db docName doc (⋃ storedUpdates d docName w) w1)
    ∧ store (getDoc doc (bindState db docName doc w).2)
      = store (getDoc doc w) ∪ ⋃ storedUpdates d docName w.
Proof.
  intros Hd.
  destruct (getYDoc_db_open db d docName w Hd) as (w0 & Hread & Hat0 & Hoth0 & dsk0 & Hw0).
  assert (openDir db w0 = Some d) as Hd0 by (by rewrite Hw0).
  assert (getDoc doc w0 = getDoc doc w) as Hdoc0.
  { rewrite Hw0. apply getDoc_set_disk. }
  destruct (storeUpdate_stored db d docName (store (getDoc doc w0)) w0 Hd0)
    as (w1 & Hw1 & Hat & Hoth).
  exists w0, w1.
  assert (getDoc doc w1 = getDoc doc w) as Hdoc.
  { apply storeUpdate_disk in Hw1 as [dsk ->]. by rewrite getDoc_set_disk. }
  assert (∃ dsk, w1 = set_disk dsk w) as Hshape.
  { apply storeUpdate_disk in Hw1 as [dsk ->]. exists dsk. by rewrite Hw0. }
  assert (bindState db docName doc w
          = (Resolved (),
             bindState_merge db docName doc (⋃ storedUpdates d docName w) w1))
    as Hbind.
  { unfold bindState, bindState_read. rewrite Hread. unfold bindState_write.
    by rewrite Hw1. }
  split; [done|]. split; [done|].
  split; [intros d' n Hne; by rewrite Hoth, Hoth0|].
  split; [done|]. split; [by rewrite Hat, Hdoc0|].
  split; [done|]. split; [done|]. split; [done|].
  rewrite Hbind. cbn [snd]. by rewrite bindState_merge_doc, Hdoc.
Qed.

(** An update that is emitted to the handlers of a document is appended
    to the stored updates of every handler whose store is open. *)
Lemma emitUpdate_appends hs db docName d u w :
  (db, docName) ∈ hs →
  openDir db w = Some d →
  ∃ before,
    storedUpdates d docName (emitUpdate hs u w) = before ++ [u]
    ∧ storedUpdates d docName w `prefix_of` before.
Proof.
  intros Hin Hd. induction hs as [|h hs IH] using rev_ind;
    [by apply elem_of_nil in Hin|].
  rewrite emitUpdate_snoc.
  set (Wm := emitUpdate hs u w).
  assert (storedUpdates d docName w `prefix_of` storedUpdates d docName Wm) as Hpre
    by apply emitUpdate_prefix.
  assert (∀ db', openDir db' Wm = openDir db' w) as Hopen.
  { intros db'. apply openDir_handles, emitUpdate_handles. }
  destruct (decide (h = (db, docName))) as [->|Hne].
  - cbn [fst snd].
    destruct (storeUpdate_stored db d docName u Wm) as (w3 & -> & Hat & _);
      [by rewrite Hopen|].
    simpl. exists (storedUpdates d docName Wm). by split.
  - apply elem_of_app in Hin as [Hin|Hin%list_elem_of_singleton]; [|done].
    destruct (IH Hin) as (before & Hbefore & Hpre0). fold Wm in Hbefore.
    destruct (openDir h.1 Wm) as [d'|] eqn:Hd'.
    + destruct (storeUpdate_stored h.1 d' h.2 u Wm Hd') as (w3 & -> & Hat & Hoth).
      simpl. destruct (decide ((d, docName) = (d', h.2))) as [Heq|Hne'].
      * injection Heq as <- Hn. rewrite <- Hn in Hat.
        rewrite Hat, Hbefore. exists (before ++ [u]). split; [done|].
        by apply prefix_app_r.
      * rewrite Hoth by done. by exists before.
    + unfold storeUpdate. rewrite Hd'. simpl. by exists before.
Qed.

(** *** Operations that leave the stores and the registries alone *)

#[local] Instance sameStores_refl : Reflexive sameStores.
Proof. by intros w. Qed.

#[local] Instance sameStores_trans : Transitive sameStores.
Proof.
  intros w1 w2 w3 (? & ? & ? & ? & ? & ?) (? & ? & ? & ? & ? & ?).
  repeat split; congruence.
Qed.

Lemma sameStores_setDoc doc d w : sameStores w (setDoc doc d w).
Proof. by destruct doc. Qed.

Lemma sameStores_set_disk dsk w : sameStores w (set_disk dsk w).
Proof. done. Qed.

Lemma sameStores_storeUpdate db docName u w w' :
  storeUpdate db docName u w = Some w' → sameStores w w'.
Proof. intros Hs. by apply storeUpdate_disk in Hs as [dsk ->]. Qed.

Lemma sameStores_emitUpdate hs u w : sameStores w (emitUpdate hs u w).
Proof. by destruct (emitUpdate_disk hs u w) as [dsk ->]. Qed.

Lemma sameStores_serverWrites w w' : serverWrites w w' → sameStores w w'.
Proof. intros Hw. by apply serverWrites_frame in Hw as [? _]. Qed.

Lemma sameStores_applyUpdate doc u w : sameStores w (applyUpdate doc u w).
Proof.
  destruct (applyUpdate_notified doc u w) as (w2 & Hw2 & _ & ->).
  case_decide; [apply sameStores_setDoc|].
  etrans; [apply sameStores_setDoc|].
  etrans; [by apply sameStores_serverWrites|apply sameStores_emitUpdate].
Qed.

Lemma sameStores_bindState_merge db docName doc docPersisted w :
  sameStores w (bindState_merge db docName doc docPersisted w).
Proof.
  unfold bindState_merge, onUpdate.
  etrans; [apply sameStores_applyUpdate|apply sameStores_setDoc].
Qed.

Lemma bindState_read_disk db docName w dp w0 :
  bindState_read db docName w = Some (dp, w0) → ∃ dsk, w0 = set_disk dsk w.
Proof.
  unfold bindState_read, getYDoc_db. destruct (openDir db w); [|done].
  intros [= _ <-]. case_decide; [by eexists|].
  exists (disk w). by rewrite set_disk_same.
Qed.

Lemma sameStores_bindState_read db docName w dp w0 :
  bindState_read db docName w = Some (dp, w0) → sameStores w w0.
Proof. intros Hr. by apply bindState_read_disk in Hr as [dsk ->]. Qed.

Lemma sameStores_read_write db docName doc w dp w0 w1 :
  bindState_read db docName w = Some (dp, w0) →
  bindState_write db docName doc w0 = Some w1 →
  sameStores w w1.
Proof.
  intros Hr Hw. etrans; [by eapply sameStores_bindState_read|].
  by eapply sameStores_storeUpdate.
Qed.

Lemma sameStores_bindState db docName doc w :
  sameStores w (bindState db docName doc w).2.
Proof.
  unfold bindState. destruct (bindState_read db docName w) as [[dp w0]|] eqn:Hr; [|done].
  assert (sameStores w w0) as H0 by (by eapply sameStores_bindState_read).
  destruct (bindState_write db docName doc w0) as [w1|] eqn:Hw; [|done].
  cbn [snd]. etrans; [exact H0|]. etrans; [by eapply sameStores_storeUpdate|].
  apply sameStores_bindState_merge.
Qed.

Lemma sameStores_serverMap_set ts key v w : sameStores w (serverMap_set ts key v w).
Proof. apply sameStores_serverWrites, serverWrites_serverMap_set. Qed.

Lemma sameStores_serverMap_delete ts key w : sameStores w (serverMap_delete ts key w).
Proof. apply sameStores_serverWrites, serverWrites_serverMap_delete. Qed.

Lemma sameStores_observeChange ts doc w kc : sameStores w (observeChange ts doc w kc).
Proof. apply sameStores_serverWrites, serverWrites_observeChange. Qed.

Lemma sameStores_observeCallback ts doc keys w :
  sameStores w (observeCallback ts doc keys w).
Proof. apply sameStores_serverWrites, serverWrites_observeCallback. Qed.

Lemma sameStores_notifyObservers doc keys w :
  sameStores w (notifyObservers doc keys w).
Proof. apply sameStores_serverWrites, serverWrites_notifyObservers. Qed.

Lemma sameStores_clientMap_set doc key v w : sameStores w (clientMap_set doc key v w).
Proof.
  unfold clientMap_set.
  etrans; [|apply sameStores_emitUpdate].
  etrans; [|apply sameStores_notifyObservers]. apply sameStores_setDoc.
Qed.

Lemma sameStores_clientMap_delete doc key w :
  sameStores w (clientMap_delete doc key w).
Proof.
  unfold clientMap_delete. destruct (getMap _ rootMap !! key); [|done].
  etrans; [|apply sameStores_emitUpdate].
  etrans; [|apply sameStores_notifyObservers]. apply sameStores_setDoc.
Qed.

Lemma sameStores_onAuthenticate token documentName w :
  sameStores w (onAuthenticate token documentName w).2.
Proof.
  unfold onAuthenticate. destruct (parseDocumentName documentName) as [p|]; [|done].
  destruct (decide (size _ = 0)); [|by case_decide].
  unfold log, timestamp, readClock. cbv beta iota zeta.
  case_decide; cbn [snd]; (etrans; [|apply sameStores_serverMap_set]); done.
Qed.

Lemma sameStores_next c e w : sameStores w (next c e w).2.
Proof.
  unfold next. destruct (entryAction e); try done.
  destruct (ldbThoughtspaces _ !! ctlTsid c) as [db|]; [|done].
  destruct (clearDocument db _ _) as [w2|] eqn:Hc; [|done].
  unfold clearDocument in Hc. destruct (openDir db _); [|done].
  by injection Hc as <-.
Qed.

Lemma sameStores_copy doc (l : list (string * Share)) w :
  sameStores w (foldl (λ w kv, clientMap_set doc kv.1 kv.2 w) w l).
Proof.
  revert w. induction l as [|kv l IH]; intros w; [done|].
  simpl. etrans; [apply sameStores_clientMap_set|apply IH].
Qed.

(** *** Disconnection *)

Lemma openDir_closeStore_eq db w : openDir db (closeStore db w) = None.
Proof.
  unfold openDir, closeStore. simpl. rewrite lookup_alter_eq.
  by destruct (handles w !! db).
Qed.

Lemma openDir_closeStore_ne db db' w :
  db ≠ db' → openDir db (closeStore db' w) = openDir db w.
Proof. intros Hne. unfold openDir, closeStore. simpl. by rewrite lookup_alter_ne. Qed.

Lemma openDir_closeStore_None db db' w :
  openDir db w = None → openDir db (closeStore db' w) = None.
Proof.
  intros Hnone. destruct (decide (db = db')) as [->|Hne].
  - apply openDir_closeStore_eq.
  - by rewrite openDir_closeStore_ne.
Qed.

Lemma handles_closeStore_ne db db' w :
  db ≠ db' → handles (closeStore db' w) !! db = handles w !! db.
Proof. intros Hne. unfold closeStore. simpl. by rewrite lookup_alter_ne. Qed.

Lemma registry_set_registry k k' r w :
  registry k' (set_registry k r w) = if decide (k' = k) then r else registry k' w.
Proof. by destruct k, k'. Qed.

Lemma onDisconnect_blocks documentName p w :
  parseDocumentName documentName = Some p →
  type p = "doclog" →
  onDisconnect documentName w
  = (Resolved (),
     closeAndForget cursorStore (tsid p)
       (closeAndForget doclogStore (tsid p)
          (closeAndForget contentStore (tsid p) w))).
Proof.
  intros Hp Hty. unfold onDisconnect. rewrite Hp. by rewrite decide_True.
Qed.

Lemma closeAndForget_registry k ts w k' ts' :
  registry k' (closeAndForget k ts w) !! ts'
  = if decide (k' = k ∧ ts' = ts) then None else registry k' w !! ts'.
Proof.
  unfold closeAndForget.
  destruct (registry k w !! ts) as [db|] eqn:Hdb.
  - cbv zeta. rewrite registry_set_registry.
    case_decide as Hk.
    + subst k'. destruct (decide (ts' = ts)) as [->|Hts].
      * rewrite decide_True by done. apply lookup_delete_eq.
      * rewrite decide_False by (intros [_ ?]; done).
        rewrite lookup_delete_ne by done. by destruct k.
    + rewrite decide_False by (intros [? _]; done). by destruct k'.
  - case_decide as Hk; [|done]. destruct Hk as [-> ->]. done.
Qed.

Lemma closeAndForget_openDir k ts w db :
  registry k w !! ts = Some db ∨ openDir db w = None →
  openDir db (closeAndForget k ts w) = None.
Proof.
  intros Hdb. unfold closeAndForget.
  destruct (registry k w !! ts) as [db'|] eqn:Hreg.
  - cbv zeta.
    assert (openDir db (closeStore db' w) = None) as Hclosed.
    { destruct Hdb as [[= ->]|Hnone].
      - apply openDir_closeStore_eq.
      - by apply openDir_closeStore_None. }
    rewrite <- Hclosed. apply openDir_handles. by destruct k.
  - by destruct Hdb.
Qed.

Lemma closeAndForget_handles k ts w db :
  registry k w !! ts ≠ Some db →
  handles (closeAndForget k ts w) !! db = handles w !! db.
Proof.
  intros Hdb. unfold closeAndForget.
  destruct (registry k w !! ts) as [db'|] eqn:Hreg; [|done].
  cbv zeta. rewrite <- (handles_closeStore_ne db db' w) by congruence.
  by destruct k.
Qed.

Lemma closeAndForget_frame k ts w :
  disk (closeAndForget k ts w) = disk w
  ∧ nextHandle (closeAndForget k ts w) = nextHandle w
  ∧ permissionsServerDoc (closeAndForget k ts w) = permissionsServerDoc w
  ∧ heap (closeAndForget k ts w) = heap w.
Proof.
  unfold closeAndForget. destruct (registry k w !! ts); [|done]. by destruct k.
Qed.

Lemma onDisconnect_doclog_effect documentName p w :
  parseDocumentName documentName = Some p →
  type p = "doclog" →
  let w' := (onDisconnect documentName w).2 in
  (onDisconnect documentName w).1 = Resolved ()
  ∧ (∀ k, registry k w' !! tsid p = None)
  ∧ (∀ k db, registry k w !! tsid p = Some db → openDir db w' = None)
  ∧ (∀ k ts, ts ≠ tsid p → registry k w' !! ts = registry k w !! ts)
  ∧ (∀ db, (∀ k, registry k w !! tsid p ≠ Some db) →
       handles w' !! db = handles w !! db)
  ∧ disk w' = disk w
  ∧ nextHandle w' = nextHandle w
  ∧ permissionsServerDoc w' = permissionsServerDoc w
  ∧ heap w' = heap w.
Proof.
  intros Hp Hty w'. subst w'. rewrite (onDisconnect_blocks _ p) by done.
  cbn [fst snd].
  split; [done|]. split; [|split; [|split; [|split]]].
  - intros k. rewrite !closeAndForget_registry.
    repeat (case_decide; [done|]). destruct k; naive_solver.
  - intros k db Hdb.
    destruct k.
    + apply closeAndForget_openDir. right.
      apply closeAndForget_openDir. right.
      apply closeAndForget_openDir. by left.
    + apply closeAndForget_openDir. right.
      apply closeAndForget_openDir. left.
      rewrite closeAndForget_registry. rewrite decide_False; [done|by intros [? _]].
    + apply closeAndForget_openDir. left.
      rewrite !closeAndForget_registry.
      rewrite !decide_False; [done|by intros [? _]..].
  - intros k ts Hts. rewrite !closeAndForget_registry.
    rewrite !decide_False; [done|by intros [_ ?]..].
  - intros db Hdb.
    rewrite closeAndForget_handles.
    2:{ rewrite !closeAndForget_registry.
        rewrite !decide_False; [apply Hdb|by intros [? _]..]. }
    rewrite closeAndForget_handles.
    2:{ rewrite !closeAndForget_registry.
        rewrite !decide_False; [apply Hdb|by intros [? _]..]. }
    apply closeAndForget_handles, Hdb.
  - destruct (closeAndForget_frame cursorStore (tsid p)
                (closeAndForget doclogStore (tsid p)
                   (closeAndForget contentStore (tsid p) w))) as (-> & -> & -> & ->).
    destruct (closeAndForget_frame doclogStore (tsid p)
                (closeAndForget contentStore (tsid p) w)) as (-> & -> & -> & ->).
    by destruct (closeAndForget_frame contentStore (tsid p) w) as (-> & -> & -> & ->).
Qed.

(** *** Opening or reusing a store *)

Lemma thoughtspaceDb_openOrReuse ts w :
  thoughtspaceDb ts w = openOrReuse contentStore ts w.
Proof. unfold thoughtspaceDb, openOrReuse. simpl. by destruct (_ !! ts). Qed.

Lemma doclogDb_openOrReuse ts w : doclogDb ts w = openOrReuse doclogStore ts w.
Proof. unfold doclogDb, openOrReuse. simpl. by destruct (_ !! ts). Qed.

Lemma replicationCursorDb_openOrReuse ts w :
  replicationCursorDb ts w = openOrReuse cursorStore ts w.
Proof. unfold replicationCursorDb, openOrReuse. simpl. by destruct (_ !! ts). Qed.

Lemma openOrReuse_hit k ts w db :
  registry k w !! ts = Some db → openOrReuse k ts w = (db, w).
Proof. intros Hdb. unfold openOrReuse. by rewrite Hdb. Qed.

Lemma openOrReuse_miss k ts w :
  registry k w !! ts = None →
  (openOrReuse k ts w).1 = nextHandle w
  ∧ handles (openOrReuse k ts w).2
    = <[nextHandle w := mkHandle (path_join (basePath k) ts) true]> (handles w)
  ∧ nextHandle (openOrReuse k ts w).2 = S (nextHandle w)
  ∧ (∀ k', registry k' (openOrReuse k ts w).2
           = if decide (k' = k) then <[ts := nextHandle w]> (registry k w)
             else registry k' w)
  ∧ disk (openOrReuse k ts w).2 = disk w
  ∧ heap (openOrReuse k ts w).2 = heap w
  ∧ permissionsServerDoc (openOrReuse k ts w).2 = permissionsServerDoc w
  ∧ controllers (openOrReuse k ts w).2 = controllers w.
Proof.
  intros Hnone. unfold openOrReuse. rewrite Hnone. unfold openStore.
  cbv beta iota zeta. cbn [fst snd].
  split; [done|]. split; [by destruct k|]. split; [by destruct k|].
  split; [|by destruct k].
  intros k'. rewrite registry_set_registry. case_decide; [|by destruct k'].
  by destruct k.
Qed.

Lemma onLoadDocument_content token document documentName p w :
  parseDocumentName documentName = Some p →
  type p = "thought" ∨ type p = "lexeme" →
  role <$> getMap (permissionsServerDoc w) (tsid p) !! token = Some "owner" →
  onLoadDocument token document documentName w
  = bindState (openOrReuse contentStore (tsid p) w).1 documentName (hosted document)
      (openOrReuse contentStore (tsid p) w).2.
Proof.
  intros Hp Hty Hrole. unfold onLoadDocument. rewrite Hp.
  destruct (getMap (permissionsServerDoc w) (tsid p) !! token) as [perm|]; [|done].
  simpl in Hrole. rewrite decide_False by (intros Hne; apply Hne; congruence).
  rewrite decide_False by (destruct Hty as [-> | ->]; done).
  rewrite decide_True by done.
  rewrite thoughtspaceDb_openOrReuse. by destruct (openOrReuse _ _ _).
Qed.


Lemma onLoadDocument_doclog token document documentName p w :
  parseDocumentName documentName = Some p →
  type p = "doclog" →
  role <$> getMap (permissionsServerDoc w) (tsid p) !! token = Some "owner" →
  let w1 := (openOrReuse doclogStore (tsid p) w).2 in
  let w2 := (openOrReuse cursorStore (tsid p) w1).2 in
  onLoadDocument token document documentName w
  = match bindState (openOrReuse doclogStore (tsid p) w).1 documentName
            (hosted document) w2 with
    | (Rejected e, w3) => (Rejected e, w3)
    | (Resolved _, w3) =>
        (Resolved (),
         replicationController
           (mkController document (tsid p) documentName
              (openOrReuse cursorStore (tsid p) w1).1) w3)
    end.
Proof.
  intros Hp Hty Hrole. unfold onLoadDocument. rewrite Hp.
  destruct (getMap (permissionsServerDoc w) (tsid p) !! token) as [perm|]; [|done].
  simpl in Hrole. rewrite decide_False by (intros Hne; apply Hne; congruence).
  rewrite decide_False by (by rewrite Hty).
  rewrite decide_False by (rewrite Hty; by intros [?|?]).
  rewrite decide_True by done.
  rewrite doclogDb_openOrReuse.
  destruct (openOrReuse doclogStore (tsid p) w) as [db w1]. cbn [fst snd].
  rewrite replicationCursorDb_openOrReuse.
  by destruct (openOrReuse cursorStore (tsid p) w1) as [cdb w2].
Qed.

(** C7. [onDisconnect] for a document name of the type doclog: it
    resolves; the tenant has no entry left in any of the three registries;
    every store that one of them held for the tenant is closed; the entries
    of the other tenants, the stores held by none of these entries, the
    disk, the documents and the permission maps are as before. A load of a
    thought or lexeme document of the tenant after that constructs a new
    store over the content directory of the tenant, registers it, and
    binds the document to it: the document then holds what it had in
    memory together with what the disk held for its name before the
    disconnection. A load of the doclog document of the tenant after that
    constructs and registers a new doclog store and a new cursor store. For
    a document name of another type, [onDisconnect] changes nothing. *)
Theorem onDisconnect_doclog_closes (documentName : string) (p : DocumentNameParts)
    (w : World) :
  parseDocumentName documentName = Some p →
  let w' := (onDisconnect documentName w).2 in
  (type p ≠ "doclog" → onDisconnect documentName w = (Resolved (), w))
  ∧ (type p = "doclog" →
     (onDisconnect documentName w).1 = Resolved ()
     ∧ (∀ k, registry k w' !! tsid p = None)
     ∧ (∀ k db, registry k w !! tsid p = Some db → openDir db w' = None)
     ∧ (∀ k ts, ts ≠ tsid p → registry k w' !! ts = registry k w !! ts)
     ∧ (∀ db, (∀ k, registry k w !! tsid p ≠ Some db) →
          handles w' !! db = handles w !! db)
     ∧ disk w' = disk w
     ∧ permissionsServerDoc w' = permissionsServerDoc w
     ∧ heap w' = heap w
     ∧ (∀ token document documentName2 p2,
          parseDocumentName documentName2 = Some p2 →
          tsid p2 = tsid p →
          type p2 = "thought" ∨ type p2 = "lexeme" →
          role <$> getMap (permissionsServerDoc w) (tsid p) !! token = Some "owner" →
          let r := onLoadDocument token document documentName2 w' in
          let contentDir := path_join thoughtsDbBasePath (tsid p) in
          r.1 = Resolved ()
          ∧ nextHandle r.2 = S (nextHandle w)
          ∧ ldbThoughtspaces r.2 !! tsid p = Some (nextHandle w)
          ∧ openDir (nextHandle w) r.2 = Some contentDir
          ∧ store (getDoc (hosted document) r.2)
            = store (getDoc (hosted document) w)
              ∪ ⋃ storedUpdates contentDir documentName2 w)
     ∧ (∀ token document documentName2 p2,
          parseDocumentName documentName2 = Some p2 →
          tsid p2 = tsid p →
          type p2 = "doclog" →
          role <$> getMap (permissionsServerDoc w) (tsid p) !! token = Some "owner" →
          let r := onLoadDocument token document documentName2 w' in
          r.1 = Resolved ()
          ∧ nextHandle r.2 = S (S (nextHandle w))
          ∧ ldbDoclogs r.2 !! tsid p = Some (nextHandle w)
          ∧ ldbReplicationCursors r.2 !! tsid p = Some (S (nextHandle w))
          ∧ openDir (nextHandle w) r.2 = Some (path_join doclogDbBasePath (tsid p))
          ∧ openDir (S (nextHandle w)) r.2
            = Some (path_join replicationCursorDbBasePath (tsid p)))).
Proof.
  intros Hp w'. split.
  - intros Hty. unfold onDisconnect. rewrite Hp. by rewrite decide_False.
  - intros Hty.
    destruct (onDisconnect_doclog_effect documentName p w Hp Hty)
      as (Hres & Hreg & Hclosed & Hothers & Hhandles & Hdisk & Hnext & Hperm & Hheap).
    fold w' in Hres, Hreg, Hclosed, Hothers, Hhandles, Hdisk, Hnext, Hperm, Hheap.
    repeat (split; [done|]).
    split; last first.
    { intros token document documentName2 p2 Hp2 Hts Hty2 Hrole r. subst r.
      rewrite (onLoadDocument_doclog token document documentName2 p2 w')
        by (rewrite ?Hts, ?Hperm; done).
      rewrite Hts.
      destruct (openOrReuse_miss doclogStore (tsid p) w' (Hreg doclogStore))
        as (Hdb1 & Hh1 & Hn1 & Hr1 & _).
      set (W1 := (openOrReuse doclogStore (tsid p) w').2) in *.
      assert (registry cursorStore W1 !! tsid p = None) as Hc1.
      { rewrite Hr1, decide_False by done. apply Hreg. }
      destruct (openOrReuse_miss cursorStore (tsid p) W1 Hc1)
        as (Hdb2 & Hh2 & Hn2 & Hr2 & _).
      set (W2 := (openOrReuse cursorStore (tsid p) W1).2) in *.
      rewrite Hdb1, Hdb2.
      assert (nextHandle w' ≠ nextHandle W1) as Hne by (rewrite Hn1; lia).
      assert (openDir (nextHandle w') W2
              = Some (path_join doclogDbBasePath (tsid p))) as Hopen1.
      { unfold openDir. rewrite Hh2, lookup_insert_ne by done.
        by rewrite Hh1, lookup_insert_eq. }
      assert (openDir (nextHandle W1) W2
              = Some (path_join replicationCursorDbBasePath (tsid p))) as Hopen2.
      { unfold openDir. by rewrite Hh2, lookup_insert_eq. }
      destruct (sameStores_bindState (nextHandle w') documentName2 (hosted document) W2)
        as (Hh' & Hn' & _ & Hd' & Hc' & _).
      destruct (bindState_resolves (nextHandle w') documentName2 (hosted document) _
                  W2 Hopen1) as (w0 & w1 & _ & _ & _ & _ & _ & _ & _ & Hbind & _).
      rewrite Hbind in *. cbn [fst snd] in *.
      unfold replicationController. cbn [fst snd nextHandle ldbDoclogs
        ldbReplicationCursors set_controllers].
      split; [done|].
      split; [by rewrite Hn', Hn2, Hn1, Hnext|].
      split.
      { rewrite Hd'. pose proof (Hr2 doclogStore) as Hx.
        rewrite decide_False in Hx by done. simpl in Hx. rewrite Hx.
        pose proof (Hr1 doclogStore) as Hy. rewrite decide_True in Hy by done.
        simpl in Hy. by rewrite Hy, lookup_insert_eq, Hnext. }
      split.
      { rewrite Hc'. pose proof (Hr2 cursorStore) as Hx.
        rewrite decide_True in Hx by done. simpl in Hx.
        by rewrite Hx, lookup_insert_eq, Hn1, Hnext. }
      split.
      { rewrite <- Hnext, <- Hopen1. by apply openDir_handles. }
      rewrite <- Hnext, <- Hn1, <- Hopen2. by apply openDir_handles. }
    intros token document documentName2 p2 Hp2 Hts Hty2 Hrole r contentDir.
    subst r.
    rewrite (onLoadDocument_content token document documentName2 p2 w')
      by (rewrite ?Hts, ?Hperm; done).
    rewrite Hts.
    destruct (openOrReuse_miss contentStore (tsid p) w' (Hreg contentStore))
      as (Hdb & Hh & Hn & Hr & Hd & Hhp & Hpsd & _).
    rewrite Hdb.
    assert (openDir (nextHandle w') (openOrReuse contentStore (tsid p) w').2
            = Some contentDir) as Hopen.
    { unfold openDir. rewrite Hh, lookup_insert_eq. done. }
    set (W := (openOrReuse contentStore (tsid p) w').2) in *.
    destruct (sameStores_bindState (nextHandle w') documentName2 (hosted document) W)
      as (Hh' & Hn' & Hr' & _).
    destruct (bindState_resolves (nextHandle w') documentName2 (hosted document)
                contentDir W Hopen)
      as (w0 & w1 & _ & _ & _ & _ & _ & _ & _ & Hbind & Hstore).
    split; [by rewrite Hbind|].
    split; [by rewrite Hn', Hn, Hnext|].
    split.
    { rewrite Hr'. specialize (Hr contentStore). simpl in Hr. rewrite Hr.
      by rewrite lookup_insert_eq, Hnext. }
    split.
    { rewrite <- Hnext, <- Hopen. by apply openDir_handles. }
    rewrite Hstore. unfold getDoc, storedUpdates. by rewrite Hhp, Hd, Hheap, Hdisk.
Qed.

(** *** The registries stay well formed *)

Lemma registry_sameStores k w w' : sameStores w w' → registry k w' = registry k w.
Proof. intros (? & ? & ? & ? & ? & ?). by destruct k. Qed.

Lemma registries_wf_ext w w' :
  handles w' = handles w →
  nextHandle w' = nextHandle w →
  (∀ k, registry k w' = registry k w) →
  registries_wf w → registries_wf w'.
Proof.
  intros Hh Hn Hr (Hfresh & Hperm & Hreg & Hinj & Hopen).
  unfold registries_wf, openDir. rewrite Hh, Hn.
  split; [done|]. split; [done|]. split; [|split].
  - intros k ts db. rewrite Hr. apply Hreg.
  - intros k1 ts1 k2 ts2 db. rewrite !Hr. apply Hinj.
  - intros db Hdb. destruct (Hopen db Hdb) as [?|(k & ts & ?)]; [by left|].
    right. exists k, ts. by rewrite Hr.
Qed.

Lemma registries_wf_sameStores w w' :
  sameStores w w' → registries_wf w → registries_wf w'.
Proof.
  intros Hsame. pose proof (λ k, registry_sameStores k w w' Hsame) as Hr.
  destruct Hsame as (Hh & Hn & _). by apply registries_wf_ext.
Qed.

Lemma registries_wf_initial clk dsk : registries_wf (initialWorld clk dsk).
Proof.
  unfold registries_wf, initialWorld, openDir, ldbPermissions. simpl.
  split; [|split; [|split; [|split]]].
  - intros db st [<- _]%lookup_singleton_Some. lia.
  - by rewrite lookup_singleton_eq.
  - by intros [].
  - by intros [].
  - intros db Hdb. left.
    destruct (decide (0 = db)) as [<-|Hne]; [done|].
    rewrite lookup_singleton_ne in Hdb by done. by destruct Hdb.
Qed.

Lemma registries_wf_openOrReuse k ts w :
  registries_wf w → registries_wf (openOrReuse k ts w).2.
Proof.
  intros Hwf. destruct (registry k w !! ts) as [db|] eqn:Hk.
  { by rewrite (openOrReuse_hit k ts w db). }
  destruct (openOrReuse_miss k ts w Hk) as (_ & Hh & Hn & Hr & _).
  destruct Hwf as (Hfresh & Hperm & Hreg & Hinj & Hopen).
  assert (handles w !! nextHandle w = None) as Hnew.
  { destruct (handles w !! nextHandle w) eqn:Hx; [|done].
    apply Hfresh in Hx. lia. }
  assert (nextHandle w ≠ ldbPermissions) as Hnp.
  { intros Heq. rewrite Heq in Hnew. rewrite Hnew in Hperm. by destruct Hperm. }
  assert (∀ k' ts' db, registry k' w !! ts' = Some db → db ≠ nextHandle w) as Hold.
  { intros k' ts' db Hdb ->. apply Hreg in Hdb as (_ & st & Hst & _). congruence. }
  unfold registries_wf, openDir. rewrite Hh, Hn.
  split; [|split; [|split; [|split]]].
  - intros db st [[<- _]|[_ Hst]]%lookup_insert_Some; [lia|].
    apply Hfresh in Hst. lia.
  - rewrite lookup_insert_ne by done. done.
  - intros k' ts' db. rewrite Hr. case_decide as Hkk.
    + subst k'. intros [[<- <-]|[Hts Hdb]]%lookup_insert_Some.
      * split; [done|]. eexists. by rewrite lookup_insert_eq.
      * destruct (Hreg _ _ _ Hdb) as (? & st & ? & ?). split; [done|].
        exists st. rewrite lookup_insert_ne; [done|]. intros Heq.
        by eapply Hold.
    + intros Hdb. destruct (Hreg _ _ _ Hdb) as (? & st & ? & ?). split; [done|].
      exists st. rewrite lookup_insert_ne; [done|]. intros Heq. by eapply Hold.
  - intros k1 ts1 k2 ts2 db. rewrite !Hr.
    destruct (decide (k1 = k)) as [->|H1], (decide (k2 = k)) as [->|H2].
    + intros [[<- <-]|[Hts1 Hdb1]]%lookup_insert_Some
             [[<- Heq]|[Hts2 Hdb2]]%lookup_insert_Some; try done.
      * by eapply Hold in Hdb2.
      * subst db. by eapply Hold in Hdb1.
      * by eapply Hinj.
    + intros [[<- <-]|[Hts1 Hdb1]]%lookup_insert_Some Hdb2.
      * by eapply Hold in Hdb2.
      * by eapply Hinj.
    + intros Hdb1 [[<- <-]|[Hts2 Hdb2]]%lookup_insert_Some.
      * by eapply Hold in Hdb1.
      * by eapply Hinj.
    + by apply Hinj.
  - intros db Hdb.
    destruct (decide (nextHandle w = db)) as [<-|Hne].
    + right. exists k, ts. rewrite Hr, decide_True by done. by rewrite lookup_insert_eq.
    + rewrite lookup_insert_ne in Hdb by done.
      destruct (Hopen db Hdb) as [?|(k' & ts' & Hdb')]; [by left|].
      right. exists k', ts'. rewrite Hr. case_decide; [|done]. subst k'.
      rewrite lookup_insert_ne; [done|]. intros <-. congruence.
Qed.

Lemma registries_wf_closeStore db w :
  registries_wf w → registries_wf (closeStore db w).
Proof.
  intros (Hfresh & Hperm & Hreg & Hinj & Hopen).
  unfold registries_wf. split; [|split; [|split; [|split]]].
  - intros db' st Hst. unfold closeStore in Hst. simpl in Hst.
    assert (is_Some (handles w !! db')) as [st0 Hst0].
    { apply (lookup_alter_is_Some (λ h, mkHandle (dir h) false) (handles w) db db').
      by rewrite Hst. }
    by eapply Hfresh.
  - unfold closeStore. simpl. by apply lookup_alter_is_Some.
  - intros k ts db' Hdb'.
    assert (registry k w !! ts = Some db') as Hdb by (by destruct k).
    destruct (Hreg _ _ _ Hdb) as (? & st & Hst & Hdir). split; [done|].
    unfold closeStore. simpl. destruct (decide (db = db')) as [->|Hne].
    + rewrite lookup_alter_eq, Hst. simpl. eauto.
    + rewrite lookup_alter_ne by done. eauto.
  - intros k1 ts1 k2 ts2 db' H1 H2. apply (Hinj k1 ts1 k2 ts2 db').
    + by destruct k1.
    + by destruct k2.
  - intros db' Hdb'. destruct (decide (db' = db)) as [->|Hne].
    + rewrite openDir_closeStore_eq in Hdb'. by destruct Hdb'.
    + rewrite openDir_closeStore_ne in Hdb' by done.
      destruct (Hopen db' Hdb') as [?|(k & ts & ?)]; [by left|].
      right. exists k, ts. by destruct k.
Qed.

Lemma registries_wf_closeAndForget k ts w :
  registries_wf w → registries_wf (closeAndForget k ts w).
Proof.
  intros Hwf. unfold closeAndForget.
  destruct (registry k w !! ts) as [db|] eqn:Hdb; [|done]. cbv zeta.
  pose proof (registries_wf_closeStore db w Hwf) as Hwf1.
  assert (registry k (closeStore db w) !! ts = Some db) as Hdb1 by (by destruct k).
  pose proof (openDir_closeStore_eq db w) as Hclosed.
  revert Hwf1 Hdb1 Hclosed. generalize (closeStore db w). clear w Hwf Hdb.
  intros w (Hfresh & Hperm & Hreg & Hinj & Hopen) Hdb Hclosed.
  assert (∀ k' ts' db', registry k' (set_registry k (base.delete ts (registry k w)) w)
                          !! ts' = Some db' →
                        registry k' w !! ts' = Some db' ∧ (k', ts') ≠ (k, ts)) as Hsub.
  { intros k' ts' db'. rewrite registry_set_registry. case_decide as Hk.
    - subst k'. intros [Hts ?]%lookup_delete_Some. split; [done|congruence].
    - intros ?. split; [done|congruence]. }
  unfold registries_wf.
  replace (handles (set_registry k (base.delete ts (registry k w)) w))
    with (handles w) by (by destruct k).
  replace (nextHandle (set_registry k (base.delete ts (registry k w)) w))
    with (nextHandle w) by (by destruct k).
  split; [done|]. split; [done|]. split; [|split].
  - intros k' ts' db' [Hdb' _]%Hsub. by apply Hreg.
  - intros k1 ts1 k2 ts2 db' [H1 _]%Hsub [H2 _]%Hsub. by eapply Hinj.
  - intros db' Hdb'.
    assert (is_Some (openDir db' w)) as Hdbw.
    { revert Hdb'. unfold openDir. by destruct k. }
    destruct (Hopen db' Hdbw) as [?|(k' & ts' & Hreg')]; [by left|].
    right. exists k', ts'. rewrite registry_set_registry. case_decide as Hk; [|done].
    subst k'. rewrite lookup_delete_ne; [done|]. intros <-.
    assert (db' = db) as -> by congruence.
    rewrite Hclosed in Hdbw. by destruct Hdbw.
Qed.

Lemma registries_wf_closeAll (l : list (string * nat)) w :
  registries_wf w → registries_wf (foldl (λ w kv, closeStore kv.2 w) w l).
Proof.
  revert w. induction l as [|kv l IH]; intros w Hwf; [done|].
  simpl. by apply IH, registries_wf_closeStore.
Qed.

Lemma registries_wf_onSIGINT w : registries_wf w → registries_wf (onSIGINT w).
Proof.
  intros Hwf. unfold onSIGINT. by do 3 apply registries_wf_closeAll.
Qed.

Lemma registries_wf_onDisconnect documentName w :
  registries_wf w → registries_wf (onDisconnect documentName w).2.
Proof.
  intros Hwf. destruct (parseDocumentName documentName) as [p|] eqn:Hp.
  - destruct (decide (type p = "doclog")) as [Hty|Hty].
    + rewrite (onDisconnect_blocks _ p) by done. cbn [snd].
      by do 3 apply registries_wf_closeAndForget.
    + unfold onDisconnect. rewrite Hp. by rewrite decide_False.
  - unfold onDisconnect. by rewrite Hp.
Qed.

(** The stores after [onLoadDocument] are those of the state it was called
    in, after the lookups of the branch taken. *)
Lemma onLoadDocument_stores token document documentName w :
  let w' := (onLoadDocument token document documentName w).2 in
  sameStores w w'
  ∨ (∃ p, parseDocumentName documentName = Some p
          ∧ (type p = "thought" ∨ type p = "lexeme")
          ∧ sameStores (openOrReuse contentStore (tsid p) w).2 w')
  ∨ (∃ p, parseDocumentName documentName = Some p
          ∧ type p = "doclog"
          ∧ sameStores
              (openOrReuse cursorStore (tsid p)
                 (openOrReuse doclogStore (tsid p) w).2).2 w').
Proof.
  intros w'. subst w'. unfold onLoadDocument.
  destruct (parseDocumentName documentName) as [p|]; [|by left].
  destruct (getMap (permissionsServerDoc w) (tsid p) !! token) as [perm|]; [|by left].
  case_decide; [by left|].
  case_decide.
  { left. destruct (getYDoc _ w) as [cid|]; [|done]. cbn [snd].
    etrans; [apply sameStores_copy|]. unfold observe. apply sameStores_setDoc. }
  case_decide as Hty.
  { right. left. exists p. split; [done|]. split; [done|].
    rewrite thoughtspaceDb_openOrReuse.
    destruct (openOrReuse contentStore (tsid p) w) as [db w1]. cbn [snd].
    apply sameStores_bindState. }
  case_decide; [|by left].
  right. right. exists p. split; [done|]. split; [done|].
  rewrite doclogDb_openOrReuse.
  destruct (openOrReuse doclogStore (tsid p) w) as [db w1]. cbn [snd].
  rewrite replicationCursorDb_openOrReuse.
  destruct (openOrReuse cursorStore (tsid p) w1) as [cdb w2]. cbn [snd].
  pose proof (sameStores_bindState db documentName (hosted document) w2) as Hb.
  destruct (bindState db documentName (hosted document) w2) as [[[]|err] w3];
    cbn [snd] in *; [|done].
  etrans; [apply Hb|]. done.
Qed.

Lemma registries_wf_onLoadDocument token document documentName w :
  registries_wf w → registries_wf (onLoadDocument token document documentName w).2.
Proof.
  intros Hwf.
  destruct (onLoadDocument_stores token document documentName w)
    as [Hs|[(p & _ & _ & Hs)|(p & _ & _ & Hs)]];
    (eapply registries_wf_sameStores; [apply Hs|]); [done|..];
    by repeat apply registries_wf_openOrReuse.
Qed.

Lemma registries_wf_step p e q :
  step p e q → registries_wf (world p) → registries_wf (world q).
Proof.
  intros Hstep Hwf. destruct Hstep; cbn [world] in *.
  - eapply registries_wf_sameStores; [|done].
    etrans; [by eapply sameStores_bindState_read|by eapply sameStores_storeUpdate].
  - done.
  - eapply registries_wf_sameStores; [|done]. apply sameStores_bindState_merge.
  - by eapply registries_wf_ext.
  - eapply registries_wf_sameStores; [|done]. apply sameStores_onAuthenticate.
  - by apply registries_wf_onLoadDocument.
  - by apply registries_wf_onDisconnect.
  - by eapply registries_wf_ext.
  - by eapply registries_wf_ext.
  - eapply registries_wf_sameStores; [|done]. apply sameStores_applyUpdate.
  - eapply registries_wf_sameStores; [|done]. apply sameStores_clientMap_set.
  - eapply registries_wf_sameStores; [|done]. apply sameStores_clientMap_delete.
  - eapply registries_wf_sameStores; [|done]. apply sameStores_next.
  - by apply registries_wf_onSIGINT.
Qed.

Lemma registries_wf_steps p tr q :
  steps p tr q → registries_wf (world p) → registries_wf (world q).
Proof.
  induction 1 as [|p e q tr r Hstep _ IH]; [done|].
  intros Hwf. by eapply IH, registries_wf_step.
Qed.

Lemma openOrReuse_mono k ts w k' ts' db :
  registry k' w !! ts' = Some db →
  registry k' (openOrReuse k ts w).2 !! ts' = Some db.
Proof.
  intros Hdb. destruct (registry k w !! ts) as [db0|] eqn:Hk.
  { by rewrite (openOrReuse_hit k ts w db0). }
  destruct (openOrReuse_miss k ts w Hk) as (_ & _ & _ & Hr & _).
  rewrite Hr. case_decide; [|done]. subst k'.
  rewrite lookup_insert_ne; [done|]. intros <-. congruence.
Qed.

Lemma openOrReuse_new k ts w db' :
  (nextHandle w ≤ db' < nextHandle (openOrReuse k ts w).2)%nat →
  registry k w !! ts = None ∧ registry k (openOrReuse k ts w).2 !! ts = Some db'.
Proof.
  intros Hdb'. destruct (registry k w !! ts) as [db0|] eqn:Hk.
  { rewrite (openOrReuse_hit k ts w db0) in Hdb' by done. simpl in Hdb'. lia. }
  destruct (openOrReuse_miss k ts w Hk) as (_ & _ & Hn & Hr & _).
  split; [done|]. rewrite Hr, decide_True by done.
  rewrite lookup_insert_eq. f_equal. lia.
Qed.

Lemma openOrReuse_other k ts w k' :
  k' ≠ k → registry k' (openOrReuse k ts w).2 = registry k' w.
Proof.
  intros Hne. destruct (registry k w !! ts) as [db0|] eqn:Hk.
  { by rewrite (openOrReuse_hit k ts w db0). }
  destruct (openOrReuse_miss k ts w Hk) as (_ & _ & _ & Hr & _).
  by rewrite Hr, decide_False.
Qed.

Lemma openOrReuse_nextHandle k ts w :
  (nextHandle w ≤ nextHandle (openOrReuse k ts w).2)%nat.
Proof.
  destruct (registry k w !! ts) as [db0|] eqn:Hk.
  { by rewrite (openOrReuse_hit k ts w db0). }
  destruct (openOrReuse_miss k ts w Hk) as (_ & _ & -> & _). lia.
Qed.

(** C6. In every state that the server process reaches, each open store
    other than [ldbPermissions] is held by one entry of one registry and by
    no other, so that a tenant has at most one open store of a kind, and the
    store held for a tenant is numbered below the counter and lies over the
    directory of the tenant for the kind. [onLoadDocument] keeps the entry
    that a registry has for the tenant, and a store that it constructs is
    registered for the tenant in a registry of another kind, which had no
    entry for the tenant. The store of an entry is the one that a load
    uses: when the content registry has an entry for the tenant, the load
    of a thought or lexeme document by an owner is the binding of the
    document to the store of this entry, and constructs no store; when the
    doclog registry has an entry for the tenant, the load of a doclog
    document by an owner binds the document to the store of this entry;
    when the cursor registry has an entry for the tenant, the controller of
    the load gets the store of this entry; and when both have, the load
    constructs no store. *)
Theorem store_handles_singleton :
  (∀ clk dsk tr p, steps (main clk dsk) tr p →
     (∀ db, is_Some (openDir db (world p)) → db ≠ ldbPermissions →
        ∃ k ts, registry k (world p) !! ts = Some db
                ∧ ∀ k' ts', registry k' (world p) !! ts' = Some db →
                            k' = k ∧ ts' = ts)
     ∧ (∀ k ts db, registry k (world p) !! ts = Some db →
          (db < nextHandle (world p))%nat
          ∧ ∃ st, handles (world p) !! db = Some st
                  ∧ dir st = path_join (basePath k) ts))
  ∧ (∀ token document documentName p w k db,
       parseDocumentName documentName = Some p →
       registry k w !! tsid p = Some db →
       registry k (onLoadDocument token document documentName w).2 !! tsid p = Some db
       ∧ ∀ db', (nextHandle w ≤ db'
                 < nextHandle (onLoadDocument token document documentName w).2)%nat →
           ∃ k', k' ≠ k
                 ∧ registry k' w !! tsid p = None
                 ∧ registry k' (onLoadDocument token document documentName w).2
                     !! tsid p = Some db')
  ∧ (∀ token document documentName p w db,
       parseDocumentName documentName = Some p →
       type p = "thought" ∨ type p = "lexeme" →
       role <$> getMap (permissionsServerDoc w) (tsid p) !! token = Some "owner" →
       ldbThoughtspaces w !! tsid p = Some db →
       onLoadDocument token document documentName w
       = bindState db documentName (hosted document) w
       ∧ handles (onLoadDocument token document documentName w).2 = handles w
       ∧ nextHandle (onLoadDocument token document documentName w).2 = nextHandle w)
  ∧ (∀ token document documentName p w db,
       parseDocumentName documentName = Some p →
       type p = "doclog" →
       role <$> getMap (permissionsServerDoc w) (tsid p) !! token = Some "owner" →
       ldbDoclogs w !! tsid p = Some db →
       onLoadDocument token document documentName w
       = match bindState db documentName (hosted document)
                 (replicationCursorDb (tsid p) w).2 with
         | (Rejected e, w3) => (Rejected e, w3)
         | (Resolved _, w3) =>
             (Resolved (),
              replicationController
                (mkController document (tsid p) documentName
                   (replicationCursorDb (tsid p) w).1) w3)
         end)
  ∧ (∀ token document documentName p w cursorDb,
       parseDocumentName documentName = Some p →
       type p = "doclog" →
       role <$> getMap (permissionsServerDoc w) (tsid p) !! token = Some "owner" →
       ldbReplicationCursors w !! tsid p = Some cursorDb →
       onLoadDocument token document documentName w
       = match bindState (doclogDb (tsid p) w).1 documentName (hosted document)
                 (doclogDb (tsid p) w).2 with
         | (Rejected e, w3) => (Rejected e, w3)
         | (Resolved _, w3) =>
             (Resolved (),
              replicationController
                (mkController document (tsid p) documentName cursorDb) w3)
         end)
  ∧ (∀ token document documentName p w db cursorDb,
       parseDocumentName documentName = Some p →
       type p = "doclog" →
       ldbDoclogs w !! tsid p = Some db →
       ldbReplicationCursors w !! tsid p = Some cursorDb →
       handles (onLoadDocument token document documentName w).2 = handles w
       ∧ nextHandle (onLoadDocument token document documentName w).2 = nextHandle w).
Proof.
  split; [|split; [|split; [|split; [|split]]]].
  - intros clk dsk tr p Hsteps.
    assert (registries_wf (world p)) as (Hfresh & Hperm & Hreg & Hinj & Hopen).
    { eapply registries_wf_steps; [done|]. unfold main. cbn [world].
      eapply registries_wf_ext; [..|apply (registries_wf_initial clk dsk)]; done. }
    split.
    + intros db Hdb Hne. destruct (Hopen db Hdb) as [?|(k & ts & Hk)]; [done|].
      exists k, ts. split; [done|]. intros k' ts' Hk'. by eapply Hinj.
    + intros k ts db Hdb. destruct (Hreg k ts db Hdb) as (_ & st & Hst & Hdir).
      split; [by eapply Hfresh|]. eauto.
  - intros token document documentName p w k db Hp Hdb.
    destruct (onLoadDocument_stores token document documentName w)
      as [Hs|[(p' & Hp' & _ & Hs)|(p' & Hp' & _ & Hs)]].
    + rewrite (registry_sameStores k _ _ Hs). split; [done|].
      destruct Hs as (_ & -> & _). intros db' ?. lia.
    + assert (p' = p) as -> by congruence.
      rewrite (registry_sameStores k _ _ Hs).
      split; [by apply openOrReuse_mono|].
      pose proof (λ k', registry_sameStores k' _ _ Hs) as Hrs.
      destruct Hs as (_ & -> & _). intros db' Hdb'.
      apply openOrReuse_new in Hdb' as [Hnone Hnew].
      exists contentStore. split; [intros <-; congruence|]. by rewrite Hrs.
    + assert (p' = p) as -> by congruence.
      rewrite (registry_sameStores k _ _ Hs).
      split; [by do 2 apply openOrReuse_mono|].
      pose proof (λ k', registry_sameStores k' _ _ Hs) as Hrs.
      intros db' Hdb'. destruct Hs as (_ & Hn & _). rewrite Hn in Hdb'.
      destruct (decide (db' < nextHandle (openOrReuse doclogStore (tsid p) w).2)%nat)
        as [Hlt|Hge].
      * assert (nextHandle w ≤ db'
                < nextHandle (openOrReuse doclogStore (tsid p) w).2)%nat as Hin by lia.
        apply openOrReuse_new in Hin as [Hnone Hnew].
        exists doclogStore. split; [intros <-; congruence|]. split; [done|].
        rewrite Hrs. by apply openOrReuse_mono.
      * assert (nextHandle (openOrReuse doclogStore (tsid p) w).2 ≤ db'
                < nextHandle (openOrReuse cursorStore (tsid p)
                                (openOrReuse doclogStore (tsid p) w).2).2)%nat
          as Hin by lia.
        apply openOrReuse_new in Hin as [Hnone Hnew].
        rewrite openOrReuse_other in Hnone by done.
        exists cursorStore. split; [intros <-; congruence|]. by rewrite Hrs.
  - intros token document documentName p w db Hp Hty Hrole Hdb.
    rewrite (onLoadDocument_content token document documentName p w) by done.
    rewrite (openOrReuse_hit contentStore (tsid p) w db) by done. cbn [fst snd].
    split; [done|].
    by destruct (sameStores_bindState db documentName (hosted document) w)
      as (-> & -> & _).
  - intros token document documentName p w db Hp Hty Hrole Hdb.
    rewrite (onLoadDocument_doclog token document documentName p w) by done.
    cbv zeta. rewrite (openOrReuse_hit doclogStore (tsid p) w db) by done.
    cbn [fst snd]. by rewrite replicationCursorDb_openOrReuse.
  - intros token document documentName p w cursorDb Hp Hty Hrole Hdb.
    rewrite (onLoadDocument_doclog token document documentName p w) by done.
    cbv zeta. rewrite doclogDb_openOrReuse.
    rewrite (openOrReuse_hit cursorStore (tsid p)
               (openOrReuse doclogStore (tsid p) w).2 cursorDb); [done|].
    by rewrite openOrReuse_other.
  - intros token document documentName p w db cursorDb Hp Hty Hdb Hcdb.
    destruct (onLoadDocument_stores token document documentName w)
      as [Hs|[(p' & Hp' & Hty' & Hs)|(p' & Hp' & _ & Hs)]].
    + by destruct Hs as (-> & -> & _).
    + assert (p' = p) as -> by congruence. rewrite Hty in Hty'.
      by destruct Hty' as [?|?].
    + assert (p' = p) as -> by congruence.
      rewrite (openOrReuse_hit doclogStore (tsid p) w db) in Hs by done.
      cbn [snd] in Hs.
      rewrite (openOrReuse_hit cursorStore (tsid p) w cursorDb) in Hs by done.
      by destruct Hs as (-> & -> & _).
Qed.

(** *** The start of the server *)

Lemma listening_closeAll (l : list (string * nat)) w :
  listening (foldl (λ w kv, closeStore kv.2 w) w l) = listening w.
Proof.
  revert w. induction l as [|kv l IH]; intros w; [done|]. simpl. by rewrite IH.
Qed.

Lemma listening_onSIGINT w : listening (onSIGINT w) = listening w.
Proof. unfold onSIGINT. by rewrite !listening_closeAll. Qed.

(** The first events are those of the binding of [permissionsServerDoc]:
    every state has such a run, which ends with the server listening. *)
Lemma main_starts clk dsk :
  ∃ p, steps (main clk dsk) [EvPersistedRead; EvSynced; EvListen] p
       ∧ phase p = Serving ∧ listening (world p) = true.
Proof.
  set (w0 := console_info ["Loading permissions..."] (initialWorld clk dsk)).
  assert (openDir ldbPermissions w0 = Some (dbDir +:+ "/permissions")) as Hopen.
  { unfold openDir, w0. simpl. by rewrite lookup_singleton_eq. }
  destruct (bindState_resolves ldbPermissions "permissions" serverDoc _ w0 Hopen)
    as (w0' & w1 & Hread & _ & _ & Hwrite & _).
  eexists. split; [|split].
  - eapply steps_cons; [by eapply step_read|].
    eapply steps_cons; [apply step_synced|].
    eapply steps_cons; [apply step_listen|]. apply steps_nil.
  - done.
  - done.
Qed.

Lemma listen_needs_synced p tr q :
  steps p tr q →
  phase p = AwaitGetYDoc ∨ (∃ d, phase p = AwaitStoreUpdate d)
  ∨ (∃ e, phase p = Unsynced e) →
  ∀ i, tr !! i = Some EvListen → ∃ j, (j < i)%nat ∧ tr !! j = Some EvSynced.
Proof.
  induction 1 as [|p e q tr r Hstep _ IH]; intros Hph i Hi; [done|].
  assert (e = EvSynced
          ∨ (e ≠ EvListen
             ∧ (phase q = AwaitGetYDoc ∨ (∃ d, phase q = AwaitStoreUpdate d)
                ∨ (∃ e, phase q = Unsynced e)))) as [->|[Hne Hq]].
  { destruct Hstep; cbn [phase] in *; try (right; split; [done|]; eauto; done).
    - by left.
    - destruct Hph as [?|[[? ?]|[? ?]]]; done. }
  - destruct i as [|i]; [done|]. exists 0. split; [lia|done].
  - destruct i as [|i]; [simpl in Hi; congruence|].
    destruct (IH Hq i Hi) as (j & Hj & Htr). exists (S j). split; [lia|done].
Qed.

Lemma session_needs_listen p tr q :
  steps p tr q →
  listening (world p) = false →
  ∀ i e, tr !! i = Some e → isSessionEvent e = true →
         ∃ j, (j < i)%nat ∧ tr !! j = Some EvListen.
Proof.
  induction 1 as [|p e q tr r Hstep _ IH]; intros Hl i e' Hi He'; [done|].
  assert (e = EvListen ∨ (isSessionEvent e = false ∧ listening (world q) = false))
    as [->|[He Hq]].
  { destruct Hstep; cbn [world] in *; try congruence.
    - right. split; [done|].
      apply sameStores_storeUpdate in H0 as (_ & _ & _ & _ & _ & ->).
      by apply sameStores_bindState_read in H as (_ & _ & _ & _ & _ & ->).
    - by right.
    - right. split; [done|].
      destruct (sameStores_bindState_merge ldbPermissions "permissions" serverDoc
                  docPersisted w) as (_ & _ & _ & _ & _ & ->). done.
    - by left.
    - right. split; [done|]. by rewrite listening_onSIGINT. }
  - destruct i as [|i]; [simpl in Hi; by simplify_eq|].
    exists 0. split; [lia|done].
  - destruct i as [|i]; [simpl in Hi; congruence|].
    destruct (IH Hq i e' Hi He') as (j & Hj & Htr). exists (S j). split; [lia|done].
Qed.

(** The events of the sessions and SIGINT take nothing from the store of
    [permissionsServerDoc] and leave its subscriptions alone. *)
#[local] Instance sameServerDoc_refl : Reflexive sameServerDoc.
Proof. by intros w. Qed.

#[local] Instance sameServerDoc_trans : Transitive sameServerDoc.
Proof.
  intros w1 w2 w3 [Hs1 Hh1] [Hs2 Hh2]. split; [by etrans|congruence].
Qed.

Lemma sameServerDoc_eq w w' :
  permissionsServerDoc w' = permissionsServerDoc w → sameServerDoc w w'.
Proof. intros Heq. unfold sameServerDoc. by rewrite Heq. Qed.

Lemma sameServerDoc_storeUpdate db docName u w w' :
  storeUpdate db docName u w = Some w' → sameServerDoc w w'.
Proof. intros Hs. by apply storeUpdate_disk in Hs as [dsk ->]. Qed.

Lemma sameServerDoc_emitUpdate hs u w : sameServerDoc w (emitUpdate hs u w).
Proof. by destruct (emitUpdate_disk hs u w) as [dsk ->]. Qed.

Lemma sameServerDoc_serverWrites w w' : serverWrites w w' → sameServerDoc w w'.
Proof. intros Hw. by apply serverWrites_serverDoc in Hw as (? & ? & _). Qed.

Lemma sameServerDoc_applyUpdate n u w : sameServerDoc w (applyUpdate (hosted n) u w).
Proof.
  destruct (applyUpdate_notified (hosted n) u w) as (w2 & Hw2 & _ & ->).
  case_decide; [by apply sameServerDoc_eq|].
  etrans; [|apply sameServerDoc_emitUpdate].
  etrans; [|by apply sameServerDoc_serverWrites]. by apply sameServerDoc_eq.
Qed.

Lemma sameServerDoc_bindState db docName n w :
  sameServerDoc w (bindState db docName (hosted n) w).2.
Proof.
  unfold bindState. destruct (bindState_read db docName w) as [[dp w0]|] eqn:Hr; [|done].
  assert (sameServerDoc w w0) as H0.
  { by apply bindState_read_disk in Hr as [dsk ->]. }
  destruct (bindState_write db docName (hosted n) w0) as [w1|] eqn:Hw; [|done].
  cbn [snd]. etrans; [exact H0|]. etrans; [by eapply sameServerDoc_storeUpdate|].
  unfold bindState_merge, onUpdate.
  etrans; [apply sameServerDoc_applyUpdate|by apply sameServerDoc_eq].
Qed.

Lemma sameServerDoc_observeChange ts doc w kc : sameServerDoc w (observeChange ts doc w kc).
Proof. apply sameServerDoc_serverWrites, serverWrites_observeChange. Qed.

Lemma sameServerDoc_observeCallback ts doc keys w :
  sameServerDoc w (observeCallback ts doc keys w).
Proof. apply sameServerDoc_serverWrites, serverWrites_observeCallback. Qed.

Lemma sameServerDoc_notifyObservers doc keys w :
  sameServerDoc w (notifyObservers doc keys w).
Proof. apply sameServerDoc_serverWrites, serverWrites_notifyObservers. Qed.

Lemma sameServerDoc_clientMap_set doc key v w :
  sameServerDoc w (clientMap_set doc key v w).
Proof.
  unfold clientMap_set. etrans; [|apply sameServerDoc_emitUpdate].
  etrans; [|apply sameServerDoc_notifyObservers]. by apply sameServerDoc_eq.
Qed.

Lemma sameServerDoc_clientMap_delete doc key w :
  sameServerDoc w (clientMap_delete doc key w).
Proof.
  unfold clientMap_delete. destruct (getMap _ rootMap !! key); [|done].
  etrans; [|apply sameServerDoc_emitUpdate].
  etrans; [|apply sameServerDoc_notifyObservers]. by apply sameServerDoc_eq.
Qed.

Lemma sameServerDoc_copy doc (l : list (string * Share)) w :
  sameServerDoc w (foldl (λ w kv, clientMap_set doc kv.1 kv.2 w) w l).
Proof.
  revert w. induction l as [|kv l IH]; intros w; [done|].
  simpl. etrans; [apply sameServerDoc_clientMap_set|apply IH].
Qed.

Lemma sameServerDoc_onAuthenticate token documentName w :
  sameServerDoc w (onAuthenticate token documentName w).2.
Proof.
  unfold onAuthenticate. destruct (parseDocumentName documentName) as [p|]; [|done].
  destruct (decide (size _ = 0)); [|by case_decide].
  unfold log, timestamp, readClock. cbv beta iota zeta.
  case_decide; cbn [snd];
    (etrans; [|apply sameServerDoc_serverWrites, serverWrites_serverMap_set]);
    by apply sameServerDoc_eq.
Qed.

Lemma sameServerDoc_next c e w : sameServerDoc w (next c e w).2.
Proof.
  apply sameServerDoc_eq.
  unfold next. destruct (entryAction e); try done.
  destruct (ldbThoughtspaces _ !! ctlTsid c) as [db|]; [|done].
  destruct (clearDocument db _ _) as [w2|] eqn:Hc; [|done].
  unfold clearDocument in Hc. destruct (openDir db _); [|done].
  by injection Hc as <-.
Qed.

Lemma sameServerDoc_openOrReuse k ts w : sameServerDoc w (openOrReuse k ts w).2.
Proof.
  apply sameServerDoc_eq.
  unfold openOrReuse. destruct (registry k w !! ts); [done|]. by destruct k.
Qed.

Lemma sameServerDoc_closeAndForget k ts w : sameServerDoc w (closeAndForget k ts w).
Proof.
  apply sameServerDoc_eq.
  unfold closeAndForget. destruct (registry k w !! ts); [|done]. by destruct k.
Qed.

Lemma sameServerDoc_onDisconnect documentName w :
  sameServerDoc w (onDisconnect documentName w).2.
Proof.
  destruct (parseDocumentName documentName) as [p|] eqn:Hp.
  - destruct (decide (type p = "doclog")) as [Hty|Hty].
    + rewrite (onDisconnect_blocks _ p) by done. cbn [snd].
      etrans; [apply sameServerDoc_closeAndForget|].
      etrans; apply sameServerDoc_closeAndForget.
    + unfold onDisconnect. rewrite Hp. by rewrite decide_False.
  - unfold onDisconnect. by rewrite Hp.
Qed.

Lemma sameServerDoc_closeAll (l : list (string * nat)) w :
  sameServerDoc w (foldl (λ w kv, closeStore kv.2 w) w l).
Proof.
  revert w. induction l as [|kv l IH]; intros w; [done|].
  simpl. etrans; [|apply IH]. by apply sameServerDoc_eq.
Qed.

Lemma sameServerDoc_onSIGINT w : sameServerDoc w (onSIGINT w).
Proof.
  unfold onSIGINT. etrans; [apply sameServerDoc_closeAll|].
  etrans; apply sameServerDoc_closeAll.
Qed.

Lemma sameServerDoc_onLoadDocument token document documentName w :
  sameServerDoc w (onLoadDocument token document documentName w).2.
Proof.
  unfold onLoadDocument.
  destruct (parseDocumentName documentName) as [p|]; [|done].
  destruct (getMap (permissionsServerDoc w) (tsid p) !! token) as [perm|]; [|done].
  case_decide; [done|].
  case_decide.
  { destruct (getYDoc _ w) as [cid|]; [|done]. cbn [snd].
    etrans; [apply sameServerDoc_copy|]. by apply sameServerDoc_eq. }
  case_decide.
  { rewrite thoughtspaceDb_openOrReuse.
    pose proof (sameServerDoc_openOrReuse contentStore (tsid p) w) as Ho.
    destruct (openOrReuse contentStore (tsid p) w) as [db w1]. cbn [snd] in *.
    etrans; [apply Ho|apply sameServerDoc_bindState]. }
  case_decide; [|by apply sameServerDoc_eq].
  rewrite doclogDb_openOrReuse.
  pose proof (sameServerDoc_openOrReuse doclogStore (tsid p) w) as Ho1.
  destruct (openOrReuse doclogStore (tsid p) w) as [db w1]. cbn [snd] in *.
  rewrite replicationCursorDb_openOrReuse.
  pose proof (sameServerDoc_openOrReuse cursorStore (tsid p) w1) as Ho2.
  destruct (openOrReuse cursorStore (tsid p) w1) as [cdb w2]. cbn [snd] in *.
  pose proof (sameServerDoc_bindState db documentName document w2) as Hb.
  destruct (bindState db documentName (hosted document) w2) as [[[]|err] w3];
    cbn [snd] in *.
  - etrans; [apply Ho1|]. etrans; [apply Ho2|]. etrans; [apply Hb|].
    by apply sameServerDoc_eq.
  - etrans; [apply Ho1|]. etrans; [apply Ho2|]. apply Hb.
Qed.

Lemma closeAll_start_frame (l : list (string * nat)) w :
  disk (foldl (λ w kv, closeStore kv.2 w) w l) = disk w
  ∧ ∀ db, dir <$> handles (foldl (λ w kv, closeStore kv.2 w) w l) !! db
          = dir <$> handles w !! db.
Proof.
  revert w. induction l as [|kv l IH]; intros w; [done|].
  simpl. destruct (IH (closeStore kv.2 w)) as [-> Hdir]. split; [done|].
  intros db. rewrite Hdir. unfold closeStore. simpl.
  destruct (decide (kv.2 = db)) as [->|Hne].
  - rewrite lookup_alter_eq. by destruct (handles w !! db).
  - by rewrite lookup_alter_ne.
Qed.

Lemma onSIGINT_start_frame w :
  disk (onSIGINT w) = disk w
  ∧ ∀ db, dir <$> handles (onSIGINT w) !! db = dir <$> handles w !! db.
Proof.
  unfold onSIGINT.
  repeat match goal with
         | |- context [foldl ?f ?w0 ?l] =>
             destruct (closeAll_start_frame l w0) as [-> ?];
             generalize dependent (foldl f w0 l); intros
         end.
  split; [done|]. intros db. congruence.
Qed.

Lemma permissionsServerDoc_closeAll (l : list (string * nat)) w :
  permissionsServerDoc (foldl (λ w kv, closeStore kv.2 w) w l) = permissionsServerDoc w.
Proof.
  revert w. induction l as [|kv l IH]; intros w; [done|]. simpl. by rewrite IH.
Qed.

Lemma permissionsServerDoc_onSIGINT w :
  permissionsServerDoc (onSIGINT w) = permissionsServerDoc w.
Proof. unfold onSIGINT. by rewrite !permissionsServerDoc_closeAll. Qed.

Lemma startInvariant_main clk dsk : startInvariant dsk (main clk dsk).
Proof.
  unfold startInvariant, main, initialWorld. simpl.
  split; [done|]. split; [done|]. split; [|done]. by rewrite lookup_singleton_eq.
Qed.

Lemma startInvariant_step dsk p e q :
  step p e q → startInvariant dsk p → startInvariant dsk q.
Proof.
  intros Hstep Hinv.
  assert (∀ ph w w', startInvariant dsk (mkProcess ph w) → listening w = true →
            sameServerDoc w w' → startInvariant dsk (mkProcess ph w')) as Hsession.
  { intros ph w w' Hi Hl [Hst Hh]. unfold startInvariant in *. cbn [phase world] in *.
    destruct ph;
      [destruct Hi as (? & ? & ?); congruence | destruct Hi as [? ?]; congruence
      | destruct Hi as [? ?]; congruence | | congruence].
    destruct Hi as [Hsub Hin]. split; [by etrans|by rewrite Hh]. }
  destruct Hstep; try (by eapply Hsession; [done|done|
    first [apply sameServerDoc_onAuthenticate | apply sameServerDoc_onLoadDocument
          | apply sameServerDoc_onDisconnect | apply sameServerDoc_applyUpdate
          | apply sameServerDoc_clientMap_set | apply sameServerDoc_clientMap_delete
          | apply sameServerDoc_next | done]]).
  - unfold startInvariant in *. cbn [phase world] in *.
    destruct Hinv as (Hl & Hdisk & Hdir & Hempty).
    destruct (bindState_read_disk _ _ _ _ _ H) as [dsk0 ->].
    destruct (storeUpdate_disk _ _ _ _ _ H0) as [dsk1 ->].
    split; [done|]. split; [|done].
    unfold bindState_read, getYDoc_db, openDir in H.
    destruct (handles w !! ldbPermissions) as [st|]; [|done].
    simpl in Hdir. destruct (isOpen st); [|done].
    injection H as <- _. injection Hdir as ->.
    unfold persistedPermissions, storedUpdates. by rewrite Hdisk.
  - unfold startInvariant in *. cbn [phase world] in *. by destruct Hinv.
  - unfold startInvariant in *. cbn [phase world] in *.
    destruct Hinv as (Hl & -> & Hempty).
    split.
    + by destruct (sameStores_bindState_merge ldbPermissions "permissions" serverDoc
                     (persistedPermissions dsk) w) as (_ & _ & _ & _ & _ & ->).
    + pose proof (bindState_merge_doc ldbPermissions "permissions" serverDoc
                    (persistedPermissions dsk) w) as Hdoc.
      cbn [getDoc] in Hdoc. rewrite Hdoc. simpl. rewrite Hempty.
      split; [|apply union_empty_l_L].
      split; [apply union_subseteq_r|].
      apply elem_of_app. right. by apply list_elem_of_singleton.
  - unfold startInvariant in *. cbn [phase world] in *. by destruct Hinv as (_ & ? & _).
  - unfold startInvariant in *. cbn [phase world] in *.
    destruct (onSIGINT_start_frame w) as [Hdisk Hdir].
    rewrite listening_onSIGINT, Hdisk, Hdir, permissionsServerDoc_onSIGINT. done.
Qed.

Lemma startInvariant_steps dsk p tr q :
  steps p tr q → startInvariant dsk p → startInvariant dsk q.
Proof.
  induction 1 as [|p e q tr r Hstep _ IH]; [done|].
  intros Hinv. by eapply IH, startInvariant_step.
Qed.

Lemma steps_snoc_inv p tr e r :
  steps p (tr ++ [e]) r → ∃ q, steps p tr q ∧ step q e r.
Proof.
  revert p. induction tr as [|e' tr IH]; intros p Hsteps; simpl in Hsteps.
  - inversion Hsteps as [|? ? q ? ? Hstep Hrest]; subst.
    inversion Hrest; subst. exists p. split; [apply steps_nil|done].
  - inversion Hsteps as [|? ? q ? ? Hstep Hrest]; subst.
    destruct (IH _ Hrest) as (q' & Hq' & Hlast).
    exists q'. split; [by eapply steps_cons|done].
Qed.

(** An authentication finds the owners that the store of
    [permissionsServerDoc] holds: a token that is not an owner of a tenant
    that has shares is refused, and nothing is written. *)
Lemma onAuthenticate_refuses token documentName p w :
  parseDocumentName documentName = Some p →
  getMap (permissionsServerDoc w) (tsid p) ≠ ∅ →
  role <$> getMap (permissionsServerDoc w) (tsid p) !! token ≠ Some "owner" →
  onAuthenticate token documentName w = (Rejected (Err "Not authorized"), w).
Proof.
  intros Hp Hne Hrole. unfold onAuthenticate. rewrite Hp.
  destruct (decide (size (getMap (permissionsServerDoc w) (tsid p)) = 0)) as [Hs|Hs].
  - by apply getMap_empty_size in Hs.
  - by rewrite decide_True.
Qed.

(** C8. In every run of the server process, [server.listen()] comes after
    the event that resolves [bindState] for [permissionsServerDoc], and
    every event of a client session (an authentication, a load, a
    disconnection, an update) comes after [server.listen()]. In every
    state in which the server listens, [permissionsServerDoc] holds
    everything that the disk had for it when the process started and is
    subscribed to [ldbPermissions]. At the moment the server starts to
    listen, [permissionsServerDoc] holds exactly what the disk had: every
    permission map is the one that was persisted, so that a token that is
    not an owner of a tenant whose persisted map has shares is refused by
    the first authentication, which writes nothing: it cannot find the map
    empty and make itself the owner. *)
Theorem listen_after_permissions_synced (clk : nat → Timestamp)
    (dsk : gmap string (gmap string (list Update))) (tr : list Event) (p : Process) :
  steps (main clk dsk) tr p →
  let persisted := with_store (persistedPermissions dsk) newYDoc in
  (∀ i, tr !! i = Some EvListen → ∃ j, (j < i)%nat ∧ tr !! j = Some EvSynced)
  ∧ (∀ i e, tr !! i = Some e → isSessionEvent e = true →
       ∃ j, (j < i)%nat ∧ tr !! j = Some EvListen)
  ∧ (listening (world p) = true →
       phase p = Serving
       ∧ persistedPermissions dsk ⊆ store (permissionsServerDoc (world p))
       ∧ (ldbPermissions, "permissions")
           ∈ updateHandlers (permissionsServerDoc (world p)))
  ∧ (∀ tr0, tr = tr0 ++ [EvListen] →
       listening (world p) = true
       ∧ store (permissionsServerDoc (world p)) = persistedPermissions dsk
       ∧ (∀ ts, getMap (permissionsServerDoc (world p)) ts = getMap persisted ts)
       ∧ ∀ token documentName pn,
           parseDocumentName documentName = Some pn →
           getMap persisted (tsid pn) ≠ ∅ →
           role <$> getMap persisted (tsid pn) !! token ≠ Some "owner" →
           onAuthenticate token documentName (world p)
           = (Rejected (Err "Not authorized"), world p)).
Proof.
  intros Hsteps persisted.
  split; [eapply listen_needs_synced; [done|by left]|].
  split; [by eapply session_needs_listen|].
  split.
  - intros Hl.
    pose proof (startInvariant_steps dsk _ _ _ Hsteps (startInvariant_main clk dsk))
      as Hinv.
    unfold startInvariant in Hinv.
    destruct (phase p);
      [destruct Hinv as (? & ? & ?); congruence | destruct Hinv as [? ?]; congruence
      | destruct Hinv as [? ?]; congruence | | congruence].
    split; [done|]. exact Hinv.
  - intros tr0 ->. apply steps_snoc_inv in Hsteps as (q & Hq & Hlast).
    pose proof (startInvariant_steps dsk _ _ _ Hq (startInvariant_main clk dsk))
      as Hinv.
    inversion Hlast as [| | |w Hp Hw| | | | | | | | | |ph w Hp Hw]; subst.
    unfold startInvariant in Hinv. cbn [phase world] in *.
    destruct Hinv as (_ & _ & Hstore).
    assert (∀ ts, getMap (permissionsServerDoc (listen w)) ts = getMap persisted ts)
      as Hmaps.
    { intros ts. apply getMap_store. exact Hstore. }
    split; [done|]. split; [done|]. split; [done|].
    intros token documentName pn Hpn Hne Hrole.
    apply (onAuthenticate_refuses _ _ pn); [done|by rewrite Hmaps|by rewrite Hmaps].
Qed.

(** ** Further properties of the server *)

(** *** The mask of a token *)

Lemma substring_prefix s t : String.substring 0 (String.length s) (s +:+ t) = s.
Proof.
  induction s as [|c s IH]; simpl.
  - by destruct t.
  - by rewrite IH.
Qed.

Lemma substring_short s n : (String.length s ≤ n)%nat → String.substring 0 n s = s.
Proof.
  revert n. induction s as [|c s IH]; intros n Hn; simpl in *.
  - by destruct n.
  - destruct n as [|n]; [lia|]. rewrite IH; [done|lia].
Qed.

Lemma substring_length s n :
  (String.length (String.substring 0 n s) ≤ n)%nat.
Proof.
  revert n. induction s as [|c s IH]; intros n; simpl.
  - destruct n; simpl; lia.
  - destruct n as [|n]; simpl; [lia|]. specialize (IH n). lia.
Qed.

Lemma append_length s t :
  String.length (s +:+ t) = (String.length s + String.length t)%nat.
Proof. induction s as [|c s IH]; simpl; [done|]. by rewrite IH. Qed.

(** X1. [mask] shows the first n characters of a string and nothing of
    what follows them: whatever comes after a prefix of length n, the mask
    is that prefix and the ellipsis. A string of at most n characters is
    shown whole, and the mask is never longer than n + 3. *)
Theorem mask_shows_prefix_only (s t : string) (n : nat) :
  mask (s +:+ t) (String.length s) = s +:+ "..."
  ∧ ((String.length s ≤ n)%nat → mask s n = s +:+ "...")
  ∧ (String.length (mask s n) ≤ n + 3)%nat.
Proof.
  unfold mask. split; [|split].
  - by rewrite substring_prefix.
  - intros Hn. by rewrite substring_short.
  - rewrite append_length. pose proof (substring_length s n). simpl. lia.
Qed.

(** *** Tenants and the observer *)

Lemma observeChange_other_tenant ts ts' doc w kc :
  ts' ≠ ts →
  getMap (permissionsServerDoc (observeChange ts doc w kc)) ts'
  = getMap (permissionsServerDoc w) ts'.
Proof.
  intros Hne. unfold observeChange.
  destruct kc.2; try (by apply getMap_serverMap_delete_ne);
    (destruct (getMap _ rootMap !! kc.1); [|done]);
    (case_decide; [|done]); by apply getMap_serverMap_set_ne.
Qed.







(** *** Authentication and what follows it *)

Lemma onAuthenticate_maps token documentName p w :
  parseDocumentName documentName = Some p →
  let m := getMap (permissionsServerDoc w) (tsid p) in
  (m = ∅ →
     onAuthenticate token documentName w
     = (Resolved token, (onAuthenticate token documentName w).2)
     ∧ getMap (permissionsServerDoc (onAuthenticate token documentName w).2) (tsid p)
       = {[ token := mkShare (clock w (S (ticks w))) (clock w (S (S (ticks w))))
                       "Owner" "owner" ]}
     ∧ ∀ ts, ts ≠ tsid p →
         getMap (permissionsServerDoc (onAuthenticate token documentName w).2) ts
         = getMap (permissionsServerDoc w) ts)
  ∧ (m ≠ ∅ →
     (onAuthenticate token documentName w).2 = w
     ∧ (role <$> m !! token = Some "owner" →
          (onAuthenticate token documentName w).1 = Resolved token)
     ∧ (role <$> m !! token ≠ Some "owner" →
          (onAuthenticate token documentName w).1 = Rejected (Err "Not authorized"))).
Proof.
  intros Hp m. subst m. unfold onAuthenticate. rewrite Hp.
  destruct (decide (size (getMap (permissionsServerDoc w) (tsid p)) = 0)) as [Hs|Hs].
  - apply getMap_empty_size in Hs.
    unfold log, timestamp, readClock. cbv beta iota zeta.
    rewrite getMap_serverMap_set_eq, lookup_insert_eq.
    rewrite decide_False by (intros Hne; by apply Hne).
    cbn [fst snd].
    split; [|done]. intros _. split; [done|]. split.
    + rewrite getMap_serverMap_set_eq. unfold console_info. simpl.
      by rewrite Hs, insert_empty.
    + intros ts Hts. by rewrite getMap_serverMap_set_ne.
  - rewrite getMap_empty_size in Hs.
    split; [done|]. intros _. split; [by case_decide|]. split; intros Hrole.
    + rewrite decide_False; [done|]. intros Hne. by apply Hne.
    + by rewrite decide_True.
Qed.

(** X4. When [onAuthenticate] resolves, the state it leaves lets the
    token through the gate of [onLoadDocument] (line 124): the token holds
    a share with the role owner in the map of the tenant. The same token
    then authenticates again without any change of the state. Whether it
    resolves or rejects, [onAuthenticate] keeps every share that any
    tenant had. *)
Theorem onAuthenticate_then_owner (token documentName : string)
    (p : DocumentNameParts) (w : World) :
  parseDocumentName documentName = Some p →
  let w' := (onAuthenticate token documentName w).2 in
  ((onAuthenticate token documentName w).1 = Resolved token →
     role <$> getMap (permissionsServerDoc w') (tsid p) !! token = Some "owner"
     ∧ onAuthenticate token documentName w' = (Resolved token, w'))
  ∧ (∀ ts t s, getMap (permissionsServerDoc w) ts !! t = Some s →
       getMap (permissionsServerDoc w') ts !! t = Some s).
Proof.
  intros Hp w'. subst w'.
  destruct (onAuthenticate_maps token documentName p w Hp) as [Hempty Hfull].
  destruct (decide (getMap (permissionsServerDoc w) (tsid p) = ∅)) as [He|He].
  - destruct (Hempty He) as (Hres & Hmap & Hothers).
    assert (role <$> getMap (permissionsServerDoc (onAuthenticate token documentName w).2)
                       (tsid p) !! token = Some "owner") as Hrole.
    { by rewrite Hmap, lookup_singleton_eq. }
    split.
    + intros _. split; [done|].
      destruct (onAuthenticate_maps token documentName p
                  (onAuthenticate token documentName w).2 Hp) as [_ Hfull'].
      destruct Hfull' as (Hsame & Hok & _).
      { rewrite Hmap. apply insert_non_empty. }
      rewrite (surjective_pairing
                 (onAuthenticate token documentName
                    (onAuthenticate token documentName w).2)).
      by rewrite Hsame, (Hok Hrole).
    + intros ts t s Hs. destruct (decide (ts = tsid p)) as [->|Hne].
      * rewrite He in Hs. by rewrite lookup_empty in Hs.
      * by rewrite Hothers.
  - destruct (Hfull He) as (Hsame & Hok & Hrej).
    split.
    + intros Hres. rewrite Hsame.
      destruct (decide (role <$> getMap (permissionsServerDoc w) (tsid p) !! token
                        = Some "owner")) as [Hrole|Hrole].
      * split; [done|].
        rewrite (surjective_pairing (onAuthenticate token documentName w)).
        by rewrite Hsame, (Hok Hrole).
      * rewrite (Hrej Hrole) in Hres. done.
    + intros ts t s Hs. by rewrite Hsame.
Qed.

(** X5. The owner of a tenant is whoever authenticates first on an empty
    map, also after the map was emptied: when the only share of a tenant is
    removed through the client permission map, the observer empties the
    server map, and the next token to authenticate on the tenant, whichever
    it is, resolves and becomes the owner. *)
Theorem owner_replaced_after_removal (ts t u documentName : string) (s : Share)
    (permissionsClientDoc : nat) (p : DocumentNameParts) (w : World) :
  parseDocumentName documentName = Some p →
  tsid p = ts →
  getMap (permissionsServerDoc w) ts = {[ t := s ]} →
  let w1 := observeCallback ts permissionsClientDoc [(t, delete_)] w in
  getMap (permissionsServerDoc w1) ts = ∅
  ∧ (onAuthenticate u documentName w1).1 = Resolved u
  ∧ role <$> getMap (permissionsServerDoc (onAuthenticate u documentName w1).2) ts !! u
    = Some "owner"
  ∧ getMap (permissionsServerDoc (onAuthenticate u documentName w1).2) ts !! t
    = (if decide (t = u) then
         Some (mkShare (clock w (S (ticks w))) (clock w (S (S (ticks w))))
                 "Owner" "owner")
       else None).
Proof.
  intros Hp Hts Hmap w1. subst w1 ts.
  change (observeCallback (tsid p) permissionsClientDoc [(t, delete_)] w)
    with (serverMap_delete (tsid p) t w).
  assert (getMap (permissionsServerDoc (serverMap_delete (tsid p) t w)) (tsid p) = ∅)
    as Hempty.
  { rewrite getMap_serverMap_delete_eq, Hmap. apply delete_singleton_eq. }
  split; [done|].
  destruct (onAuthenticate_maps u documentName p (serverMap_delete (tsid p) t w) Hp)
    as [Hnew _].
  destruct (Hnew Hempty) as (Hres & Hmap' & _).
  split; [by rewrite Hres|]. rewrite Hmap'.
  destruct (serverWrites_frame _ _ (serverWrites_serverMap_delete (tsid p) t w))
    as (_ & _ & _ & _ & -> & ->).
  split.
  - by rewrite lookup_singleton_eq.
  - case_decide as Htu.
    + subst u. by rewrite lookup_singleton_eq.
    + by rewrite lookup_singleton_ne.
Qed.

(** *** The seeding of the client permission map *)

#[local] Instance onlyDocs_refl : Reflexive onlyDocs.
Proof. by intros w. Qed.

#[local] Instance onlyDocs_trans : Transitive onlyDocs.
Proof.
  intros w1 w2 w3 (? & ? & ? & ? & ? & ?) (? & ? & ? & ? & ? & ?).
  split; [by etrans|]. repeat split; congruence.
Qed.

#[local] Instance onlyDocsDisk_refl : Reflexive onlyDocsDisk.
Proof. by intros w. Qed.

#[local] Instance onlyDocsDisk_trans : Transitive onlyDocsDisk.
Proof.
  intros w1 w2 w3 (? & ? & ? & ? & ? & Hp) (? & ? & ? & ? & ? & Hp').
  split; [by etrans|]. split; [congruence|]. split; [congruence|].
  split; [congruence|]. split; [congruence|].
  intros d n. etrans; [apply Hp|apply Hp'].
Qed.

Lemma onlyDocsDisk_serverWrites w w' : serverWrites w w' → onlyDocsDisk w w'.
Proof.
  intros Hw. destruct (serverWrites_frame _ _ Hw) as (? & ? & ? & ? & ? & _).
  repeat (split; [done|]). intros d n. by apply serverWrites_prefix.
Qed.

Lemma onlyDocsDisk_setDoc doc d w : onlyDocsDisk w (setDoc doc d w).
Proof. by destruct doc. Qed.

Lemma onlyDocsDisk_emitUpdate hs u w : onlyDocsDisk w (emitUpdate hs u w).
Proof.
  pose proof (emitUpdate_prefix hs u w) as Hpre.
  destruct (emitUpdate_disk hs u w) as [dsk Heq]. rewrite Heq in *.
  repeat (split; [done|]). exact Hpre.
Qed.

Lemma onlyDocs_same_disk w w' : onlyDocsDisk w w' → disk w' = disk w → onlyDocs w w'.
Proof. intros (? & ? & ? & ? & ? & _) ?. done. Qed.

(** The observer does nothing for a key set to a share that has the name
    and the role of the server share. *)
Lemma observeChange_agreeing ts doc w key change c s :
  change ≠ delete_ →
  getMap (getDoc (hosted doc) w) rootMap !! key = Some c →
  getMap (permissionsServerDoc w) ts !! key = Some s →
  name c = name s → role c = role s →
  observeChange ts doc w (key, change) = w.
Proof.
  intros Hch Hc Hs Hn Hr. unfold observeChange. cbn [fst snd].
  rewrite Hc, Hs. cbn [fmap option_fmap option_map].
  rewrite decide_False by (rewrite Hn, Hr; intros [?|?]; congruence).
  by destruct change.
Qed.

Lemma notify_seed ts doc key change v (obs : list string) w :
  change ≠ delete_ →
  getMap (getDoc (hosted doc) w) rootMap !! key = Some v →
  getMap (permissionsServerDoc w) ts !! key = Some v →
  let w' := foldl (λ w ts', observeCallback ts' doc [(key, change)] w) w obs in
  serverWrites w w'
  ∧ getMap (permissionsServerDoc w') ts = getMap (permissionsServerDoc w) ts
  ∧ ((∀ ts', ts' ∈ obs → ts' = ts) → w' = w).
Proof.
  intros Hch. revert w. induction obs as [|ts' obs IH]; intros w Hc Hs; [done|].
  cbn [foldl].
  change (observeCallback ts' doc [(key, change)] w)
    with (observeChange ts' doc w (key, change)).
  destruct (decide (ts' = ts)) as [->|Hne].
  - rewrite (observeChange_agreeing ts doc w key change v v) by done.
    destruct (IH w Hc Hs) as (Hw & Hm & Hsame).
    split; [done|]. split; [done|].
    intros Hall. apply Hsame. intros ts' Hin. apply Hall. by right.
  - pose proof (serverWrites_observeChange ts' doc w (key, change)) as Hw1.
    pose proof (observeChange_other_tenant ts' ts doc w (key, change)) as Hmap.
    destruct (IH (observeChange ts' doc w (key, change))) as (Hw & Hm & _).
    + by rewrite (serverWrites_hosted _ _ doc Hw1).
    + rewrite Hmap by done. done.
    + split; [by etrans|]. split; [rewrite Hm; by apply Hmap|].
      intros Hall. destruct Hne. apply Hall. by left.
Qed.

Lemma clientMap_set_seed ts doc key v w :
  getMap (permissionsServerDoc w) ts !! key = Some v →
  let d := getDoc (hosted doc) w in
  getMap (permissionsServerDoc (clientMap_set doc key v w)) ts
  = getMap (permissionsServerDoc w) ts
  ∧ getDoc (hosted doc) (clientMap_set doc key v w)
    = with_store (store d ∪ mapSet_update d rootMap key v) d
  ∧ onlyDocsDisk w (clientMap_set doc key v w)
  ∧ (updateHandlers d = [] → (∀ ts', ts' ∈ observers d → ts' = ts) →
     disk (clientMap_set doc key v w) = disk w).
Proof.
  intros Hs d. unfold clientMap_set, notifyObservers. fold d.
  set (change := match getMap d rootMap !! key with Some _ => update | None => add end).
  set (u := mapSet_update d rootMap key v).
  set (w1 := setDoc (hosted doc) (with_store (store d ∪ u) d) w).
  assert (getDoc (hosted doc) w1 = with_store (store d ∪ u) d) as Hd1
    by apply getDoc_setDoc.
  assert (change ≠ delete_) as Hch.
  { unfold change. by destruct (getMap d rootMap !! key). }
  destruct (notify_seed ts doc key change v (observers (getDoc (hosted doc) w1)) w1 Hch)
    as (Hw & Hm & Hsame).
  - rewrite Hd1. unfold u. by rewrite getMap_set_eq, lookup_insert_eq.
  - done.
  - set (w2 := foldl (λ w ts', observeCallback ts' doc [(key, change)] w) w1
                 (observers (getDoc (hosted doc) w1))) in *.
    destruct (emitUpdate_frame (updateHandlers d) u w2)
      as (_ & _ & Hpsd & Hheap & _).
    split; [by rewrite Hpsd, Hm|]. split.
    + unfold getDoc at 1. rewrite Hheap.
      change (default newYDoc (heap w2 !! doc)) with (getDoc (hosted doc) w2).
      by rewrite (serverWrites_hosted _ _ doc Hw).
    + split.
      * etrans; [apply (onlyDocsDisk_setDoc (hosted doc))|].
        etrans; [by apply onlyDocsDisk_serverWrites|apply onlyDocsDisk_emitUpdate].
      * intros Hh Hobs. rewrite Hh. simpl. rewrite Hsame; [done|].
        rewrite Hd1. exact Hobs.
Qed.

Lemma insertAll_lookup (l : list (string * Share)) (m : gmap string Share) key :
  NoDup l.*1 →
  foldl (λ m kv, <[kv.1 := kv.2]> m) m l !! key
  = match (list_to_map l : gmap string Share) !! key with
    | Some v => Some v
    | None => m !! key
    end.
Proof.
  revert m. induction l as [|[k v] l IH]; intros m Hnd; [done|].
  apply NoDup_cons in Hnd as [Hk Hnd]. cbn [foldl fst snd fmap list_fmap] in *.
  rewrite IH by done. cbn [list_to_map foldr fst snd uncurry].
  destruct (decide (k = key)) as [->|Hne].
  - rewrite (not_elem_of_list_to_map_1 _ key) by done.
    by rewrite !lookup_insert_eq.
  - by rewrite !lookup_insert_ne.
Qed.

Lemma copy_seed ts doc (l : list (string * Share)) w :
  (∀ kv, kv ∈ l → getMap (permissionsServerDoc w) ts !! kv.1 = Some kv.2) →
  let w' := foldl (λ w kv, clientMap_set doc kv.1 kv.2 w) w l in
  getMap (permissionsServerDoc w') ts = getMap (permissionsServerDoc w) ts
  ∧ getMap (getDoc (hosted doc) w') rootMap
    = foldl (λ m kv, <[kv.1 := kv.2]> m) (getMap (getDoc (hosted doc) w) rootMap) l
  ∧ observers (getDoc (hosted doc) w') = observers (getDoc (hosted doc) w)
  ∧ updateHandlers (getDoc (hosted doc) w') = updateHandlers (getDoc (hosted doc) w)
  ∧ onlyDocsDisk w w'
  ∧ (updateHandlers (getDoc (hosted doc) w) = [] →
     (∀ ts', ts' ∈ observers (getDoc (hosted doc) w) → ts' = ts) →
     disk w' = disk w).
Proof.
  revert w. induction l as [|kv l IH]; intros w Hl w'; [done|].
  subst w'. cbn [foldl].
  destruct (clientMap_set_seed ts doc kv.1 kv.2 w) as (Hm & Hd & Ho & Hdisk).
  { apply Hl. by left. }
  destruct (IH (clientMap_set doc kv.1 kv.2 w))
    as (Hm' & Hroot & Hobs & Hupd & Ho' & Hdisk').
  { intros kv' Hin. rewrite Hm. apply Hl. by right. }
  rewrite Hm', Hroot, Hobs, Hupd, Hd, getMap_set_eq.
  repeat (split; [done|]). split; [by etrans|].
  intros Hh Hown. rewrite Hdisk'.
  - by apply Hdisk.
  - by rewrite Hd.
  - by rewrite Hd.
Qed.

(** X3. The load of a permissions document by an owner, when the client
    permission document of the tenant is hosted: the call resolves; the
    root map of the client document gets every share of the server map of
    the tenant and keeps its other entries; the server map of the tenant is
    not changed by the seeding, whatever observers the client document
    already has; the observer of the tenant is added after them; no store
    is opened, no controller is installed, nothing is logged, and the disk
    only gets updates appended. When the client document is bound to no
    store and has no observer of another tenant, nothing is written to the
    disk. *)
Theorem onLoadDocument_seeds_client (token : string) (document : nat)
    (documentName : string) (p : DocumentNameParts) (permissionsClientDoc : nat)
    (w : World) :
  parseDocumentName documentName = Some p →
  type p = "permissions" →
  role <$> getMap (permissionsServerDoc w) (tsid p) !! token = Some "owner" →
  getYDoc (encodePermissionsDocumentName (tsid p)) w = Some permissionsClientDoc →
  let w' := (onLoadDocument token document documentName w).2 in
  (onLoadDocument token document documentName w).1 = Resolved ()
  ∧ (∀ key,
       getMap (getDoc (hosted permissionsClientDoc) w') rootMap !! key
       = match getMap (permissionsServerDoc w) (tsid p) !! key with
         | Some s => Some s
         | None => getMap (getDoc (hosted permissionsClientDoc) w) rootMap !! key
         end)
  ∧ getMap (permissionsServerDoc w') (tsid p) = getMap (permissionsServerDoc w) (tsid p)
  ∧ observers (getDoc (hosted permissionsClientDoc) w')
    = observers (getDoc (hosted permissionsClientDoc) w) ++ [tsid p]
  ∧ onlyDocsDisk w w'
  ∧ (updateHandlers (getDoc (hosted permissionsClientDoc) w) = [] →
     (∀ ts, ts ∈ observers (getDoc (hosted permissionsClientDoc) w) → ts = tsid p) →
     onlyDocs w w').
Proof.
  intros Hp Hty Hrole Hdoc w'. subst w'. unfold onLoadDocument. rewrite Hp.
  destruct (getMap (permissionsServerDoc w) (tsid p) !! token) as [perm|] eqn:Htok;
    [|done].
  simpl in Hrole. rewrite decide_False by (intros Hne; apply Hne; congruence).
  rewrite decide_True by done. rewrite Hdoc. cbn [fst snd].
  destruct (copy_seed (tsid p) permissionsClientDoc
              (map_to_list (getMap (permissionsServerDoc w) (tsid p))) w)
    as (Hm & Hroot & Hobs & _ & Ho & Hdisk).
  { intros [k v] Hin. by apply elem_of_map_to_list in Hin. }
  set (w1 := foldl (λ w kv, clientMap_set permissionsClientDoc kv.1 kv.2 w) w
               (map_to_list (getMap (permissionsServerDoc w) (tsid p)))) in *.
  assert (onlyDocsDisk w (observe permissionsClientDoc (tsid p) w1)) as Hframe.
  { etrans; [apply Ho|]. apply onlyDocsDisk_setDoc. }
  unfold observe in *. rewrite getDoc_setDoc.
  split; [done|]. split; [|split; [|split; [|split; [done|]]]].
  - intros key.
    change (getMap (with_observers
                      (observers (getDoc (hosted permissionsClientDoc) w1) ++ [tsid p])
                      (getDoc (hosted permissionsClientDoc) w1)) rootMap)
      with (getMap (getDoc (hosted permissionsClientDoc) w1) rootMap).
    rewrite Hroot, insertAll_lookup by apply NoDup_fst_map_to_list.
    by rewrite list_to_map_to_list.
  - by rewrite <- Hm.
  - cbn [observers with_observers]. by rewrite Hobs.
  - intros Hh Hown. apply onlyDocs_same_disk; [done|].
    by rewrite <- (Hdisk Hh Hown).
Qed.

(** *** The delete handler, again *)

Lemma destroyDoc_destroyDoc n w :
  destroyDoc (hosted n) (destroyDoc (hosted n) w) = destroyDoc (hosted n) w.
Proof.
  unfold destroyDoc, setDoc, getDoc, set_heap. simpl.
  rewrite lookup_insert_eq. simpl. by rewrite insert_insert_eq.
Qed.

Lemma clearDocument_cleared db docName w w1 :
  clearDocument db docName w = Some w1 → clearDocument db docName w1 = Some w1.
Proof.
  unfold clearDocument. destruct (openDir db w) as [d|] eqn:Hd; [|done].
  intros [= <-].
  replace (openDir db (set_disk (<[d:=base.delete docName (default ∅ (disk w !! d))]>
                                   (disk w)) w)) with (Some d) by done.
  f_equal. unfold set_disk. simpl. f_equal.
  rewrite lookup_insert_eq. simpl. by rewrite delete_delete_eq, insert_insert_eq.
Qed.

(** X6. The delete handler is safe to repeat: when the same Delete entry
    is delivered twice, the second delivery leaves the disk and the hosted
    documents as the first one left them; and when the tenant has an open
    content store, the second delivery resolves and changes nothing at
    all. *)
Theorem next_delete_idempotent (c : Controller) (e : DocLogEntry) (w : World) :
  entryAction e = Delete →
  disk (next c e (next c e w).2).2 = disk (next c e w).2
  ∧ heap (next c e (next c e w).2).2 = heap (next c e w).2
  ∧ (∀ db d, ldbThoughtspaces w !! ctlTsid c = Some db → openDir db w = Some d →
       next c e (next c e w).2 = (Resolved (), (next c e w).2)).
Proof.
  intros Hdel. unfold next. rewrite Hdel.
  set (name_ := if decide (entryType e = "thought")
                then encodeThoughtDocumentName (ctlTsid c) (entryId e)
                else encodeLexemeDocumentName (ctlTsid c) (entryId e)).
  set (w1 := destroyDoc (hosted (ctlDoc c)) w).
  assert (ldbThoughtspaces w1 = ldbThoughtspaces w) as Hreg by done.
  assert (∀ db, openDir db w1 = openDir db w) as Hopen by done.
  rewrite Hreg.
  destruct (ldbThoughtspaces w !! ctlTsid c) as [db|] eqn:Hdb.
  - destruct (clearDocument db name_ w1) as [w2|] eqn:Hc; cbn [fst snd].
    + assert (destroyDoc (hosted (ctlDoc c)) w2 = w2) as Hd2.
      { unfold clearDocument in Hc. destruct (openDir db w1); [|done].
        injection Hc as <-.
        match goal with
        | |- destroyDoc _ (set_disk ?D w1) = _ =>
            transitivity (set_disk D (destroyDoc (hosted (ctlDoc c)) w1)); [done|]
        end.
        unfold w1. by rewrite destroyDoc_destroyDoc. }
      rewrite Hd2.
      assert (ldbThoughtspaces w2 !! ctlTsid c = Some db) as Hdb2.
      { unfold clearDocument in Hc. destruct (openDir db w1); [|done].
        by injection Hc as <-. }
      rewrite Hdb2, (clearDocument_cleared db name_ w1 w2 Hc). cbn [fst snd].
      done.
    + replace (ldbThoughtspaces (destroyDoc (hosted (ctlDoc c)) w1))
        with (ldbThoughtspaces w) by done.
      rewrite Hdb.
      assert (clearDocument db name_ (destroyDoc (hosted (ctlDoc c)) w1) = None) as Hc'.
      { unfold clearDocument in *.
        replace (openDir db (destroyDoc (hosted (ctlDoc c)) w1)) with (openDir db w1)
          by done.
        by destruct (openDir db w1). }
      rewrite Hc'. cbn [fst snd]. unfold w1 at 1 3. rewrite destroyDoc_destroyDoc.
      split; [done|]. split; [done|].
      intros db' d [= <-] Hd. unfold clearDocument in Hc. rewrite Hopen, Hd in Hc. done.
  - cbn [fst snd].
    replace (ldbThoughtspaces
               (destroyDoc (hosted (ctlDoc c))
                  (console_error ["LeveldbPersistence instance missing";
                                  ctlDocumentName c] w1)))
      with (ldbThoughtspaces w) by done.
    rewrite Hdb. cbn [fst snd]. split; [done|]. split; [|done].
    change (heap (destroyDoc (hosted (ctlDoc c)) w1) = heap w1).
    unfold w1. by rewrite destroyDoc_destroyDoc.
Qed.

(** *** What is bound is found again *)

Lemma union_list_prefix (l1 l2 : list Update) : l1 `prefix_of` l2 → ⋃ l1 ⊆ ⋃ l2.
Proof. intros [k ->]. rewrite union_list_app. apply union_subseteq_l. Qed.

(** An update that brings something new to a document is appended to the
    stored updates of every handler of the document whose store is open. *)
Lemma applyUpdate_appends doc db docName d u w :
  openDir db w = Some d →
  (db, docName) ∈ updateHandlers (getDoc doc w) →
  u ∖ store (getDoc doc w) ≠ ∅ →
  ∃ before,
    storedUpdates d docName (applyUpdate doc u w)
    = before ++ [u ∖ store (getDoc doc w)]
    ∧ storedUpdates d docName w `prefix_of` before.
Proof.
  intros Hd Hin Hnews.
  destruct (applyUpdate_notified doc u w) as (w2 & Hw2 & _ & ->).
  rewrite decide_False by done.
  destruct (emitUpdate_appends (updateHandlers (getDoc doc w)) db docName d
              (u ∖ store (getDoc doc w)) w2 Hin) as (before & Heq & Hpre).
  { rewrite <- Hd. apply openDir_handles.
    by rewrite (serverWrites_handles _ _ Hw2), handles_setDoc. }
  exists before. split; [done|].
  etrans; [|exact Hpre]. etrans; [|apply (serverWrites_prefix _ _ _ _ Hw2)].
  by rewrite storedUpdates_setDoc.
Qed.

Lemma applyUpdate_stored doc db docName d u w :
  openDir db w = Some d →
  (db, docName) ∈ updateHandlers (getDoc doc w) →
  u ∖ store (getDoc doc w) ⊆ ⋃ storedUpdates d docName (applyUpdate doc u w).
Proof.
  intros Hd Hin.
  destruct (decide (u ∖ store (getDoc doc w) = ∅)) as [Hnews|Hnews].
  - rewrite Hnews. apply empty_subseteq.
  - destruct (applyUpdate_appends doc db docName d u w Hd Hin Hnews)
      as (before & -> & _).
    rewrite union_list_app. simpl. apply union_subseteq_r', union_subseteq_l.
Qed.

(** X7. What a document bound to a store holds is found again: after
    [bindState] of a document on an open store, and after an update of
    that document, any document bound later to the same name of the same
    store resolves and holds what the first one had in memory, what was
    persisted before, and what the update brought. *)
Theorem bindState_round_trip (db : nat) (docName : string) (docA docB : DocRef)
    (d : string) (u : Update) (w : World) :
  openDir db w = Some d →
  let w1 := (bindState db docName docA w).2 in
  let w2 := applyUpdate docA u w1 in
  (bindState db docName docB w2).1 = Resolved ()
  ∧ store (getDoc docA w) ∪ ⋃ storedUpdates d docName w ∪ u
    ⊆ store (getDoc docB (bindState db docName docB w2).2).
Proof.
  intros Hd w1 w2.
  destruct (bindState_resolves db docName docA d w Hd)
    as (w0 & w0' & _ & Hat0 & _ & _ & Hat & Hdoc & [dsk0 Hshape] & Hbind & Hstore).
  assert (w1 = bindState_merge db docName docA (⋃ storedUpdates d docName w) w0')
    as Hw1 by (unfold w1; by rewrite Hbind).
  assert (openDir db w1 = Some d) as Hd1.
  { rewrite <- Hd. apply openDir_handles.
    by rewrite Hw1, bindState_merge_handles, Hshape. }
  assert (openDir db w2 = Some d) as Hd2.
  { rewrite <- Hd1. apply openDir_handles. apply applyUpdate_handles. }
  assert (store (getDoc docA w) ∪ ⋃ storedUpdates d docName w
          ⊆ ⋃ storedUpdates d docName w1) as Hfirst.
  { etrans; [|apply union_list_prefix; rewrite Hw1; apply bindState_merge_prefix].
    rewrite Hat, union_list_app, Hat0. simpl.
    apply union_least; [apply union_subseteq_r', union_subseteq_l|].
    apply union_subseteq_l'. case_decide; [|done]. simpl. apply union_subseteq_l. }
  assert (u ∖ store (getDoc docA w1) ⊆ ⋃ storedUpdates d docName w2) as Hnews.
  { eapply applyUpdate_stored; [done|].
    rewrite Hw1, bindState_merge_doc. simpl. apply elem_of_app. right.
    by apply list_elem_of_singleton. }
  assert (⋃ storedUpdates d docName w1 ⊆ ⋃ storedUpdates d docName w2) as Hgrow.
  { apply union_list_prefix, applyUpdate_prefix. }
  destruct (bindState_resolves db docName docB d w2 Hd2)
    as (w3 & w3' & _ & _ & _ & _ & _ & _ & _ & HbindB & HstoreB).
  split; [by rewrite HbindB|]. rewrite HstoreB.
  fold w1 in Hstore. rewrite Hstore in Hnews.
  intros x Hx. apply elem_of_union. right.
  destruct (decide (x ∈ store (getDoc docA w) ∪ ⋃ storedUpdates d docName w))
    as [Hin|Hout].
  - by apply Hgrow, Hfirst.
  - apply Hnews. apply elem_of_difference. split; [|done].
    by apply elem_of_union in Hx as [?|?].
Qed.

(** *** The interrupt signal *)

Lemma closeAll_effect (l : list (string * nat)) w :
  (∀ db, openDir db w = None ∨ db ∈ l.*2 →
         openDir db (foldl (λ w kv, closeStore kv.2 w) w l) = None)
  ∧ (∀ db, db ∉ l.*2 →
           handles (foldl (λ w kv, closeStore kv.2 w) w l) !! db = handles w !! db)
  ∧ (∀ k, registry k (foldl (λ w kv, closeStore kv.2 w) w l) = registry k w)
  ∧ onlyDocsStores w (foldl (λ w kv, closeStore kv.2 w) w l).
Proof.
  revert w. induction l as [|kv l IH]; intros w.
  { split; [|done]. intros db [?|Hin]; [done|]. by apply elem_of_nil in Hin. }
  cbn [foldl]. destruct (IH (closeStore kv.2 w)) as (Hclosed & Hother & Hreg & Hrest).
  split; [|split; [|split]].
  - intros db [Hnone|Hin].
    + apply Hclosed. left. by apply openDir_closeStore_None.
    + cbn [fmap list_fmap] in Hin. apply elem_of_cons in Hin as [->|Hin].
      * apply Hclosed. left. apply openDir_closeStore_eq.
      * apply Hclosed. by right.
  - intros db Hdb. cbn [fmap list_fmap] in Hdb. apply not_elem_of_cons in Hdb as [? ?].
    rewrite Hother by done. by apply handles_closeStore_ne.
  - intros k. rewrite Hreg. by destruct k.
  - destruct Hrest as (? & ? & ? & ? & ? & ? & ?). by repeat split.
Qed.

(** X10. The handler of SIGINT closes every store that a registry holds
    and nothing else: the registries keep their entries, a store that no
    registry holds ([ldbPermissions] is one) is left as it is, and the
    disk, the documents, the permission maps and the controllers are not
    touched. *)
Theorem onSIGINT_closes_registered (w : World) :
  (∀ k ts db, registry k w !! ts = Some db → openDir db (onSIGINT w) = None)
  ∧ (∀ k, registry k (onSIGINT w) = registry k w)
  ∧ (∀ db, (∀ k ts, registry k w !! ts ≠ Some db) →
       handles (onSIGINT w) !! db = handles w !! db)
  ∧ onlyDocsStores w (onSIGINT w).
Proof.
  unfold onSIGINT.
  set (w1 := foldl (λ w kv, closeStore kv.2 w) w (map_to_list (ldbThoughtspaces w))).
  set (w2 := foldl (λ w kv, closeStore kv.2 w) w1 (map_to_list (ldbDoclogs w1))).
  destruct (closeAll_effect (map_to_list (ldbThoughtspaces w)) w)
    as (Hc1 & Ho1 & Hr1 & Hf1).
  destruct (closeAll_effect (map_to_list (ldbDoclogs w1)) w1)
    as (Hc2 & Ho2 & Hr2 & Hf2).
  destruct (closeAll_effect (map_to_list (ldbReplicationCursors w2)) w2)
    as (Hc3 & Ho3 & Hr3 & Hf3).
  fold w1 in Hc1, Ho1, Hr1, Hf1. fold w2 in Hc2, Ho2, Hr2, Hf2.
  assert (∀ (m : gmap string nat) ts db, m !! ts = Some db → db ∈ (map_to_list m).*2)
    as Hin.
  { intros m ts db Hm. apply list_elem_of_fmap. exists (ts, db).
    split; [done|]. by apply elem_of_map_to_list. }
  assert (∀ (m : gmap string nat) db, db ∈ (map_to_list m).*2 → ∃ ts, m !! ts = Some db)
    as Hout.
  { intros m db ([ts db'] & -> & Hm)%list_elem_of_fmap.
    exists ts. by apply elem_of_map_to_list. }
  split; [|split; [|split]].
  - intros k ts db Hdb. destruct k; cbn [registry] in Hdb.
    + apply Hc3. left. apply Hc2. left. apply Hc1. right. by eapply Hin.
    + apply Hc3. left. apply Hc2. right. eapply Hin.
      specialize (Hr1 doclogStore). cbn [registry] in Hr1. by rewrite Hr1.
    + apply Hc3. right. eapply Hin.
      specialize (Hr2 cursorStore). specialize (Hr1 cursorStore).
      cbn [registry] in Hr1, Hr2. by rewrite Hr2, Hr1.
  - intros k. by rewrite Hr3, Hr2, Hr1.
  - intros db Hdb. rewrite Ho3, Ho2, Ho1; [done|..].
    + intros [ts Hts]%Hout. by apply (Hdb contentStore ts).
    + intros [ts Hts]%Hout. apply (Hdb doclogStore ts).
      specialize (Hr1 doclogStore). cbn [registry] in *. by rewrite <- Hr1.
    + intros [ts Hts]%Hout. apply (Hdb cursorStore ts).
      specialize (Hr2 cursorStore). specialize (Hr1 cursorStore).
      cbn [registry] in *. by rewrite <- Hr1, <- Hr2.
  - destruct Hf1 as (? & ? & ? & ? & ? & ? & ?).
    destruct Hf2 as (? & ? & ? & ? & ? & ? & ?).
    destruct Hf3 as (? & ? & ? & ? & ? & ? & ?).
    repeat split; congruence.
Qed.

(** *** The store of the permissions *)

Lemma openOrReuse_keeps_open k ts w db d :
  registries_wf w →
  openDir db w = Some d →
  openDir db (openOrReuse k ts w).2 = Some d.
Proof.
  intros (Hfresh & _) Hd. destruct (registry k w !! ts) as [db0|] eqn:Hk.
  { by rewrite (openOrReuse_hit k ts w db0). }
  destruct (openOrReuse_miss k ts w Hk) as (_ & Hh & _).
  unfold openDir in *. rewrite Hh.
  destruct (handles w !! db) as [st|] eqn:Hst; [|done].
  apply Hfresh in Hst as Hlt. rewrite lookup_insert_ne by lia. by rewrite Hst.
Qed.

Lemma closeAndForget_keeps_open k ts w db d :
  registry k w !! ts ≠ Some db →
  openDir db w = Some d →
  openDir db (closeAndForget k ts w) = Some d.
Proof.
  intros Hne Hd. unfold openDir in *.
  by rewrite closeAndForget_handles.
Qed.

Lemma onSIGINT_unregistered w db :
  (∀ k ts, registry k w !! ts ≠ Some db) →
  handles (onSIGINT w) !! db = handles w !! db.
Proof.
  intros Hdb. unfold onSIGINT.
  set (w1 := foldl (λ w kv, closeStore kv.2 w) w (map_to_list (ldbThoughtspaces w))).
  set (w2 := foldl (λ w kv, closeStore kv.2 w) w1 (map_to_list (ldbDoclogs w1))).
  destruct (closeAll_effect (map_to_list (ldbThoughtspaces w)) w) as (_ & Ho1 & Hr1 & _).
  destruct (closeAll_effect (map_to_list (ldbDoclogs w1)) w1) as (_ & Ho2 & Hr2 & _).
  destruct (closeAll_effect (map_to_list (ldbReplicationCursors w2)) w2)
    as (_ & Ho3 & _).
  fold w1 in Ho1, Hr1. fold w2 in Ho2, Hr2.
  assert (∀ (m : gmap string nat), db ∈ (map_to_list m).*2 → ∃ ts, m !! ts = Some db)
    as Hout.
  { intros m ([ts db'] & -> & Hm)%list_elem_of_fmap.
    exists ts. by apply elem_of_map_to_list. }
  rewrite Ho3, Ho2, Ho1; [done|..].
  - intros [ts Hts]%Hout. by apply (Hdb contentStore ts).
  - intros [ts Hts]%Hout. apply (Hdb doclogStore ts).
    specialize (Hr1 doclogStore). cbn [registry] in *. by rewrite <- Hr1.
  - intros [ts Hts]%Hout. apply (Hdb cursorStore ts).
    specialize (Hr2 cursorStore). specialize (Hr1 cursorStore).
    cbn [registry] in *. by rewrite <- Hr1, <- Hr2.
Qed.

Lemma permissions_open_step p e q :
  step p e q →
  registries_wf (world p) →
  openDir ldbPermissions (world p) = Some permissionsDir →
  openDir ldbPermissions (world q) = Some permissionsDir.
Proof.
  intros Hstep Hwf Hopen.
  assert (∀ w', sameStores (world p) w' →
                openDir ldbPermissions w' = Some permissionsDir) as Hsame.
  { intros w' (Hh & _). rewrite <- Hopen. by apply openDir_handles. }
  assert (∀ k ts db, registry k (world p) !! ts = Some db → db ≠ ldbPermissions)
    as Hnot.
  { intros k ts db Hdb. destruct Hwf as (_ & _ & Hreg & _). by apply Hreg in Hdb as [? _]. }
  destruct Hstep; cbn [world] in *.
  - apply Hsame. by eapply sameStores_read_write.
  - done.
  - apply Hsame. apply sameStores_bindState_merge.
  - done.
  - apply Hsame. apply sameStores_onAuthenticate.
  - destruct (onLoadDocument_stores token document documentName w)
      as [Hs|[(pp & _ & _ & Hs)|(pp & _ & _ & Hs)]].
    + by apply Hsame.
    + destruct Hs as (Hh & _). rewrite (openDir_handles _ _ _ Hh).
      by apply openOrReuse_keeps_open.
    + destruct Hs as (Hh & _). rewrite (openDir_handles _ _ _ Hh).
      apply openOrReuse_keeps_open; [by apply registries_wf_openOrReuse|].
      by apply openOrReuse_keeps_open.
  - destruct (parseDocumentName documentName) as [pp|] eqn:Hp.
    + destruct (decide (type pp = "doclog")) as [Hty|Hty].
      * rewrite (onDisconnect_blocks _ pp) by done. cbn [snd].
        assert (∀ k0 w0, (∀ k ts db, registry k w0 !! ts = Some db → db ≠ ldbPermissions) →
                  openDir ldbPermissions w0 = Some permissionsDir →
                  openDir ldbPermissions (closeAndForget k0 (tsid pp) w0)
                  = Some permissionsDir
                  ∧ ∀ k ts db, registry k (closeAndForget k0 (tsid pp) w0) !! ts = Some db →
                               db ≠ ldbPermissions) as Hblock.
        { intros k0 w0 Hn0 Ho0. split.
          - apply closeAndForget_keeps_open; [|done]. intros Heq. by eapply Hn0.
          - intros k ts db. rewrite closeAndForget_registry.
            case_decide; [done|]. apply Hn0. }
        destruct (Hblock contentStore w Hnot Hopen) as [Ho1 Hn1].
        destruct (Hblock doclogStore _ Hn1 Ho1) as [Ho2 Hn2].
        by destruct (Hblock cursorStore _ Hn2 Ho2) as [Ho3 _].
      * unfold onDisconnect. rewrite Hp. by rewrite decide_False.
    + unfold onDisconnect. by rewrite Hp.
  - done.
  - done.
  - apply Hsame. apply sameStores_applyUpdate.
  - apply Hsame. apply sameStores_clientMap_set.
  - apply Hsame. apply sameStores_clientMap_delete.
  - apply Hsame. apply sameStores_next.
  - unfold openDir in *. rewrite onSIGINT_unregistered; [done|].
    intros k ts Hdb. by eapply Hnot.
Qed.

Lemma permissions_open_steps p tr q :
  steps p tr q →
  registries_wf (world p) →
  openDir ldbPermissions (world p) = Some permissionsDir →
  (∀ e, phase p ≠ Unsynced e) →
  openDir ldbPermissions (world q) = Some permissionsDir
  ∧ (EvSyncFailed ∉ tr)
  ∧ ∀ e, phase q ≠ Unsynced e.
Proof.
  induction 1 as [|p e q tr r Hstep _ IH]; intros Hwf Hopen Hph.
  { split; [done|]. split; [apply not_elem_of_nil|done]. }
  assert (e ≠ EvSyncFailed ∧ ∀ e', phase q ≠ Unsynced e') as [He Hq].
  { destruct Hstep; cbn [phase world] in *; try done.
    exfalso.
    destruct (bindState_resolves ldbPermissions "permissions" serverDoc _ w Hopen)
      as (w0 & w1 & Hread & _ & _ & Hwrite & _).
    destruct H as [H|(dp & w0' & Hr & H)]; [congruence|].
    rewrite Hread in Hr. injection Hr as _ <-. congruence. }
  destruct IH as (Ho & Htr & Hr);
    [by eapply registries_wf_step|by eapply permissions_open_step|done|].
  split; [done|]. split; [|done].
  apply not_elem_of_cons. by split.
Qed.

(** X8. Nothing closes [ldbPermissions]: in every state that the server
    process reaches it is open over the permissions directory, whatever
    disconnections and interrupt signals occurred. Hence the binding of
    [permissionsServerDoc] at the start never fails: no run has the event
    of a failed sync. *)
Theorem ldbPermissions_stays_open (clk : nat → Timestamp)
    (dsk : gmap string (gmap string (list Update))) (tr : list Event) (p : Process) :
  steps (main clk dsk) tr p →
  openDir ldbPermissions (world p) = Some permissionsDir
  ∧ (EvSyncFailed ∉ tr)
  ∧ ∀ e, phase p ≠ Unsynced e.
Proof.
  intros Hsteps. eapply permissions_open_steps; [done|..].
  - unfold main. cbn [world].
    eapply registries_wf_ext; [..|apply (registries_wf_initial clk dsk)]; done.
  - unfold main, openDir, initialWorld. simpl. by rewrite lookup_singleton_eq.
  - done.
Qed.

(** *** Runs without an interrupt signal *)









(** *** What is stored stays stored *)

#[local] Instance diskGrows_refl : Reflexive diskGrows.
Proof. by intros w d n. Qed.

#[local] Instance diskGrows_trans : Transitive diskGrows.
Proof. intros w1 w2 w3 H12 H23 d n. etrans; [apply H12|apply H23]. Qed.















(** *** The load of a doclog *)

Lemma applyUpdate_frame n u w :
  onlyDocsDisk w (applyUpdate (hosted n) u w)
  ∧ (∀ m, m ≠ n → heap (applyUpdate (hosted n) u w) !! m = heap w !! m)
  ∧ (observers (getDoc (hosted n) w) = [] →
     permissionsServerDoc (applyUpdate (hosted n) u w) = permissionsServerDoc w).
Proof.
  set (d := getDoc (hosted n) w).
  set (w1 := setDoc (hosted n) (with_store (store d ∪ u) d) w).
  assert (∀ m, m ≠ n → heap w1 !! m = heap w !! m) as Hheap1.
  { intros m Hm. unfold w1. simpl. by rewrite lookup_insert_ne. }
  unfold applyUpdate. fold d. fold w1. case_decide.
  { split; [apply onlyDocsDisk_setDoc|]. split; [done|]. done. }
  set (w2 := notifyObservers n (changedKeys (store d) (store d ∪ u) rootMap) w1).
  pose proof (serverWrites_notifyObservers n
                (changedKeys (store d) (store d ∪ u) rootMap) w1) as Hw2.
  fold w2 in Hw2.
  destruct (emitUpdate_frame (updateHandlers d) (u ∖ store d) w2)
    as (_ & _ & Hpsd & Hhp & _).
  split; [|split].
  - etrans; [apply (onlyDocsDisk_setDoc (hosted n))|].
    etrans; [by apply onlyDocsDisk_serverWrites|apply onlyDocsDisk_emitUpdate].
  - intros m Hm. rewrite Hhp, (serverWrites_heap _ _ Hw2). by apply Hheap1.
  - intros Hobs. rewrite Hpsd. unfold w2, notifyObservers.
    replace (observers (getDoc (hosted n) w1)) with (@nil string); [done|].
    unfold w1. by rewrite getDoc_setDoc.
Qed.

Lemma bindState_frame db docName n w :
  controllers (bindState db docName (hosted n) w).2 = controllers w
  ∧ (observers (getDoc (hosted n) w) = [] →
     permissionsServerDoc (bindState db docName (hosted n) w).2
     = permissionsServerDoc w)
  ∧ ∀ m, m ≠ n → heap (bindState db docName (hosted n) w).2 !! m = heap w !! m.
Proof.
  unfold bindState.
  destruct (bindState_read db docName w) as [[docPersisted w0]|] eqn:Hr; [|done].
  apply bindState_read_disk in Hr as [dsk0 ->].
  destruct (bindState_write db docName (hosted n) (set_disk dsk0 w)) as [w1|] eqn:Hw;
    [|done].
  cbn [snd]. apply storeUpdate_disk in Hw as [dsk ->].
  unfold bindState_merge, onUpdate.
  destruct (applyUpdate_frame n docPersisted (set_disk dsk (set_disk dsk0 w)))
    as ((_ & Hctl & _) & Hheap & Hpsd).
  split; [exact Hctl|]. split.
  - intros Hobs. exact (Hpsd Hobs).
  - intros m Hm. cbn [setDoc set_heap heap]. rewrite lookup_insert_ne by done.
    by rewrite Hheap.
Qed.

(** X12. The load of a doclog document by an owner, in a state with well
    formed registries whose doclog store for the tenant, if there is one,
    is open: the call resolves; afterwards the tenant has a doclog store
    and a cursor store registered; exactly one controller is added, bound
    to the loaded document, with the cursor store of the tenant as its
    storage; and the store of the doclog is the last update handler of the
    document. *)
Theorem onLoadDocument_doclog_controller (token : string) (document : nat)
    (documentName : string) (p : DocumentNameParts) (w : World) :
  parseDocumentName documentName = Some p →
  type p = "doclog" →
  role <$> getMap (permissionsServerDoc w) (tsid p) !! token = Some "owner" →
  registries_wf w →
  (∀ db, ldbDoclogs w !! tsid p = Some db → is_Some (openDir db w)) →
  let w' := (onLoadDocument token document documentName w).2 in
  (onLoadDocument token document documentName w).1 = Resolved ()
  ∧ ∃ doclogDb cursorDb,
      ldbDoclogs w' !! tsid p = Some doclogDb
      ∧ ldbReplicationCursors w' !! tsid p = Some cursorDb
      ∧ controllers w'
        = controllers w ++ [mkController document (tsid p) documentName cursorDb]
      ∧ updateHandlers (getDoc (hosted document) w')
        = updateHandlers (getDoc (hosted document) w) ++ [(doclogDb, documentName)].
Proof.
  intros Hp Hty Hrole Hwf Hopen w'. subst w'.
  rewrite (onLoadDocument_doclog token document documentName p w) by done.
  cbv zeta.
  set (r1 := openOrReuse doclogStore (tsid p) w).
  set (r2 := openOrReuse cursorStore (tsid p) r1.2).
  assert (∃ d, openDir r1.1 r1.2 = Some d) as [d Hd1].
  { unfold r1. destruct (registry doclogStore w !! tsid p) as [db|] eqn:Hk.
    - rewrite (openOrReuse_hit doclogStore (tsid p) w db) by done. cbn [fst snd].
      destruct (Hopen db Hk) as [d Hd]. eauto.
    - destruct (openOrReuse_miss doclogStore (tsid p) w Hk) as (-> & Hh & _).
      unfold openDir. rewrite Hh, lookup_insert_eq. eauto. }
  assert (registry doclogStore r1.2 !! tsid p = Some r1.1) as Hreg1.
  { unfold r1. destruct (registry doclogStore w !! tsid p) as [db|] eqn:Hk.
    - by rewrite (openOrReuse_hit doclogStore (tsid p) w db).
    - destruct (openOrReuse_miss doclogStore (tsid p) w Hk) as (-> & _ & _ & Hr & _).
      by rewrite Hr, decide_True, lookup_insert_eq. }
  assert (registry cursorStore r2.2 !! tsid p = Some r2.1) as Hreg2.
  { unfold r2. destruct (registry cursorStore r1.2 !! tsid p) as [db|] eqn:Hk.
    - by rewrite (openOrReuse_hit cursorStore (tsid p) r1.2 db).
    - destruct (openOrReuse_miss cursorStore (tsid p) r1.2 Hk)
        as (-> & _ & _ & Hr & _).
      by rewrite Hr, decide_True, lookup_insert_eq. }
  assert (openDir r1.1 r2.2 = Some d) as Hd2.
  { apply openOrReuse_keeps_open; [|done]. by apply registries_wf_openOrReuse. }
  assert (controllers r2.2 = controllers w ∧ heap r2.2 = heap w) as [Hc2 Hh2].
  { assert (∀ k w0, controllers (openOrReuse k (tsid p) w0).2 = controllers w0
                     ∧ heap (openOrReuse k (tsid p) w0).2 = heap w0) as Hoor.
    { intros k w0. unfold openOrReuse. destruct (registry k w0 !! tsid p); [done|].
      by destruct k. }
    unfold r2. destruct (Hoor cursorStore r1.2) as [-> ->]. apply Hoor. }
  destruct (bindState_resolves r1.1 documentName (hosted document) d r2.2 Hd2)
    as (w0 & w1 & _ & _ & _ & _ & _ & Hdoc & _ & Hbind & _).
  destruct (bindState_frame r1.1 documentName document r2.2) as (Hctl & _).
  destruct (sameStores_bindState r1.1 documentName (hosted document) r2.2)
    as (_ & _ & _ & Hdl & Hcu & _).
  rewrite Hbind in *. cbn [fst snd] in *.
  split; [done|]. exists r1.1, r2.1.
  unfold replicationController.
  cbn [ldbDoclogs ldbReplicationCursors controllers set_controllers].
  split.
  { rewrite Hdl. rewrite <- Hreg1.
    change (ldbDoclogs r2.2) with (registry doclogStore r2.2).
    unfold r2. by rewrite openOrReuse_other. }
  split; [by rewrite Hcu|]. split; [by rewrite Hctl, Hc2|].
  change (getDoc (hosted document)
            (set_controllers ?c ?w0)) with (getDoc (hosted document) w0).
  rewrite bindState_merge_doc, Hdoc. cbn [updateHandlers with_updateHandlers].
  unfold getDoc. by rewrite Hh2.
Qed.

(** *** Who writes the permission maps *)


(** *** A load and the other tenants *)

Lemma openOrReuse_elsewhere k ts w :
  (∀ k' ts', ts' ≠ ts →
     registry k' (openOrReuse k ts w).2 !! ts' = registry k' w !! ts')
  ∧ (∀ db, (db < nextHandle w)%nat →
       handles (openOrReuse k ts w).2 !! db = handles w !! db)
  ∧ (nextHandle w ≤ nextHandle (openOrReuse k ts w).2)%nat.
Proof.
  destruct (registry k w !! ts) as [db0|] eqn:Hk.
  { rewrite (openOrReuse_hit k ts w db0) by done. done. }
  destruct (openOrReuse_miss k ts w Hk) as (_ & Hh & Hn & Hr & _).
  split; [|split].
  - intros k' ts' Hne. rewrite Hr. case_decide; [|done]. subst k'.
    by rewrite lookup_insert_ne.
  - intros db Hdb. rewrite Hh, lookup_insert_ne; [done|lia].
  - rewrite Hn. lia.
Qed.

(** X14. A load for one tenant leaves the others alone: whatever the
    token, the document and the type, [onLoadDocument] changes no registry
    entry of another tenant, and it neither closes nor replaces any store
    that existed before the call. *)
Theorem onLoadDocument_other_tenants (token : string) (document : nat)
    (documentName : string) (p : DocumentNameParts) (w : World) :
  parseDocumentName documentName = Some p →
  let w' := (onLoadDocument token document documentName w).2 in
  (∀ k ts, ts ≠ tsid p → registry k w' !! ts = registry k w !! ts)
  ∧ (∀ db, (db < nextHandle w)%nat → handles w' !! db = handles w !! db)
  ∧ (nextHandle w ≤ nextHandle w')%nat.
Proof.
  intros Hp w'. subst w'.
  destruct (onLoadDocument_stores token document documentName w)
    as [Hs|[(p' & Hp' & _ & Hs)|(p' & Hp' & _ & Hs)]].
  - pose proof (λ k, registry_sameStores k _ _ Hs) as Hr.
    destruct Hs as (Hh & Hn & _). rewrite Hh, Hn.
    split; [|done]. intros k ts _. by rewrite Hr.
  - assert (p' = p) as -> by congruence.
    pose proof (λ k, registry_sameStores k _ _ Hs) as Hr.
    destruct Hs as (Hh & Hn & _). rewrite Hh, Hn.
    destruct (openOrReuse_elsewhere contentStore (tsid p) w) as (Hreg & Hhd & Hnx).
    split; [|done]. intros k ts Hne. rewrite Hr. by apply Hreg.
  - assert (p' = p) as -> by congruence.
    pose proof (λ k, registry_sameStores k _ _ Hs) as Hr.
    destruct Hs as (Hh & Hn & _). rewrite Hh, Hn.
    destruct (openOrReuse_elsewhere doclogStore (tsid p) w) as (Hreg1 & Hhd1 & Hnx1).
    destruct (openOrReuse_elsewhere cursorStore (tsid p)
                (openOrReuse doclogStore (tsid p) w).2) as (Hreg2 & Hhd2 & Hnx2).
    split; [|split].
    + intros k ts Hne. rewrite Hr, Hreg2 by done. by apply Hreg1.
    + intros db Hdb. rewrite Hhd2 by lia. by apply Hhd1.
    + lia.
Qed.

(** *** Deleted content stays deleted *)

(** X15. What the delete handler cleared does not come back: after a
    Delete entry was handled on an open content store, a document that is
    bound to the cleared name of that store resolves and gets nothing from
    the store, it holds exactly what it held before the binding. *)
Theorem deleted_content_stays_deleted (c : Controller) (e : DocLogEntry) (db : nat)
    (d : string) (docB : DocRef) (w : World) :
  entryAction e = Delete →
  ldbThoughtspaces w !! ctlTsid c = Some db →
  openDir db w = Some d →
  let name_ :=
    if decide (entryType e = "thought")
    then encodeThoughtDocumentName (ctlTsid c) (entryId e)
    else encodeLexemeDocumentName (ctlTsid c) (entryId e) in
  let w1 := (next c e w).2 in
  (bindState db name_ docB w1).1 = Resolved ()
  ∧ store (getDoc docB (bindState db name_ docB w1).2) = store (getDoc docB w1).
Proof.
  intros Hdel Hdb Hd name_ w1.
  assert (openDir db w1 = Some d ∧ storedUpdates d name_ w1 = []) as [Hd1 Hnil].
  { unfold w1, next. rewrite Hdel. fold name_.
    replace (ldbThoughtspaces (destroyDoc (hosted (ctlDoc c)) w))
      with (ldbThoughtspaces w) by done.
    rewrite Hdb.
    assert (openDir db (destroyDoc (hosted (ctlDoc c)) w) = Some d) as Hd' by done.
    destruct (clearDocument db name_ (destroyDoc (hosted (ctlDoc c)) w))
      as [w2|] eqn:Hc.
    - destruct (storedUpdates_clearDocument _ _ _ _ _ Hd' Hc) as (Hnil & _ & Hh).
      cbn [snd]. split; [|done]. rewrite <- Hd'. by apply openDir_handles.
    - unfold clearDocument in Hc. by rewrite Hd' in Hc. }
  destruct (bindState_resolves db name_ docB d w1 Hd1)
    as (w0 & w2 & _ & _ & _ & _ & _ & _ & _ & Hbind & Hstore).
  split; [by rewrite Hbind|].
  rewrite Hstore, Hnil. simpl. apply union_empty_r_L.
Qed.

(** *** The subscription of a bound document *)

#[local] Instance keepsHandlers_refl doc : Reflexive (keepsHandlers doc).
Proof. by intros w h. Qed.

#[local] Instance keepsHandlers_trans doc : Transitive (keepsHandlers doc).
Proof. intros w1 w2 w3 H12 H23 h Hh. by apply H23, H12. Qed.

























End Properties.

#[local] Existing Instance sampleEncoder.
#[local] Existing Instance samplePlatform.

(** The authentication of a token on the tenant ts1 of a server that has
    just started, and a second
    token on the tenant that the first one now owns. *)
Lemma onAuthenticate_gate_witness :
  (onAuthenticate (enc := sampleEncoder) (plat := samplePlatform)
     "abc123" "ts1/permissions" sampleWorld).1 = Resolved "abc123"
  ∧ (onAuthenticate (enc := sampleEncoder) (plat := samplePlatform) "xyz789" "ts1/permissions"
       (onAuthenticate (enc := sampleEncoder) (plat := samplePlatform)
          "abc123" "ts1/permissions" sampleWorld).2).1
    = Rejected (Err "Not authorized").
Proof.
  pose proof (onAuthenticate_gate "abc123" "ts1/permissions"
                (mkParts "ts1" "permissions" None) sampleWorld eq_refl) as Hfirst.
  cbv zeta in Hfirst. destruct Hfirst as [Hnew _].
  destruct (Hnew eq_refl) as (Hres & Hmap & _).
  split; [exact Hres|].
  pose proof (onAuthenticate_gate "xyz789" "ts1/permissions"
                (mkParts "ts1" "permissions" None)
                (onAuthenticate "abc123" "ts1/permissions" sampleWorld).2 eq_refl)
    as Hsecond.
  cbv zeta in Hsecond. destruct Hsecond as (_ & _ & Hrej).
  cbn [tsid] in Hrej, Hmap.
  rewrite Hrej; [reflexivity| |].
  - rewrite Hmap. apply insert_non_empty.
  - rewrite Hmap. rewrite lookup_singleton_ne; [discriminate|discriminate].
Defined.

(** A load by a token that does not own the tenant ts1. *)
Lemma onLoadDocument_not_owner_witness :
  onLoadDocument "xyz789" 5 "ts1/thought/T1" sampleOwned = (Resolved (), sampleOwned).
Proof.
  apply (onLoadDocument_not_owner "xyz789" 5 "ts1/thought/T1"
           (mkParts "ts1" "thought" (Some "T1")) sampleOwned).
  - reflexivity.
  - vm_compute. discriminate.
Defined.

(** The observer on an event that sets tokA and removes tokB. *)
Lemma observeCallback_reconciles_witness :
  getMap (permissionsServerDoc
            (observeCallback "ts1" 9 [("tokA", update); ("tokB", delete_)]
               sampleClientWorld)) "ts1" !! "tokB" = None
  ∧ getMap (permissionsServerDoc
              (observeCallback "ts1" 9 [("tokA", update); ("tokB", delete_)]
                 sampleClientWorld)) "ts1" !! "tokA"
    = Some (mkShare 1%Z 1%Z "Renamed" "owner").
Proof.
  assert (NoDup ([("tokA", update); ("tokB", delete_)].*1)) as Hnd.
  { apply (bool_decide_unpack _). vm_compute. exact I. }
  destruct (observeCallback_reconciles "ts1" 9 [("tokA", update); ("tokB", delete_)]
              sampleClientWorld Hnd) as (Hdel & _ & Hset & _).
  split.
  - apply Hdel. apply list_elem_of_In. simpl. auto.
  - apply (Hset "tokA" update).
    + apply list_elem_of_In. simpl. auto.
    + discriminate.
    + vm_compute. reflexivity.
    + right. exists (mkShare 1%Z 1%Z "Owner" "owner"). split.
      * vm_compute. reflexivity.
      * left. simpl. discriminate.
Defined.

(** The deletion of the thought T1 of the tenant ts1, whose
    content store holds an update for it. *)
Lemma next_delete_clears_witness :
  storedUpdates "db/thoughts/ts1" "ts1/thought/T1" sampleLogged ≠ []
  ∧ (next sampleController (mkEntry Delete "T1" "thought") sampleLogged).1 = Resolved ()
  ∧ getYDoc_db 1 "ts1/thought/T1"
      (next sampleController (mkEntry Delete "T1" "thought") sampleLogged).2
    = Some (∅, (next sampleController (mkEntry Delete "T1" "thought") sampleLogged).2).
Proof.
  split; [vm_compute; discriminate|].
  destruct (next_delete_clears sampleController (mkEntry Delete "T1" "thought")
              sampleLogged eq_refl) as (_ & _ & Hclear & _).
  destruct (Hclear 1 "db/thoughts/ts1") as (Hres & _ & Hread & _).
  - vm_compute. reflexivity.
  - vm_compute. reflexivity.
  - split; [exact Hres|exact Hread].
Defined.

(** The same entry destroys the doclog document 6. *)
Lemma next_delete_destroys_doclog_witness :
  isDestroyed (getDoc (hosted 6) sampleLogged) = false
  ∧ isDestroyed
      (getDoc (hosted 6)
         (next sampleController (mkEntry Delete "T1" "thought") sampleLogged).2) = true.
Proof.
  split; [vm_compute; reflexivity|].
  apply (next_delete_destroys_doclog sampleController (mkEntry Delete "T1" "thought")
           sampleLogged eq_refl).
Defined.


(** The subscription ends with the document. The doclog of ts1 is bound,
    as the document 6, to the doclog store of ts1, and [bindState]
    resolves. The delete handler of its controller then receives a Delete
    entry: the store stays open, but an update that brings something new
    to the document is no longer appended to the stored updates of its
    name, as it is before the entry. *)
Lemma bindState_subscription_ends :
  openDir 2 sampleDoclogOpen = Some "db/doclogs/ts1"
  ∧ (bindState 2 "ts1/doclog" (hosted 6) sampleDoclogOpen).1 = Resolved ()
  ∧ updateHandlers (getDoc (hosted 6) sampleDoclogBound) = [(2, "ts1/doclog")]
  ∧ storedUpdates "db/doclogs/ts1" "ts1/doclog"
      (applyUpdate (hosted 6) {[ struct (9, 0) ]} sampleDoclogBound)
    = storedUpdates "db/doclogs/ts1" "ts1/doclog" sampleDoclogBound
      ++ [{[ struct (9, 0) ]}]
  ∧ openDir 2 sampleDoclogDeleted = Some "db/doclogs/ts1"
  ∧ (struct (9, 0) ∉ store (getDoc (hosted 6) sampleDoclogDeleted))
  ∧ store (getDoc (hosted 6) (applyUpdate (hosted 6) {[ struct (9, 0) ]}
                                sampleDoclogDeleted))
    = store (getDoc (hosted 6) sampleDoclogDeleted) ∪ {[ struct (9, 0) ]}
  ∧ storedUpdates "db/doclogs/ts1" "ts1/doclog"
      (applyUpdate (hosted 6) {[ struct (9, 0) ]} sampleDoclogDeleted)
    = storedUpdates "db/doclogs/ts1" "ts1/doclog" sampleDoclogDeleted.
Proof.
  split; [vm_compute; reflexivity|].
  split; [vm_compute; reflexivity|].
  split; [vm_compute; reflexivity|].
  split; [vm_compute; reflexivity|].
  split; [vm_compute; reflexivity|].
  split; [apply (bool_decide_unpack _); vm_compute; exact I|].
  split; [vm_compute; reflexivity|].
  vm_compute. reflexivity.
Qed.

(** The disconnection of the doclog of ts1. *)
Lemma onDisconnect_doclog_closes_witness :
  ldbThoughtspaces sampleLogged !! "ts1" = Some 1
  ∧ ldbThoughtspaces (onDisconnect "ts1/doclog" sampleLogged).2 !! "ts1" = None
  ∧ openDir 1 (onDisconnect "ts1/doclog" sampleLogged).2 = None
  ∧ disk (onDisconnect "ts1/doclog" sampleLogged).2 = disk sampleLogged.
Proof.
  assert (ldbThoughtspaces sampleLogged !! "ts1" = Some 1) as Hreg.
  { vm_compute. reflexivity. }
  split; [exact Hreg|].
  assert (parseDocumentName "ts1/doclog" = Some (mkParts "ts1" "doclog" None)) as Hp.
  { reflexivity. }
  destruct (onDisconnect_doclog_closes "ts1/doclog" (mkParts "ts1" "doclog" None)
              sampleLogged Hp) as [_ Hclose].
  destruct (Hclose eq_refl) as (_ & Hnone & Hclosed & _ & _ & Hdisk & _).
  split; [exact (Hnone contentStore)|].
  split; [exact (Hclosed contentStore 1 Hreg)|exact Hdisk].
Defined.

(** A restart on the disk that a first run left, on which abc123 owns
    ts1: when the server starts to listen, xyz789 is refused on ts1. *)
Lemma listen_after_permissions_synced_witness :
  ∃ p, steps (main sampleClock sampleRestartDisk) [EvPersistedRead; EvSynced; EvListen] p
       ∧ onAuthenticate "xyz789" "ts1/permissions" (world p)
         = (Rejected (Err "Not authorized"), world p).
Proof.
  destruct (main_starts sampleClock sampleRestartDisk) as (p & Hp & _).
  exists p. split; [exact Hp|].
  pose proof (listen_after_permissions_synced sampleClock sampleRestartDisk _ p Hp)
    as Hstart.
  cbv zeta in Hstart. destruct Hstart as (_ & _ & _ & Hlisten).
  destruct (Hlisten [EvPersistedRead; EvSynced] eq_refl) as (_ & _ & _ & Hrefuse).
  apply (Hrefuse "xyz789" "ts1/permissions" (mkParts "ts1" "permissions" None)).
  - reflexivity.
  - intros Hempty.
    apply (f_equal (λ m : gmap string Share, role <$> m !! "abc123")) in Hempty.
    vm_compute in Hempty. discriminate.
  - vm_compute. discriminate.
Defined.

(** The load of the lexeme L1 of ts1 while the content store of ts1 is
    registered, and a second load of the doclog of ts1 while its doclog
    and cursor stores are. *)
Lemma store_handles_singleton_witness :
  ldbThoughtspaces sampleLoaded !! "ts1" = Some 1
  ∧ ldbThoughtspaces (onLoadDocument "abc123" 8 "ts1/lexeme/L1" sampleLoaded).2 !! "ts1"
    = Some 1
  ∧ nextHandle (onLoadDocument "abc123" 8 "ts1/lexeme/L1" sampleLoaded).2
    = nextHandle sampleLoaded
  ∧ ldbDoclogs sampleLogged !! "ts1" = Some 2
  ∧ ldbReplicationCursors sampleLogged !! "ts1" = Some 3
  ∧ handles (onLoadDocument "abc123" 10 "ts1/doclog" sampleLogged).2
    = handles sampleLogged.
Proof.
  assert (ldbThoughtspaces sampleLoaded !! "ts1" = Some 1) as Hreg.
  { vm_compute. reflexivity. }
  assert (ldbDoclogs sampleLogged !! "ts1" = Some 2) as Hlog.
  { vm_compute. reflexivity. }
  assert (ldbReplicationCursors sampleLogged !! "ts1" = Some 3) as Hcur.
  { vm_compute. reflexivity. }
  assert (parseDocumentName "ts1/lexeme/L1" = Some (mkParts "ts1" "lexeme" (Some "L1")))
    as Hp.
  { reflexivity. }
  assert (parseDocumentName "ts1/doclog" = Some (mkParts "ts1" "doclog" None)) as Hq.
  { reflexivity. }
  destruct store_handles_singleton as (_ & Hkeep & Hreuse & _ & _ & Hboth).
  split; [exact Hreg|]. split; [|split; [|split; [exact Hlog|split; [exact Hcur|]]]].
  - exact (proj1 (Hkeep "abc123" 8 "ts1/lexeme/L1" _ sampleLoaded contentStore 1
                    Hp Hreg)).
  - apply (Hreuse "abc123" 8 "ts1/lexeme/L1" (mkParts "ts1" "lexeme" (Some "L1"))
             sampleLoaded 1 Hp).
    + right. reflexivity.
    + vm_compute. reflexivity.
    + exact Hreg.
  - exact (proj1 (Hboth "abc123" 10 "ts1/doclog" (mkParts "ts1" "doclog" None)
                    sampleLogged 2 3 Hq eq_refl Hlog Hcur)).
Defined.

(** A run of the first events of the server. *)
Lemma sampleTrace_run : ∃ p, steps (main sampleClock sampleDisk) sampleTrace p.
Proof.
  assert (openDir ldbPermissions (world (main sampleClock sampleDisk))
          = Some "db/permissions") as Hopen.
  { vm_compute. reflexivity. }
  destruct (bindState_resolves ldbPermissions "permissions" serverDoc _ _ Hopen)
    as (w0 & w1 & Hread & _ & _ & Hwrite & _).
  eexists. unfold sampleTrace.
  eapply steps_cons; [eapply step_read; [exact Hread|exact Hwrite]|].
  eapply steps_cons; [apply step_synced|].
  eapply steps_cons; [apply step_listen|].
  eapply steps_cons; [apply step_authenticate; reflexivity|].
  apply steps_nil.
Qed.

Lemma sampleLoaded_wf : registries_wf sampleLoaded.
Proof.
  unfold sampleLoaded. apply registries_wf_onLoadDocument.
  unfold sampleOwned.
  eapply registries_wf_sameStores; [apply sameStores_onAuthenticate|].
  apply registries_wf_initial.
Qed.

(** The load of the permissions document of ts1 by its owner. *)
Lemma onLoadDocument_seeds_client_witness :
  (onLoadDocument "abc123" 9 "ts1/permissions" sampleHosted).1 = Resolved ()
  ∧ is_Some (getMap (getDoc (hosted 9)
                       (onLoadDocument "abc123" 9 "ts1/permissions" sampleHosted).2)
               rootMap !! "abc123").
Proof.
  assert (parseDocumentName "ts1/permissions" = Some (mkParts "ts1" "permissions" None))
    as Hp by reflexivity.
  destruct (onLoadDocument_seeds_client "abc123" 9 "ts1/permissions"
              (mkParts "ts1" "permissions" None) 9 sampleHosted Hp)
    as (Hres & Hroot & _).
  - reflexivity.
  - vm_compute. reflexivity.
  - vm_compute. reflexivity.
  - split; [exact Hres|]. rewrite Hroot. vm_compute. eexists. reflexivity.
Defined.

(** The first authentication on ts1. *)
Lemma onAuthenticate_then_owner_witness :
  role <$> getMap (permissionsServerDoc sampleOwned) "ts1" !! "abc123" = Some "owner".
Proof.
  assert (parseDocumentName "ts1/permissions" = Some (mkParts "ts1" "permissions" None))
    as Hp by reflexivity.
  destruct (onAuthenticate_then_owner "abc123" "ts1/permissions"
              (mkParts "ts1" "permissions" None) sampleWorld Hp) as [Hok _].
  apply Hok. vm_compute. reflexivity.
Defined.

(** The share of abc123 is removed and xyz789 authenticates. *)
Lemma owner_replaced_after_removal_witness :
  (onAuthenticate "xyz789" "ts1/permissions"
     (observeCallback "ts1" 9 [("abc123", delete_)] sampleOwned)).1 = Resolved "xyz789".
Proof.
  assert (parseDocumentName "ts1/permissions" = Some (mkParts "ts1" "permissions" None))
    as Hp by reflexivity.
  destruct (owner_replaced_after_removal "ts1" "abc123" "xyz789" "ts1/permissions"
              (mkShare 1%Z 2%Z "Owner" "owner") 9 (mkParts "ts1" "permissions" None)
              sampleOwned Hp) as (_ & Hres & _).
  - reflexivity.
  - vm_compute. reflexivity.
  - exact Hres.
Defined.

(** The Delete entry of the thought T1, delivered twice. *)
Lemma next_delete_idempotent_witness :
  next sampleController (mkEntry Delete "T1" "thought")
    (next sampleController (mkEntry Delete "T1" "thought") sampleLogged).2
  = (Resolved (), (next sampleController (mkEntry Delete "T1" "thought") sampleLogged).2).
Proof.
  destruct (next_delete_idempotent sampleController (mkEntry Delete "T1" "thought")
              sampleLogged eq_refl) as (_ & _ & Hsame).
  apply (Hsame 1 "db/thoughts/ts1").
  - vm_compute. reflexivity.
  - vm_compute. reflexivity.
Defined.

(** Two documents bound one after the other to the thought T1. *)
Lemma bindState_round_trip_witness :
  ({[ struct (2, 0) ]} : Update)
  ⊆ store (getDoc (hosted 8)
             (bindState 1 "ts1/thought/T1" (hosted 8)
                (applyUpdate (hosted 7) {[ struct (2, 0) ]}
                   (bindState 1 "ts1/thought/T1" (hosted 7) sampleLoaded).2)).2).
Proof.
  assert (openDir 1 sampleLoaded = Some "db/thoughts/ts1") as Hopen.
  { vm_compute. reflexivity. }
  destruct (bindState_round_trip 1 "ts1/thought/T1" (hosted 7) (hosted 8)
              "db/thoughts/ts1" {[ struct (2, 0) ]} sampleLoaded Hopen) as [_ Hsub].
  etrans; [|exact Hsub]. apply union_subseteq_r.
Defined.

(** [ldbPermissions] after the first events. *)
Lemma ldbPermissions_stays_open_witness :
  ∃ p, steps (main sampleClock sampleDisk) sampleTrace p
       ∧ openDir ldbPermissions (world p) = Some permissionsDir.
Proof.
  destruct sampleTrace_run as [p Hp]. exists p. split; [exact Hp|].
  apply (ldbPermissions_stays_open sampleClock sampleDisk sampleTrace p Hp).
Defined.




(** The load of the doclog of ts1 as the document 6. *)
Lemma onLoadDocument_doclog_controller_witness :
  (onLoadDocument "abc123" 6 "ts1/doclog" sampleLoaded).1 = Resolved ()
  ∧ length (controllers sampleLogged) = 1.
Proof.
  assert (parseDocumentName "ts1/doclog" = Some (mkParts "ts1" "doclog" None))
    as Hp by reflexivity.
  destruct (onLoadDocument_doclog_controller "abc123" 6 "ts1/doclog"
              (mkParts "ts1" "doclog" None) sampleLoaded Hp)
    as (Hres & ddb & cdb & _ & _ & Hctl & _).
  - reflexivity.
  - vm_compute. reflexivity.
  - apply sampleLoaded_wf.
  - intros db Hdb. vm_compute in Hdb. discriminate.
  - split; [exact Hres|]. unfold sampleLogged. rewrite Hctl.
    rewrite length_app. vm_compute. reflexivity.
Defined.

(** The load of the thought T1 and the stores that exist. *)
Lemma onLoadDocument_other_tenants_witness :
  handles (onLoadDocument "abc123" 5 "ts1/thought/T1" sampleOwned).2 !! 0
  = handles sampleOwned !! 0.
Proof.
  assert (parseDocumentName "ts1/thought/T1"
          = Some (mkParts "ts1" "thought" (Some "T1"))) as Hp by reflexivity.
  destruct (onLoadDocument_other_tenants "abc123" 5 "ts1/thought/T1"
              (mkParts "ts1" "thought" (Some "T1")) sampleOwned Hp) as (_ & Hh & _).
  apply Hh. vm_compute. lia.
Defined.

(** The thought T1 is deleted and bound again. *)
Lemma deleted_content_stays_deleted_witness :
  storedUpdates "db/thoughts/ts1" "ts1/thought/T1" sampleLogged ≠ []
  ∧ store (getDoc (hosted 8)
             (bindState 1 "ts1/thought/T1" (hosted 8)
                (next sampleController (mkEntry Delete "T1" "thought") sampleLogged).2).2)
    = store (getDoc (hosted 8)
               (next sampleController (mkEntry Delete "T1" "thought") sampleLogged).2).
Proof.
  split; [vm_compute; discriminate|].
  assert (ldbThoughtspaces sampleLogged !! ctlTsid sampleController = Some 1) as Hdb.
  { vm_compute. reflexivity. }
  assert (openDir 1 sampleLogged = Some "db/thoughts/ts1") as Hd.
  { vm_compute. reflexivity. }
  pose proof (deleted_content_stays_deleted sampleController
                (mkEntry Delete "T1" "thought") 1 "db/thoughts/ts1" (hosted 8)
                sampleLogged eq_refl Hdb Hd) as H.
  cbv zeta in H. destruct H as [_ H].
  match type of H with
  | context [bindState _ ?n _ _] =>
      assert (n = "ts1/thought/T1") as Hname by (vm_compute; reflexivity);
      rewrite Hname in H
  end.
  exact H.
Defined.
